(** * Dual-arm Factory controller glue (FactoryBase_MARL2 / FactoryTaskNutBoltPick_MARL2)

    A shallow embedding of the tensor bookkeeping of
    [isaacgymenvs/tasks/factory/factory_base_MARL2.py] and
    [isaacgymenvs/tasks/factory/factory_task_nut_bolt_pick_MARL2.py]:
    the views created by [acquire_base_tensors], the per-step
    [refresh_base_tensors], the controller configuration built by
    [parse_controller_spec], the command dispatch of [generate_ctrl_signals]
    and the target computation of [_apply_actions_as_ctrl_targets].

    Tensors are a shape together with an element function; the elements are
    taken from an arithmetic interface [Scalar] that is instantiated twice:
    by the real numbers (the usual idealisation of floating point, used for
    algebraic identities) and by IEEE-754 binary32 (used where rounding or
    NaN matters). *)

From Stdlib Require Import ZArith Reals Lra Lia.
From Stdlib Require Import Floats.SpecFloat.
From stdpp Require Import base option list gmap strings fin_maps.

Set Default Proof Using "Type".

(** ** Python exceptions and fallible computations *)

Inductive exn :=
  | IndexError
  | ValueError
  | RuntimeError
  | TypeError
  | KeyError
  | AssertionError
  | AttributeError (name : string).

Inductive res (A : Type) :=
  | Ok (a : A)
  | Raise (e : exn).
Arguments Ok {A} a.
Arguments Raise {A} e.

#[global] Instance res_ret : MRet res := λ A a, Ok a.
#[global] Instance res_bind : MBind res := λ A B f m,
  match m with Ok a => f a | Raise e => Raise e end.
#[global] Instance res_fmap : FMap res := λ A B f m,
  match m with Ok a => Ok (f a) | Raise e => Raise e end.
Arguments res_bind {A B} f !m /.
Arguments res_fmap {A B} f !m /.

Definition is_Ok {A} (m : res A) : Prop := ∃ a, m = Ok a.

(** ** Scalars

    The arithmetic the tensor library performs on elements. *)

Class Scalar (F : Type) := {
  fzero : F;
  fone : F;
  ftwo : F;
  fhalf : F;                      (* the literal 0.5 *)
  feps : F;                       (* the literal 1e-9 of [normalize] *)
  fadd : F → F → F;
  fsub : F → F → F;
  fmul : F → F → F;
  fdiv : F → F → F;
  fsqrt : F → F;
  fsin : F → F;
  fcos : F → F;
  fgtb : F → F → bool;            (* [x > y] *)
  fclamp_min : F → F → F;         (* [x.clamp(min=m)] *)
  fnorm2 : list F → F             (* the 2-norm of a vector, as the library's
                                     reduction kernel computes it *)
}.

(** ** Tensors *)

Record tensor (F : Type) := Tensor {
  tshape : list nat;
  tat : list nat → F
}.
Arguments Tensor {F} tshape tat.
Arguments tshape {F} t.
Arguments tat {F} t idx.

(** An index is in range for a shape when it has one coordinate per
    dimension, each below the dimension's size. *)
Definition in_range (idx sh : list nat) : Prop := Forall2 lt idx sh.

(** Two tensors agree when they have the same shape and the same element at
    every index in range. *)
Definition teq {F} (a b : tensor F) : Prop :=
  tshape a = tshape b ∧ ∀ idx, in_range idx (tshape a) → tat a idx = tat b idx.

(** Basic indexing, [t[i0, i1, ...]]: a full slice [:], an integer (negative
    integers count from the end) or a slice [lo:hi] with literal bounds. *)
Inductive ix :=
  | IAll
  | IAt (i : Z)
  | ISlice (lo hi : nat).

Module Torch.
Section Tensors.
Context {F : Type}.

Definition numel (sh : list nat) : nat := foldr Nat.mul 1 sh.

Definition of_list (l : list F) (d : F) : tensor F :=
  Tensor [length l] (λ idx, nth (nth 0 idx 0) l d).

Definition full (sh : list nat) (x : F) : tensor F := Tensor sh (λ _, x).

(** [norm_index i d]: the position an integer index denotes in a dimension
    of size [d], or IndexError. *)
Definition norm_index (i : Z) (d : nat) : res nat :=
  if bool_decide (0 ≤ i < Z.of_nat d)%Z then Ok (Z.to_nat i)
  else if bool_decide (- Z.of_nat d ≤ i < 0)%Z then Ok (Z.to_nat (Z.of_nat d + i))
  else Raise IndexError.

Definition wrap_index (i : Z) (d : nat) : nat :=
  if bool_decide (0 ≤ i)%Z then Z.to_nat i else Z.to_nat (Z.of_nat d + i).

Fixpoint ix_shape (ixs : list ix) (sh : list nat) : res (list nat) :=
  match ixs, sh with
  | [], _ => Ok sh
  | _ :: _, [] => Raise IndexError
  | IAll :: ixs', d :: sh' => cons d <$> ix_shape ixs' sh'
  | IAt i :: ixs', d :: sh' => _ ← norm_index i d; ix_shape ixs' sh'
  | ISlice lo hi :: ixs', d :: sh' =>
      cons (Nat.min hi d - Nat.min lo d) <$> ix_shape ixs' sh'
  end.

(** The index of the source element that the element [idx] of the result
    of [t[ixs]] is. *)
Fixpoint ix_src (ixs : list ix) (sh : list nat) (idx : list nat) : list nat :=
  match ixs, sh with
  | [], _ => idx
  | _ :: _, [] => idx
  | IAll :: ixs', d :: sh' =>
      match idx with
      | i :: idx' => i :: ix_src ixs' sh' idx'
      | [] => []
      end
  | IAt i :: ixs', d :: sh' => wrap_index i d :: ix_src ixs' sh' idx
  | ISlice lo hi :: ixs', d :: sh' =>
      match idx with
      | i :: idx' => (Nat.min lo d + i) :: ix_src ixs' sh' idx'
      | [] => []
      end
  end.

Definition getitem (t : tensor F) (ixs : list ix) : res (tensor F) :=
  sh ← ix_shape ixs (tshape t);
  Ok (Tensor sh (λ idx, tat t (ix_src ixs (tshape t) idx))).

(** [np.concatenate((a, b), axis)] and [torch.cat((a, b), dim=axis)]: all
    dimensions but [axis] must agree. *)
Fixpoint cat_shape (axis : nat) (sa sb : list nat) : res (list nat) :=
  match axis, sa, sb with
  | 0, a :: sa', b :: sb' =>
      if decide (sa' = sb') then Ok (a + b :: sa') else Raise ValueError
  | S k, a :: sa', b :: sb' =>
      if decide (a = b) then cons a <$> cat_shape k sa' sb' else Raise ValueError
  | _, _, _ => Raise ValueError
  end.

Definition cat_at (axis : nat) (a b : tensor F) (idx : list nat) : F :=
  match idx !! axis, tshape a !! axis with
  | Some i, Some da =>
      if i <? da then tat a idx else tat b (<[axis := i - da]> idx)
  | _, _ => tat a idx
  end.

Definition concatenate (a b : tensor F) (axis : nat) : res (tensor F) :=
  sh ← cat_shape axis (tshape a) (tshape b);
  Ok (Tensor sh (cat_at axis a b)).

(** Row-major position of an index, and back. *)
Fixpoint ravel (sh idx : list nat) : nat :=
  match sh, idx with
  | _ :: sh', i :: idx' => i * numel sh' + ravel sh' idx'
  | _, _ => 0
  end.

Fixpoint unravel (sh : list nat) (n : nat) : list nat :=
  match sh with
  | [] => []
  | _ :: sh' => n / numel sh' :: unravel sh' (n mod numel sh')
  end.

(** [t.view(sh)] of a contiguous tensor. *)
Definition view (t : tensor F) (sh : list nat) : res (tensor F) :=
  if decide (numel sh = numel (tshape t))
  then Ok (Tensor sh (λ idx, tat t (unravel (tshape t) (ravel sh idx))))
  else Raise RuntimeError.

(** [t.unsqueeze(-1)] *)
Definition unsqueeze_last (t : tensor F) : tensor F :=
  Tensor (tshape t ++ [1]) (λ idx, tat t (take (length (tshape t)) idx)).

(** [t.repeat((n, 1))] of a one-dimensional tensor and of a matrix with
    [repeat(1, n)]: the two uses in the sources. *)
Definition repeat_rows (t : tensor F) (n : nat) : res (tensor F) :=
  match tshape t with
  | [k] => Ok (Tensor [n; k] (λ idx, tat t (drop 1 idx)))
  | _ => Raise RuntimeError
  end.

Definition repeat_cols (t : tensor F) (n : nat) : res (tensor F) :=
  match tshape t with
  | [e; k] => Ok (Tensor [e; k * n]
                    (λ idx, match idx with
                            | [i; j] => tat t [i; j mod k]
                            | _ => tat t idx
                            end))
  | _ => Raise RuntimeError
  end.

(** Broadcasting of two shapes, aligned at the last dimension. *)
Fixpoint bshape_rev (ra rb : list nat) : res (list nat) :=
  match ra, rb with
  | [], _ => Ok rb
  | _, [] => Ok ra
  | a :: ra', b :: rb' =>
      if decide (a = b) then cons a <$> bshape_rev ra' rb'
      else if decide (a = 1) then cons b <$> bshape_rev ra' rb'
      else if decide (b = 1) then cons a <$> bshape_rev ra' rb'
      else Raise RuntimeError
  end.

Definition bshape (sa sb : list nat) : res (list nat) :=
  reverse <$> bshape_rev (reverse sa) (reverse sb).

(** The element of an operand of shape [sh] that the element [idx] of the
    broadcast result reads. *)
Definition bsrc (sh idx : list nat) : list nat :=
  zip_with (λ d i, if decide (d = 1) then 0 else i)
           sh (drop (length idx - length sh) idx).

Definition map2 {A B C : Type} (f : A → B → C) (a : tensor A) (b : tensor B)
  : res (tensor C) :=
  sh ← bshape (tshape a) (tshape b);
  Ok (Tensor sh (λ idx, f (tat a (bsrc (tshape a) idx))
                          (tat b (bsrc (tshape b) idx)))).

Definition map1 {A B : Type} (f : A → B) (a : tensor A) : tensor B :=
  Tensor (tshape a) (λ idx, f (tat a idx)).

(** [torch.where(c, a, b)] *)
Definition where_ (c : tensor bool) (a b : tensor F) : res (tensor F) :=
  ab ← map2 pair a b;
  map2 (λ (ci : bool) (p : F * F), if ci then p.1 else p.2) c ab.

End Tensors.

Section Arithmetic.
Context {F : Type} `{Scalar F}.

Definition add (a b : tensor F) : res (tensor F) := map2 fadd a b.
Definition sub (a b : tensor F) : res (tensor F) := map2 fsub a b.
Definition mul (a b : tensor F) : res (tensor F) := map2 fmul a b.
Definition div (a b : tensor F) : res (tensor F) := map2 fdiv a b.

(** [t * c] and [t / c] for a Python float [c]. *)
Definition mul_scalar (a : tensor F) (c : F) : tensor F := map1 (λ x, fmul x c) a.
Definition div_scalar (a : tensor F) (c : F) : tensor F := map1 (λ x, fdiv x c) a.

(** [t > c] for a Python float [c]. *)
Definition gt_scalar (a : tensor F) (c : F) : tensor bool := map1 (λ x, fgtb x c) a.

(** The index [idx] with its coordinate along [dim] replaced by [j]. *)
Definition along (dim : nat) (idx : list nat) (j : nat) : list nat := <[dim := j]> idx.

(** [torch.cross(a, b, dim)]: both operands have size 3 along [dim]. *)
Definition cross (a b : tensor F) (dim : nat) : res (tensor F) :=
  sh ← bshape (tshape a) (tshape b);
  if decide (tshape a !! dim = Some 3 ∧ tshape b !! dim = Some 3) then
    Ok (Tensor sh (λ idx,
          let k := default 0 (idx !! dim) in
          let p := along dim idx ((k + 1) mod 3) in
          let q := along dim idx ((k + 2) mod 3) in
          fsub (fmul (tat a (bsrc (tshape a) p)) (tat b (bsrc (tshape b) q)))
               (fmul (tat a (bsrc (tshape a) q)) (tat b (bsrc (tshape b) p)))))
  else Raise RuntimeError.

(** Sum over the last dimension of [g], which has size [n]. *)
Definition sum_last (n : nat) (g : nat → F) : F :=
  foldl (λ acc j, fadd acc (g j)) fzero (seq 0 n).

(** [t.norm(p=2, dim=-1)] and [torch.norm(t, p=2, dim=-1)]: the reduction
    [fnorm2] of the arithmetic over each vector along the last dimension.
    In which order and precision the kernel accumulates the squares is not
    fixed here. *)
Definition norm_last (t : tensor F) : res (tensor F) :=
  match reverse (tshape t) with
  | n :: rsh =>
      Ok (Tensor (reverse rsh)
            (λ row, fnorm2 ((λ j, tat t (row ++ [j])) <$> seq 0 n)))
  | [] => Raise IndexError
  end.

(** [torch.diag(v)] of a one-dimensional tensor. *)
Definition diag (v : tensor F) : res (tensor F) :=
  match tshape v with
  | [n] => Ok (Tensor [n; n]
                 (λ idx, match idx with
                         | [i; j] => if decide (i = j) then tat v [i] else fzero
                         | _ => fzero
                         end))
  | _ => Raise RuntimeError
  end.

(** [a @ b] of two matrices. *)
Definition matmul (a b : tensor F) : res (tensor F) :=
  match tshape a, tshape b with
  | [e; n], [n'; m] =>
      if decide (n = n')
      then Ok (Tensor [e; m]
                 (λ idx, match idx with
                         | [i; j] => sum_last n (λ k, fmul (tat a [i; k]) (tat b [k; j]))
                         | _ => fzero
                         end))
      else Raise RuntimeError
  | _, _ => Raise RuntimeError
  end.

End Arithmetic.
End Torch.

(** ** [isaacgym.torch_utils]: quaternions in (x, y, z, w) order *)

Module TorchUtils.
Section Quaternions.
Context {F : Type} `{Scalar F}.

(** Component [j] of the row that [idx] lies in. *)
Definition comp (t : tensor F) (idx : list nat) (j : nat) : F :=
  tat t (<[length idx - 1 := j]> idx).

Definition last_dim (t : tensor F) : option nat := last (tshape t).

(** [normalize(x, eps=1e-9)]:
    [x / x.norm(p=2, dim=-1).clamp(min=eps, max=None).unsqueeze(-1)] *)
Definition normalize (x : tensor F) : res (tensor F) :=
  n ← Torch.norm_last x;
  Torch.div x (Torch.unsqueeze_last (Torch.map1 (λ v, fclamp_min v feps) n)).

Definition quat_unit (a : tensor F) : res (tensor F) := normalize a.

(** [quat_from_angle_axis(angle, axis)]:
    [theta = (angle / 2).unsqueeze(-1); xyz = normalize(axis) * theta.sin();
     w = theta.cos(); quat_unit(torch.cat([xyz, w], dim=-1))] *)
Definition quat_from_angle_axis (angle axis : tensor F) : res (tensor F) :=
  let theta := Torch.unsqueeze_last (Torch.div_scalar angle ftwo) in
  n ← normalize axis;
  xyz ← Torch.mul n (Torch.map1 fsin theta);
  let w := Torch.map1 fcos theta in
  q ← Torch.concatenate xyz w (length (tshape xyz) - 1);
  quat_unit q.

(** [quat_mul(a, b)] *)
Definition quat_mul (a b : tensor F) : res (tensor F) :=
  if decide (tshape a = tshape b) then
    if decide (last_dim a = Some 4) then
      Ok (Tensor (tshape a) (λ idx,
            let x1 := comp a idx 0 in let y1 := comp a idx 1 in
            let z1 := comp a idx 2 in let w1 := comp a idx 3 in
            let x2 := comp b idx 0 in let y2 := comp b idx 1 in
            let z2 := comp b idx 2 in let w2 := comp b idx 3 in
            let ww := fmul (fadd z1 x1) (fadd x2 y2) in
            let yy := fmul (fsub w1 y1) (fadd w2 z2) in
            let zz := fmul (fadd w1 y1) (fsub w2 z2) in
            let xx := fadd (fadd ww yy) zz in
            let qq := fmul fhalf (fadd xx (fmul (fsub z1 x1) (fsub x2 y2))) in
            let w := fadd (fsub qq ww) (fmul (fsub z1 y1) (fsub y2 z2)) in
            let x := fadd (fsub qq xx) (fmul (fadd x1 w1) (fadd x2 w2)) in
            let y := fadd (fsub qq yy) (fmul (fsub w1 x1) (fadd y2 z2)) in
            let z := fadd (fsub qq zz) (fmul (fadd z1 y1) (fsub w2 x2)) in
            match last idx with
            | Some 0 => x
            | Some 1 => y
            | Some 2 => z
            | _ => w
            end))
    else Raise RuntimeError
  else Raise AssertionError.

(** [quat_apply(a, b)]:
    [xyz = a[:, :3]; t = xyz.cross(b, dim=-1) * 2;
     b + a[:, 3:] * t + xyz.cross(t, dim=-1)] for matrices [a], [b]. *)
Definition quat_apply (a b : tensor F) : res (tensor F) :=
  xyz ← Torch.getitem a [IAll; ISlice 0 3];
  c ← Torch.cross xyz b 1;
  let t := Torch.mul_scalar c ftwo in
  w ← Torch.getitem a [IAll; ISlice 3 4];
  wt ← Torch.mul w t;
  s ← Torch.add b wt;
  c2 ← Torch.cross xyz t 1;
  Torch.add s c2.

(** [tf_combine(q1, t1, q2, t2)] = [(quat_mul(q1, q2), quat_apply(q1, t2) + t1)] *)
Definition tf_combine (q1 t1 q2 t2 : tensor F) : res (tensor F * tensor F) :=
  q ← quat_mul q1 q2;
  r ← quat_apply q1 t2;
  t ← Torch.add r t1;
  Ok (q, t).

End Quaternions.
End TorchUtils.

(** ** The simulation's tensors and the attributes of the task object

    Tensors live in a store of cells. A Python attribute holding a tensor is
    a reference to a cell together with the chain of view operations
    ([view], basic indexing) through which it looks at the cell: views share
    the cell's storage, so an in-place refresh of the cell is visible through
    them, while a copy lives in a cell of its own. *)

Abbreviation loc := nat.

Inductive vop :=
  | VView (sh : list nat)
  | VIndex (ixs : list ix).

Record tref := TRef { tr_loc : loc; tr_ops : list vop }.

(** The buffers the simulator owns; [gym.acquire_*_tensor] hands them out and
    [gym.refresh_*_tensor] overwrites them in place. *)
Definition L_root_state : loc := 0.
Definition L_body_state : loc := 1.
Definition L_dof_state : loc := 2.
Definition L_dof_force : loc := 3.
Definition L_contact_force : loc := 4.
Definition L_jacobian : loc := 5.
Definition L_mass_matrix : loc := 6.
Definition L_jacobian_2 : loc := 7.
Definition L_mass_matrix_2 : loc := 8.
Definition first_free_loc : loc := 9.

(** [gymapi] drive modes. *)
Inductive drive_mode := DOF_MODE_NONE | DOF_MODE_POS | DOF_MODE_VEL | DOF_MODE_EFFORT.

Section Store.
Context {F : Type}.

(** What the physics engine currently holds for each buffer. *)
Record physics := Physics {
  ph_root_state : tensor F;      (* (num_envs * num_actors, 13) *)
  ph_body_state : tensor F;      (* (num_envs * num_bodies, 13) *)
  ph_dof_state : tensor F;       (* (num_envs * num_dofs, 2) *)
  ph_dof_force : tensor F;       (* (num_envs * num_dofs) *)
  ph_contact_force : tensor F;   (* (num_envs * num_bodies, 3) *)
  ph_jacobian : tensor F;        (* 'franka': (num_envs, links, 6, dofs) *)
  ph_mass_matrix : tensor F;     (* 'franka': (num_envs, dofs, dofs) *)
  ph_jacobian_2 : tensor F;      (* 'franka_2' *)
  ph_mass_matrix_2 : tensor F    (* 'franka_2' *)
}.

(** Values of [self.cfg_ctrl]. *)
Inductive cval :=
  | CNone
  | CBool (b : bool)
  | CInt (n : Z)
  | CStr (s : string)
  | CTensor (t : tensor F).

(** The DOF properties of one actor (a structured array with one entry per
    DOF; the fields the controller touches). *)
Record dofprops := DofProps {
  driveMode : list drive_mode;
  stiffness : list F;
  damping : list F
}.

(** Indexed writes issued to the simulator. *)
Inductive gym_call :=
  | set_dof_position_target_tensor_indexed (targets : tensor F) (ids : tensor Z) (n : nat)
  | set_dof_actuation_force_tensor_indexed (forces : tensor F) (ids : tensor Z) (n : nat).

Record world := World {
  heap : gmap loc (tensor F);
  next_loc : loc;
  attrs : gmap string tref;                    (* tensor attributes of self *)
  cfg_ctrl : gmap string cval;                 (* self.cfg_ctrl *)
  actor_dof_props : gmap (nat * Z) dofprops;   (* by (env, actor handle) *)
  gym_log : list gym_call
}.

Definition set_heap (f : gmap loc (tensor F) → gmap loc (tensor F)) (w : world) : world :=
  World (f (heap w)) (next_loc w) (attrs w) (cfg_ctrl w) (actor_dof_props w) (gym_log w).
Definition set_attrs (f : gmap string tref → gmap string tref) (w : world) : world :=
  World (heap w) (next_loc w) (f (attrs w)) (cfg_ctrl w) (actor_dof_props w) (gym_log w).
Definition set_cfg_ctrl (c : gmap string cval) (w : world) : world :=
  World (heap w) (next_loc w) (attrs w) c (actor_dof_props w) (gym_log w).
Definition set_actor_dof_props (f : gmap (nat * Z) dofprops → gmap (nat * Z) dofprops)
    (w : world) : world :=
  World (heap w) (next_loc w) (attrs w) (cfg_ctrl w) (f (actor_dof_props w)) (gym_log w).
Definition log_call (c : gym_call) (w : world) : world :=
  World (heap w) (next_loc w) (attrs w) (cfg_ctrl w) (actor_dof_props w) (gym_log w ++ [c]).

Definition apply_vop (t : tensor F) (op : vop) : res (tensor F) :=
  match op with
  | VView sh => Torch.view t sh
  | VIndex ixs => Torch.getitem t ixs
  end.

Definition apply_vops (ops : list vop) (t : tensor F) : res (tensor F) :=
  foldl (λ acc op, acc ≫= (λ t', apply_vop t' op)) (Ok t) ops.

(** The tensor a reference currently denotes. *)
Definition read (h : gmap loc (tensor F)) (r : tref) : res (tensor F) :=
  match h !! tr_loc r with
  | Some t => apply_vops (tr_ops r) t
  | None => Raise RuntimeError
  end.

(** [self.name] *)
Definition getattr (name : string) (w : world) : res tref :=
  match attrs w !! name with
  | Some r => Ok r
  | None => Raise (AttributeError name)
  end.

Definition getval (name : string) (w : world) : res (tensor F) :=
  r ← getattr name w; read (heap w) r.

(** [self.name = r] *)
Definition setattr (name : string) (r : tref) (w : world) : world :=
  set_attrs <[name := r]> w.

(** A new tensor, in storage of its own. *)
Definition alloc (t : tensor F) (w : world) : tref * world :=
  (TRef (next_loc w) [],
   World (<[next_loc w := t]> (heap w)) (S (next_loc w)) (attrs w) (cfg_ctrl w)
         (actor_dof_props w) (gym_log w)).

(** [self.name = t] for a freshly computed tensor [t]. *)
Definition setnew (name : string) (t : tensor F) (w : world) : world :=
  let '(r, w') := alloc t w in setattr name r w'.

(** A view of [r]: the operation is checked against the tensor [r]
    denotes when the view is made. *)
Definition mk_view (op : vop) (r : tref) (w : world) : res tref :=
  t ← read (heap w) r;
  _ ← apply_vop t op;
  Ok (TRef (tr_loc r) (tr_ops r ++ [op])).

(** [self.dst = gymtorch.wrap_tensor(buffer)] *)
Definition wrap_tensor (dst : string) (l : loc) (w : world) : world :=
  setattr dst (TRef l []) w.

(** [self.dst = self.src[ixs]] *)
Definition index_attr (dst src : string) (ixs : list ix) (w : world) : res world :=
  r ← getattr src w;
  v ← mk_view (VIndex ixs) r w;
  Ok (setattr dst v w).

(** [self.dst = self.src.view(sh)[ixs]] *)
Definition view_index_attr (dst src : string) (sh : list nat) (ixs : list ix)
    (w : world) : res world :=
  r ← getattr src w;
  v ← mk_view (VView sh) r w;
  v' ← mk_view (VIndex ixs) v w;
  Ok (setattr dst v' w).

(** [self.dst = self.src] *)
Definition alias_attr (dst src : string) (w : world) : res world :=
  r ← getattr src w;
  Ok (setattr dst r w).

(** [self.dst = self.src.detach().clone()] *)
Definition clone_attr (dst src : string) (w : world) : res world :=
  t ← getval src w;
  Ok (setnew dst t w).

(** [gym.refresh_*_tensor(sim)]: the buffer is overwritten in place. *)
Definition gym_refresh (l : loc) (t : tensor F) (w : world) : world :=
  set_heap <[l := t]> w.

End Store.
Arguments physics F : clear implicits.
Arguments cval F : clear implicits.
Arguments dofprops F : clear implicits.
Arguments gym_call F : clear implicits.
Arguments world F : clear implicits.

(** ** [factory_control_MARL2] (imported as [fc]) *)

Module FactoryControl.
Section Control.
Context {F : Type} `{Scalar F}.

(** Modelled from the spec: [fc.translate_along_local_z] lives in
    factory_control_MARL2.py, which is not among the sources. The spec
    describes its result as the position "offset along the hand's local
    z-axis by a configured finger length": the given position plus the
    vector (0, 0, offset) rotated by the given orientation. *)
Definition translate_along_local_z (pos quat : tensor F) (offset : F)
    : res (tensor F) :=
  let num_vecs := default 0 (tshape pos !! 0) in
  offset_vec ← Torch.repeat_rows (Torch.of_list [fzero; fzero; offset] fzero) num_vecs;
  r ← TorchUtils.quat_apply quat offset_vec;
  Torch.add pos r.

End Control.
End FactoryControl.

(** ** [FactoryBase_MARL2] *)

Module FactoryBase.
Section Base.
Context {F : Type} `{Scalar F}.

(** [cfg_task.ctrl]. Every mode has a bundle of gains; a mode reads the
    fields of its own bundle only. *)
Record ctrl_all := CtrlAll {
  jacobian_type : string;
  all_gripper_prop_gains : list F;
  all_gripper_deriv_gains : list F
}.

Record gain_bundle := GainBundle {
  ik_method : string;
  joint_prop_gains : list F;
  joint_deriv_gains : list F;
  gripper_prop_gains : list F;
  gripper_deriv_gains : list F;
  task_prop_gains : list F;
  task_deriv_gains : list F;
  motion_ctrl_axes : list F;
  wrench_prop_gains : list F;
  force_ctrl_axes : list F
}.

Record ctrl_config := CtrlConfig {
  ctrl_type : string;
  all : ctrl_all;
  gym_default : gain_bundle;
  joint_space_ik : gain_bundle;
  joint_space_id : gain_bundle;
  task_space_impedance : gain_bundle;
  operational_space_motion : gain_bundle;
  open_loop_force : gain_bundle;
  closed_loop_force : gain_bundle;
  hybrid_force_motion : gain_bundle
}.

(** [cfg_task.rl], the fields the action interface reads. *)
Record rl_config := RlConfig {
  pos_action_scale : list F;
  rot_action_scale : list F;
  force_action_scale : list F;
  torque_action_scale : list F;
  clamp_rot : bool;
  clamp_rot_thresh : F
}.

(** The attributes of the task object that are not tensors and are fixed
    once the environments are created. *)
Record instance := MkInstance {
  num_envs : nat;
  num_actors : nat;
  num_bodies : nat;
  num_dofs : nat;
  num_actions : nat;
  hand_body_id_env : Z;
  hand_body_id_env_2 : Z;
  left_finger_body_id_env : Z;
  left_finger_body_id_env_2 : Z;
  right_finger_body_id_env : Z;
  right_finger_body_id_env_2 : Z;
  fingertip_centered_body_id_env : Z;
  fingertip_centered_body_id_env_2 : Z;
  franka_finger_length : F;          (* asset_info_franka_table.franka_finger_length *)
  env_ptrs : list nat;
  franka_handles : list Z;
  franka_handles_2 : list Z;
  franka_actor_ids_sim : tensor Z;
  franka_actor_ids_sim_2 : tensor Z;
  cfg_task_ctrl : ctrl_config;       (* cfg_task.ctrl *)
  cfg_task_rl : rl_config            (* cfg_task.rl *)
}.

Variable self : instance.

(** [self.dst = (self.a + self.b) * 0.5] *)
Definition average_attr (dst a b : string) (w : world F) : res (world F) :=
  x ← getval a w;
  y ← getval b w;
  s ← Torch.add x y;
  Ok (setnew dst (Torch.mul_scalar s fhalf) w).

(** [self.dst = torch.zeros(sh)] *)
Definition zeros_attr (dst : string) (sh : list nat) (w : world F) : world F :=
  setnew dst (Torch.full sh fzero) w.

Definition acquire_base_tensors (w : world F) : res (world F) :=
  let E := num_envs self in
  let w := wrap_tensor "root_state" L_root_state w in
  let w := wrap_tensor "body_state" L_body_state w in
  let w := wrap_tensor "dof_state" L_dof_state w in
  let w := wrap_tensor "dof_force" L_dof_force w in
  let w := wrap_tensor "contact_force" L_contact_force w in
  let w := wrap_tensor "jacobian" L_jacobian w in
  let w := wrap_tensor "mass_matrix" L_mass_matrix w in
  let w := wrap_tensor "jacobian_2" L_jacobian_2 w in
  let w := wrap_tensor "mass_matrix_2" L_mass_matrix_2 w in
  (* Concat Mass_Matrix *)
  mass_matrix_cpu ← getval "mass_matrix" w;
  mass_matrix_2_cpu ← getval "mass_matrix_2" w;
  mass_matrix ← Torch.concatenate mass_matrix_cpu mass_matrix_2_cpu 1;
  let w := setnew "mass_matrix" mass_matrix w in
  (* Concat Jacobian *)
  jacobian_cpu ← getval "jacobian" w;
  jacobian_2_cpu ← getval "jacobian_2" w;
  concatenated_matrix ← Torch.concatenate jacobian_cpu jacobian_2_cpu 3;
  jacobian ← Torch.concatenate concatenated_matrix concatenated_matrix 1;
  let w := setnew "jacobian" jacobian w in
  let actors := [E; num_actors self; 13] in
  w ← view_index_attr "root_pos" "root_state" actors [IAll; IAll; ISlice 0 3] w;
  w ← view_index_attr "root_quat" "root_state" actors [IAll; IAll; ISlice 3 7] w;
  w ← view_index_attr "root_linvel" "root_state" actors [IAll; IAll; ISlice 7 10] w;
  w ← view_index_attr "root_angvel" "root_state" actors [IAll; IAll; ISlice 10 13] w;
  let bodies := [E; num_bodies self; 13] in
  w ← view_index_attr "body_pos" "body_state" bodies [IAll; IAll; ISlice 0 3] w;
  w ← view_index_attr "body_quat" "body_state" bodies [IAll; IAll; ISlice 3 7] w;
  w ← view_index_attr "body_linvel" "body_state" bodies [IAll; IAll; ISlice 7 10] w;
  w ← view_index_attr "body_angvel" "body_state" bodies [IAll; IAll; ISlice 10 13] w;
  w ← view_index_attr "dof_pos" "dof_state" [E; num_dofs self; 2] [IAll; IAll; IAt 0] w;
  w ← view_index_attr "dof_vel" "dof_state" [E; num_dofs self; 2] [IAll; IAll; IAt 1] w;
  w ← view_index_attr "dof_force_view" "dof_force" [E; num_dofs self; 1]
        [IAll; IAll; IAt 0] w;
  w ← view_index_attr "contact_force" "contact_force" [E; num_bodies self; 3]
        [IAll; IAll; ISlice 0 3] w;
  w ← index_attr "arm_dof_pos" "dof_pos" [IAll; ISlice 0 7] w;
  w ← index_attr "arm_dof_pos_2" "dof_pos" [IAll; ISlice 9 16] w;
  w ← index_attr "arm_mass_matrix" "mass_matrix" [IAll; ISlice 0 7; ISlice 0 7] w;
  w ← index_attr "arm_mass_matrix_2" "mass_matrix" [IAll; ISlice 9 16; ISlice 0 7] w;
  (* Franka_1 *)
  let hand := hand_body_id_env self in
  w ← index_attr "hand_pos" "body_pos" [IAll; IAt hand; ISlice 0 3] w;
  w ← index_attr "hand_quat" "body_quat" [IAll; IAt hand; ISlice 0 4] w;
  w ← index_attr "hand_linvel" "body_linvel" [IAll; IAt hand; ISlice 0 3] w;
  w ← index_attr "hand_angvel" "body_angvel" [IAll; IAt hand; ISlice 0 3] w;
  w ← index_attr "hand_jacobian" "jacobian"
        [IAll; IAt (hand - 1); ISlice 0 6; ISlice 0 7] w;
  (* franka_2 Body States *)
  let hand_2 := hand_body_id_env_2 self in
  w ← index_attr "hand_pos_2" "body_pos" [IAll; IAt hand_2; ISlice 0 3] w;
  w ← index_attr "hand_quat_2" "body_quat" [IAll; IAt hand_2; ISlice 0 4] w;
  w ← index_attr "hand_linvel_2" "body_linvel" [IAll; IAt hand_2; ISlice 0 3] w;
  w ← index_attr "hand_angvel_2" "body_angvel" [IAll; IAt hand_2; ISlice 0 3] w;
  w ← index_attr "hand_jacobian_2" "jacobian"
        [IAll; IAt (hand_2 - 2); ISlice 0 6; ISlice 9 16] w;
  (* Franka_1 *)
  let left := left_finger_body_id_env self in
  w ← index_attr "left_finger_pos" "body_pos" [IAll; IAt left; ISlice 0 3] w;
  w ← index_attr "left_finger_quat" "body_quat" [IAll; IAt left; ISlice 0 4] w;
  w ← index_attr "left_finger_linvel" "body_linvel" [IAll; IAt left; ISlice 0 3] w;
  w ← index_attr "left_finger_angvel" "body_angvel" [IAll; IAt left; ISlice 0 3] w;
  w ← index_attr "left_finger_jacobian" "jacobian"
        [IAll; IAt (left - 1); ISlice 0 6; ISlice 0 7] w;
  (* franka_2 Left Finger *)
  let left_2 := left_finger_body_id_env_2 self in
  w ← index_attr "left_finger_pos_2" "body_pos" [IAll; IAt left_2; ISlice 0 3] w;
  w ← index_attr "left_finger_quat_2" "body_quat" [IAll; IAt left_2; ISlice 0 4] w;
  w ← index_attr "left_finger_linvel_2" "body_linvel" [IAll; IAt left_2; ISlice 0 3] w;
  w ← index_attr "left_finger_angvel_2" "body_angvel" [IAll; IAt left_2; ISlice 0 3] w;
  w ← index_attr "left_finger_jacobian_2" "jacobian"
        [IAll; IAt (left_2 - 2); ISlice 0 6; ISlice 9 16] w;
  (* Franka_1 *)
  let right := right_finger_body_id_env self in
  w ← index_attr "right_finger_pos" "body_pos" [IAll; IAt right; ISlice 0 3] w;
  w ← index_attr "right_finger_quat" "body_quat" [IAll; IAt right; ISlice 0 4] w;
  w ← index_attr "right_finger_linvel" "body_linvel" [IAll; IAt right; ISlice 0 3] w;
  w ← index_attr "right_finger_angvel" "body_angvel" [IAll; IAt right; ISlice 0 3] w;
  w ← index_attr "right_finger_jacobian" "jacobian"
        [IAll; IAt (right - 1); ISlice 0 6; ISlice 0 7] w;
  (* franka_2 Right Finger *)
  let right_2 := right_finger_body_id_env_2 self in
  w ← index_attr "right_finger_pos_2" "body_pos" [IAll; IAt right_2; ISlice 0 3] w;
  w ← index_attr "right_finger_quat_2" "body_quat" [IAll; IAt right_2; ISlice 0 4] w;
  w ← index_attr "right_finger_linvel_2" "body_linvel" [IAll; IAt right_2; ISlice 0 3] w;
  w ← index_attr "right_finger_angvel_2" "body_angvel" [IAll; IAt right_2; ISlice 0 3] w;
  w ← index_attr "right_finger_jacobian_2" "jacobian"
        [IAll; IAt (right_2 - 2); ISlice 0 6; ISlice 9 16] w;
  w ← index_attr "left_finger_force" "contact_force" [IAll; IAt left; ISlice 0 3] w;
  w ← index_attr "left_finger_force_2" "contact_force" [IAll; IAt left_2; ISlice 0 3] w;
  w ← index_attr "right_finger_force" "contact_force" [IAll; IAt right; ISlice 0 3] w;
  w ← index_attr "right_finger_force_2" "contact_force" [IAll; IAt right_2; ISlice 0 3] w;
  w ← index_attr "gripper_dof_pos" "dof_pos" [IAll; ISlice 7 9] w;
  w ← index_attr "gripper_dof_pos_2" "dof_pos" [IAll; ISlice 16 18] w;
  (* Franka_1 *)
  let centered := fingertip_centered_body_id_env self in
  w ← index_attr "fingertip_centered_pos" "body_pos" [IAll; IAt centered; ISlice 0 3] w;
  w ← index_attr "fingertip_centered_quat" "body_quat" [IAll; IAt centered; ISlice 0 4] w;
  w ← index_attr "fingertip_centered_linvel" "body_linvel"
        [IAll; IAt centered; ISlice 0 3] w;
  w ← index_attr "fingertip_centered_angvel" "body_angvel"
        [IAll; IAt centered; ISlice 0 3] w;
  w ← index_attr "fingertip_centered_jacobian" "jacobian"
        [IAll; IAt (centered - 1); ISlice 0 6; ISlice 0 7] w;
  (* Franka_2 *)
  let centered_2 := fingertip_centered_body_id_env_2 self in
  w ← index_attr "fingertip_centered_pos_2" "body_pos" [IAll; IAt centered_2; ISlice 0 3] w;
  w ← index_attr "fingertip_centered_quat_2" "body_quat"
        [IAll; IAt centered_2; ISlice 0 4] w;
  w ← index_attr "fingertip_centered_linvel_2" "body_linvel"
        [IAll; IAt centered_2; ISlice 0 3] w;
  w ← index_attr "fingertip_centered_angvel_2" "body_angvel"
        [IAll; IAt centered_2; ISlice 0 3] w;
  w ← index_attr "fingertip_centered_jacobian_2" "jacobian"
        [IAll; IAt (centered_2 - 2); ISlice 0 6; ISlice 9 16] w;
  (* Franka_1 *)
  w ← clone_attr "fingertip_midpoint_pos" "fingertip_centered_pos" w;
  w ← alias_attr "fingertip_midpoint_quat" "fingertip_centered_quat" w;
  w ← clone_attr "fingertip_midpoint_linvel" "fingertip_centered_linvel" w;
  w ← alias_attr "fingertip_midpoint_angvel" "fingertip_centered_angvel" w;
  w ← average_attr "fingertip_midpoint_jacobian"
        "left_finger_jacobian" "right_finger_jacobian" w;
  (* Franka_2 *)
  w ← clone_attr "fingertip_midpoint_pos_2" "fingertip_centered_pos_2" w;
  w ← alias_attr "fingertip_midpoint_quat_2" "fingertip_centered_quat_2" w;
  w ← clone_attr "fingertip_midpoint_linvel_2" "fingertip_centered_linvel_2" w;
  w ← alias_attr "fingertip_midpoint_angvel_2" "fingertip_centered_angvel_2" w;
  w ← average_attr "fingertip_midpoint_jacobian_2"
        "left_finger_jacobian_2" "right_finger_jacobian_2" w;
  let w := zeros_attr "dof_torque" [E; num_dofs self] w in
  let w := zeros_attr "fingertip_contact_wrench" [E; 6] w in
  let w := zeros_attr "ctrl_target_fingertip_midpoint_pos" [E; 3] w in
  let w := zeros_attr "ctrl_target_fingertip_midpoint_quat" [E; 4] w in
  let w := zeros_attr "ctrl_target_dof_pos" [E; num_dofs self] w in
  let w := zeros_attr "ctrl_target_gripper_dof_pos" [E; 2] w in
  let w := zeros_attr "ctrl_target_fingertip_contact_wrench" [E; 6] w in
  let w := zeros_attr "fingertip_contact_wrench_2" [E; 6] w in
  let w := zeros_attr "ctrl_target_fingertip_midpoint_pos_2" [E; 3] w in
  let w := zeros_attr "ctrl_target_fingertip_midpoint_quat_2" [E; 4] w in
  let w := zeros_attr "ctrl_target_gripper_dof_pos_2" [E; 2] w in
  let w := zeros_attr "ctrl_target_fingertip_contact_wrench_2" [E; 6] w in
  let w := zeros_attr "prev_actions" [E; num_actions self * 2] w in
  Ok w.

(** The midpoint frame of one arm, as [refresh_base_tensors] derives it;
    [sfx] is the empty string for Franka_1 and "_2" for Franka_2. *)
Definition refresh_midpoint (sfx : string) (w : world F) : res (world F) :=
  left_finger_pos ← getval ("left_finger_pos" +:+ sfx) w;
  right_finger_pos ← getval ("right_finger_pos" +:+ sfx) w;
  s ← Torch.add left_finger_pos right_finger_pos;
  let finger_midpoint_pos := Torch.mul_scalar s fhalf in
  let w := setnew ("finger_midpoint_pos" +:+ sfx) finger_midpoint_pos w in
  hand_quat ← getval ("hand_quat" +:+ sfx) w;
  fingertip_midpoint_pos ←
    FactoryControl.translate_along_local_z finger_midpoint_pos hand_quat
      (franka_finger_length self);
  let w := setnew ("fingertip_midpoint_pos" +:+ sfx) fingertip_midpoint_pos w in
  fingertip_centered_linvel ← getval ("fingertip_centered_linvel" +:+ sfx) w;
  fingertip_centered_angvel ← getval ("fingertip_centered_angvel" +:+ sfx) w;
  fingertip_centered_pos ← getval ("fingertip_centered_pos" +:+ sfx) w;
  d ← Torch.sub fingertip_midpoint_pos fingertip_centered_pos;
  c ← Torch.cross fingertip_centered_angvel d 1;
  fingertip_midpoint_linvel ← Torch.add fingertip_centered_linvel c;
  let w := setnew ("fingertip_midpoint_linvel" +:+ sfx) fingertip_midpoint_linvel w in
  average_attr ("fingertip_midpoint_jacobian" +:+ sfx)
    ("left_finger_jacobian" +:+ sfx) ("right_finger_jacobian" +:+ sfx) w.

Definition refresh_base_tensors (ph : physics F) (w : world F) : res (world F) :=
  let w := gym_refresh L_dof_state (ph_dof_state ph) w in
  let w := gym_refresh L_root_state (ph_root_state ph) w in
  let w := gym_refresh L_body_state (ph_body_state ph) w in
  let w := gym_refresh L_dof_force (ph_dof_force ph) w in
  let w := gym_refresh L_contact_force (ph_contact_force ph) w in
  let w := gym_refresh L_jacobian_2 (ph_jacobian_2 ph)
             (gym_refresh L_jacobian (ph_jacobian ph) w) in
  let w := gym_refresh L_mass_matrix_2 (ph_mass_matrix_2 ph)
             (gym_refresh L_mass_matrix (ph_mass_matrix ph) w) in
  (* Franka_1 *)
  w ← refresh_midpoint "" w;
  (* Franka_2 *)
  refresh_midpoint "_2" w.

(** *** [parse_controller_spec] *)

Definition cfg_ctrl_keys : list string :=
  ["num_envs"; "jacobian_type"; "gripper_prop_gains"; "gripper_deriv_gains";
   "motor_ctrl_mode"; "gain_space"; "ik_method"; "joint_prop_gains";
   "joint_deriv_gains"; "do_motion_ctrl"; "task_prop_gains"; "task_deriv_gains";
   "do_inertial_comp"; "motion_ctrl_axes"; "do_force_ctrl"; "force_ctrl_method";
   "wrench_prop_gains"; "force_ctrl_axes"].

(** [torch.tensor(l, device=self.device).repeat((self.num_envs, 1))] *)
Definition gains (l : list F) : cval F :=
  CTensor (Tensor [num_envs self; length l] (λ idx, nth (nth 1 idx 0) l fzero)).

(** The mode-dependent entries of [cfg_ctrl]: the [if]/[elif] chain over
    [ctrl_type], which has no final [else]. *)
Definition mode_entries (c : gmap string (cval F)) : gmap string (cval F) :=
  let ctrl := cfg_task_ctrl self in
  if decide (ctrl_type ctrl = "gym_default") then
    let b := gym_default ctrl in
    <["gripper_deriv_gains" := gains (gripper_deriv_gains b)]>
    (<["gripper_prop_gains" := gains (gripper_prop_gains b)]>
    (<["joint_deriv_gains" := gains (joint_deriv_gains b)]>
    (<["joint_prop_gains" := gains (joint_prop_gains b)]>
    (<["ik_method" := CStr (ik_method b)]>
    (<["gain_space" := CStr "joint"]>
    (<["motor_ctrl_mode" := CStr "gym"]> c))))))
  else if decide (ctrl_type ctrl = "joint_space_ik") then
    let b := joint_space_ik ctrl in
    <["do_inertial_comp" := CBool false]>
    (<["joint_deriv_gains" := gains (joint_deriv_gains b)]>
    (<["joint_prop_gains" := gains (joint_prop_gains b)]>
    (<["ik_method" := CStr (ik_method b)]>
    (<["gain_space" := CStr "joint"]>
    (<["motor_ctrl_mode" := CStr "manual"]> c)))))
  else if decide (ctrl_type ctrl = "joint_space_id") then
    let b := joint_space_id ctrl in
    <["do_inertial_comp" := CBool true]>
    (<["joint_deriv_gains" := gains (joint_deriv_gains b)]>
    (<["joint_prop_gains" := gains (joint_prop_gains b)]>
    (<["ik_method" := CStr (ik_method b)]>
    (<["gain_space" := CStr "joint"]>
    (<["motor_ctrl_mode" := CStr "manual"]> c)))))
  else if decide (ctrl_type ctrl = "task_space_impedance") then
    let b := task_space_impedance ctrl in
    <["do_force_ctrl" := CBool false]>
    (<["motion_ctrl_axes" := gains (motion_ctrl_axes b)]>
    (<["do_inertial_comp" := CBool false]>
    (<["task_deriv_gains" := gains (task_deriv_gains b)]>
    (<["task_prop_gains" := gains (task_prop_gains b)]>
    (<["do_motion_ctrl" := CBool true]>
    (<["gain_space" := CStr "task"]>
    (<["motor_ctrl_mode" := CStr "manual"]> c)))))))
  else if decide (ctrl_type ctrl = "operational_space_motion") then
    let b := operational_space_motion ctrl in
    <["do_force_ctrl" := CBool false]>
    (<["motion_ctrl_axes" := gains (motion_ctrl_axes b)]>
    (<["do_inertial_comp" := CBool true]>
    (<["task_deriv_gains" := gains (task_deriv_gains b)]>
    (<["task_prop_gains" := gains (task_prop_gains b)]>
    (<["do_motion_ctrl" := CBool true]>
    (<["gain_space" := CStr "task"]>
    (<["motor_ctrl_mode" := CStr "manual"]> c)))))))
  else if decide (ctrl_type ctrl = "open_loop_force") then
    let b := open_loop_force ctrl in
    <["force_ctrl_axes" := gains (force_ctrl_axes b)]>
    (<["force_ctrl_method" := CStr "open"]>
    (<["do_force_ctrl" := CBool true]>
    (<["do_motion_ctrl" := CBool false]>
    (<["gain_space" := CStr "task"]>
    (<["motor_ctrl_mode" := CStr "manual"]> c)))))
  else if decide (ctrl_type ctrl = "closed_loop_force") then
    let b := closed_loop_force ctrl in
    <["force_ctrl_axes" := gains (force_ctrl_axes b)]>
    (<["wrench_prop_gains" := gains (wrench_prop_gains b)]>
    (<["force_ctrl_method" := CStr "closed"]>
    (<["do_force_ctrl" := CBool true]>
    (<["do_motion_ctrl" := CBool false]>
    (<["gain_space" := CStr "task"]>
    (<["motor_ctrl_mode" := CStr "manual"]> c))))))
  else if decide (ctrl_type ctrl = "hybrid_force_motion") then
    let b := hybrid_force_motion ctrl in
    <["force_ctrl_axes" := gains (force_ctrl_axes b)]>
    (<["wrench_prop_gains" := gains (wrench_prop_gains b)]>
    (<["force_ctrl_method" := CStr "closed"]>
    (<["do_force_ctrl" := CBool true]>
    (<["motion_ctrl_axes" := gains (motion_ctrl_axes b)]>
    (<["do_inertial_comp" := CBool true]>
    (<["task_deriv_gains" := gains (task_deriv_gains b)]>
    (<["task_prop_gains" := gains (task_prop_gains b)]>
    (<["do_motion_ctrl" := CBool true]>
    (<["gain_space" := CStr "task"]>
    (<["motor_ctrl_mode" := CStr "manual"]> c))))))))))
  else c.

(** [self.cfg_ctrl] as the first half of [parse_controller_spec] builds it. *)
Definition build_cfg_ctrl : gmap string (cval F) :=
  let ctrl := cfg_task_ctrl self in
  let c := foldr (λ k m, <[k := CNone]> m) ∅ cfg_ctrl_keys in
  let c := <["num_envs" := CInt (Z.of_nat (num_envs self))]> c in
  let c := <["jacobian_type" := CStr (jacobian_type (all ctrl))]> c in
  let c := <["gripper_prop_gains" := gains (all_gripper_prop_gains (all ctrl))]> c in
  let c := <["gripper_deriv_gains" := gains (all_gripper_deriv_gains (all ctrl))]> c in
  mode_entries c.

(** [self.cfg_ctrl[key]] *)
Definition cfg_item (key : string) (w : world F) : res (cval F) :=
  match cfg_ctrl w !! key with
  | Some v => Ok v
  | None => Raise KeyError
  end.

Definition cfg_tensor (key : string) (w : world F) : res (tensor F) :=
  v ← cfg_item key w;
  match v with
  | CTensor t => Ok t
  | _ => Raise TypeError
  end.

(** Iterating over a matrix yields its rows. *)
Definition rows (t : tensor F) : list (tensor F) :=
  match tshape t with
  | n :: sh => (λ i, Tensor sh (λ idx, tat t (i :: idx))) <$> seq 0 n
  | [] => []
  end.

(** [gym.get_actor_dof_properties(env_ptr, handle)] *)
Definition get_actor_dof_properties (env : nat) (handle : Z) (w : world F)
    : res (dofprops F) :=
  match actor_dof_props w !! (env, handle) with
  | Some p => Ok p
  | None => Raise RuntimeError
  end.

(** [gym.set_actor_dof_properties(env_ptr, handle, props)] *)
Definition set_actor_dof_properties (env : nat) (handle : Z) (p : dofprops F)
    (w : world F) : world F :=
  set_actor_dof_props <[(env, handle) := p]> w.

(** [props[field] = row]: the row is broadcast to the field's length. *)
Definition assign_field (old : list F) (row : tensor F) : res (list F) :=
  match tshape row with
  | [k] =>
      if decide (k = length old) then Ok ((λ i, tat row [i]) <$> seq 0 k)
      else if decide (k = 1) then Ok (replicate (length old) (tat row [0]))
      else Raise ValueError
  | _ => Raise ValueError
  end.

(** [props[field][:] = x] *)
Definition fill_field {A} (old : list A) (x : A) : list A := replicate (length old) x.

Fixpoint for_each {A} (body : A → world F → res (world F)) (l : list A) (w : world F)
    : res (world F) :=
  match l with
  | [] => Ok w
  | x :: l' => w' ← body x w; for_each body l' w'
  end.

Definition gym_drive_body (x : nat * (Z * (tensor F * tensor F))) (w : world F)
    : res (world F) :=
  let '(env_ptr, (franka_handle, (prop_gain, deriv_gain))) := x in
  franka_dof_props ← get_actor_dof_properties env_ptr franka_handle w;
  let mode := fill_field (driveMode franka_dof_props) DOF_MODE_POS in
  stiff ← assign_field (stiffness franka_dof_props) prop_gain;
  damp ← assign_field (damping franka_dof_props) deriv_gain;
  Ok (set_actor_dof_properties env_ptr franka_handle (DofProps mode stiff damp) w).

Definition effort_props (p : dofprops F) : dofprops F :=
  DofProps (fill_field (driveMode p) DOF_MODE_EFFORT)
           (fill_field (stiffness p) fzero)
           (fill_field (damping p) fzero).

Definition manual_drive_body (x : nat * (Z * Z)) (w : world F) : res (world F) :=
  let '(env_ptr, (franka_handle, franka_handle_2)) := x in
  (* Franka_1 *)
  franka_dof_props ← get_actor_dof_properties env_ptr franka_handle w;
  let franka_dof_props := effort_props franka_dof_props in
  (* Franka_2 *)
  franka_dof_props_2 ← get_actor_dof_properties env_ptr franka_handle_2 w;
  let franka_dof_props_2 := effort_props franka_dof_props_2 in
  let w := set_actor_dof_properties env_ptr franka_handle franka_dof_props w in
  Ok (set_actor_dof_properties env_ptr franka_handle_2 franka_dof_props_2 w).

Definition parse_controller_spec (w : world F) : res (world F) :=
  let w := set_cfg_ctrl build_cfg_ctrl w in
  mode ← cfg_item "motor_ctrl_mode" w;
  match mode with
  | CStr m =>
      if decide (m = "gym") then
        jp ← cfg_tensor "joint_prop_gains" w;
        gp ← cfg_tensor "gripper_prop_gains" w;
        prop_gains ← Torch.concatenate jp gp (length (tshape jp) - 1);
        jd ← cfg_tensor "joint_deriv_gains" w;
        gd ← cfg_tensor "gripper_deriv_gains" w;
        deriv_gains ← Torch.concatenate jd gd (length (tshape jd) - 1);
        for_each gym_drive_body
          (zip (env_ptrs self)
             (zip (franka_handles self) (zip (rows prop_gains) (rows deriv_gains)))) w
      else if decide (m = "manual") then
        for_each manual_drive_body
          (zip (env_ptrs self) (zip (franka_handles self) (franka_handles_2 self))) w
      else Ok w
  | _ => Ok w
  end.

End Base.

Arguments instance F : clear implicits.
Arguments ctrl_config F : clear implicits.
Arguments rl_config F : clear implicits.
Arguments gain_bundle F : clear implicits.
Arguments ctrl_all F : clear implicits.

(** *** [generate_ctrl_signals] and the command dispatch

    The control laws themselves ([fc.compute_dof_torque],
    [fc.compute_dof_torque_2], [fc.compute_dof_pos_target],
    [fc.get_analytic_jacobian]) live in factory_control_MARL2.py, which is
    not among the sources; they are parameters here. Each receives
    [cfg_ctrl] and its tensor arguments in the order of the call. *)

Section Dispatch.
Context {F : Type} `{Scalar F}.
Variable self : instance F.
Variable compute_dof_torque : gmap string (cval F) → list (tensor F) → res (tensor F).
Variable compute_dof_torque_2 : gmap string (cval F) → list (tensor F) → res (tensor F).
Variable compute_dof_pos_target : gmap string (cval F) → list (tensor F) → res (tensor F).
Variable get_analytic_jacobian : tensor F → tensor F → nat → res (tensor F).

(** The values of the attributes [names], read in order. *)
Definition getvals (names : list string) (w : world F) : res (list (tensor F)) :=
  mapM (λ n, getval n w) names.

Definition _set_dof_pos_target (w : world F) : res (world F) :=
  args ← getvals ["arm_dof_pos"; "fingertip_midpoint_pos"; "fingertip_midpoint_quat";
                  "fingertip_midpoint_jacobian_tf";
                  "ctrl_target_fingertip_midpoint_pos";
                  "ctrl_target_fingertip_midpoint_quat";
                  "ctrl_target_gripper_dof_pos"] w;
  t ← compute_dof_pos_target (cfg_ctrl w) args;
  let w := setnew "ctrl_target_dof_pos" t w in
  Ok (log_call (set_dof_position_target_tensor_indexed t (franka_actor_ids_sim self)
                  (default 0 (tshape (franka_actor_ids_sim self) !! 0))) w).

Definition _wrap_tensor (w : world F) : res (world F) :=
  franka_actor_ids_sim_concat ←
    Torch.concatenate (franka_actor_ids_sim self) (franka_actor_ids_sim_2 self) 0;
  dof_torque ← getval "dof_torque" w;
  Ok (log_call (set_dof_actuation_force_tensor_indexed dof_torque
                  franka_actor_ids_sim_concat
                  (default 0 (tshape franka_actor_ids_sim_concat !! 0))) w).

Definition _set_dof_torque (w : world F) : res (world F) :=
  args ← getvals ["dof_pos"; "dof_vel"; "fingertip_midpoint_pos";
                  "fingertip_midpoint_quat"; "fingertip_midpoint_linvel";
                  "fingertip_midpoint_angvel"; "left_finger_force";
                  "right_finger_force"; "fingertip_midpoint_jacobian_tf";
                  "arm_mass_matrix"; "ctrl_target_gripper_dof_pos";
                  "ctrl_target_fingertip_midpoint_pos";
                  "ctrl_target_fingertip_midpoint_quat";
                  "ctrl_target_fingertip_contact_wrench"] w;
  t ← compute_dof_torque (cfg_ctrl w) args;
  Ok (setnew "dof_torque" t w).

Definition _set_dof_torque_2 (w : world F) : res (world F) :=
  args ← getvals ["dof_pos"; "dof_vel"; "fingertip_midpoint_pos_2";
                  "fingertip_midpoint_quat_2"; "fingertip_midpoint_linvel_2";
                  "fingertip_midpoint_angvel_2"; "left_finger_force_2";
                  "right_finger_force_2"; "fingertip_midpoint_jacobian_tf_2";
                  "arm_mass_matrix_2"; "ctrl_target_gripper_dof_pos_2";
                  "ctrl_target_fingertip_midpoint_pos_2";
                  "ctrl_target_fingertip_midpoint_quat_2";
                  "ctrl_target_fingertip_contact_wrench_2"] w;
  t ← compute_dof_torque_2 (cfg_ctrl w) args;
  Ok (setnew "dof_torque_2" t w).

Definition cval_is_str (v : cval F) (s : string) : bool :=
  match v with
  | CStr s' => bool_decide (s' = s)
  | _ => false
  end.

Definition generate_ctrl_signals (w : world F) : res (world F) :=
  jt ← cfg_item "jacobian_type" w;
  (* Get desired Jacobian *)
  w ← (if cval_is_str jt "geometric" then
         w ← alias_attr "fingertip_midpoint_jacobian_tf" "fingertip_midpoint_jacobian" w;
         alias_attr "fingertip_midpoint_jacobian_tf_2" "fingertip_midpoint_jacobian_2" w
       else if cval_is_str jt "analytic" then
         fingertip_quat ← getval "fingertip_quat" w;
         fingertip_jacobian ← getval "fingertip_midpoint_jacobian" w;
         t ← get_analytic_jacobian fingertip_quat fingertip_jacobian (num_envs self);
         Ok (setnew "fingertip_midpoint_jacobian_tf" t w)
       else Ok w);
  (* Set PD joint pos target or joint torque *)
  mode ← cfg_item "motor_ctrl_mode" w;
  if cval_is_str mode "gym" then _set_dof_pos_target w
  else if cval_is_str mode "manual" then
    w ← _set_dof_torque w;
    w ← _set_dof_torque_2 w;
    dof_torque ← getval "dof_torque" w;
    dof_torque_2 ← getval "dof_torque_2" w;
    t ← Torch.concatenate dof_torque dof_torque_2 1;
    let w := setnew "dof_torque" t w in
    _wrap_tensor w
  else Ok w.

End Dispatch.

End FactoryBase.

(** ** [FactoryTaskNutBoltPick_MARL2] *)

Module FactoryTask.
Section Task.
Context {F : Type} `{Scalar F}.
Variable self : FactoryBase.instance F.
Variable compute_dof_torque : gmap string (cval F) → list (tensor F) → res (tensor F).
Variable compute_dof_torque_2 : gmap string (cval F) → list (tensor F) → res (tensor F).
Variable compute_dof_pos_target : gmap string (cval F) → list (tensor F) → res (tensor F).
Variable get_analytic_jacobian : tensor F → tensor F → nat → res (tensor F).

Local Abbreviation rl := (FactoryBase.cfg_task_rl self).

(** [x @ torch.diag(torch.tensor(scale, device=self.device))] when
    [do_scale], and [x] otherwise. *)
Definition scaled (do_scale : bool) (scale : list F) (x : tensor F) : res (tensor F) :=
  if do_scale then
    d ← Torch.diag (Torch.of_list scale fzero);
    Torch.matmul x d
  else Ok x.

(** [torch.tensor([0.0, 0.0, 0.0, 1.0], device=self.device).repeat(self.num_envs, 1)] *)
Definition identity_quats : res (tensor F) :=
  Torch.repeat_rows (Torch.of_list [fzero; fzero; fzero; fone] fzero)
    (FactoryBase.num_envs self).

(** The incremental rotation of one arm: "Convert to quat and set rot
    target", up to the multiplication with the current orientation. *)
Definition rot_actions_quat (rot_actions : tensor F) : res (tensor F) :=
  angle ← Torch.norm_last rot_actions;
  axis ← Torch.div rot_actions (Torch.unsqueeze_last angle);
  q ← TorchUtils.quat_from_angle_axis angle axis;
  if FactoryBase.clamp_rot rl then
    a4 ← Torch.repeat_cols (Torch.unsqueeze_last angle) 4;
    ident ← identity_quats;
    Torch.where_ (Torch.gt_scalar a4 (FactoryBase.clamp_rot_thresh rl)) q ident
  else Ok q.

(** Python truth value of a [cfg_ctrl] entry. *)
Definition truthy (v : cval F) : res bool :=
  match v with
  | CNone => Ok false
  | CBool b => Ok b
  | CInt n => Ok (negb (Z.eqb n 0))
  | CStr s => Ok (negb (String.eqb s ""))
  | CTensor _ => Raise RuntimeError
  end.

(** A Python float kept in an attribute: a tensor without dimensions. *)
Definition float_value (x : F) : tensor F := Tensor [] (λ _, x).

(** [_apply_actions_as_ctrl_targets] up to its last statement: the control
    targets are set as attributes of the task object. *)
Definition ctrl_targets_of_actions (actions : tensor F)
    (ctrl_target_gripper_dof_pos : F) (do_scale : bool) (w : world F)
    : res (world F) :=
  (* Interpret actions as target pos displacements and set pos target *)
  pos_actions ← Torch.getitem actions [IAll; ISlice 0 3];
  pos_actions ← scaled do_scale (FactoryBase.pos_action_scale rl) pos_actions;
  fingertip_midpoint_pos ← getval "fingertip_midpoint_pos" w;
  t ← Torch.add fingertip_midpoint_pos pos_actions;
  let w := setnew "ctrl_target_fingertip_midpoint_pos" t w in
  second_pos_actions ← Torch.getitem actions [IAll; ISlice 12 15];
  second_pos_actions ← scaled do_scale (FactoryBase.pos_action_scale rl) second_pos_actions;
  second_fingertip_midpoint_pos ← getval "second_fingertip_midpoint_pos" w;
  t ← Torch.add second_fingertip_midpoint_pos second_pos_actions;
  let w := setnew "second_ctrl_target_fingertip_midpoint_pos" t w in
  (* Interpret actions as target rot (axis-angle) displacements *)
  rot_actions ← Torch.getitem actions [IAll; ISlice 3 6];
  rot_actions ← scaled do_scale (FactoryBase.rot_action_scale rl) rot_actions;
  second_rot_actions ← Torch.getitem actions [IAll; ISlice 15 18];
  second_rot_actions ← scaled do_scale (FactoryBase.rot_action_scale rl) second_rot_actions;
  (* Convert to quat and set rot target *)
  q ← rot_actions_quat rot_actions;
  fingertip_midpoint_quat ← getval "fingertip_midpoint_quat" w;
  t ← TorchUtils.quat_mul q fingertip_midpoint_quat;
  let w := setnew "ctrl_target_fingertip_midpoint_quat" t w in
  second_q ← rot_actions_quat second_rot_actions;
  second_fingertip_midpoint_quat ← getval "second_fingertip_midpoint_quat" w;
  t ← TorchUtils.quat_mul second_q second_fingertip_midpoint_quat;
  let w := setnew "second_ctrl_target_fingertip_midpoint_quat" t w in
  do_force_ctrl ← FactoryBase.cfg_item "do_force_ctrl" w ≫= truthy;
  w ← (if do_force_ctrl : bool then
         (* Interpret actions as target forces and target torques *)
         force_actions ← Torch.getitem actions [IAll; ISlice 6 9];
         second_force_actions ← Torch.getitem actions [IAll; ISlice 18 21];
         force_actions ← scaled do_scale (FactoryBase.force_action_scale rl) force_actions;
         second_force_actions ←
           scaled do_scale (FactoryBase.force_action_scale rl) second_force_actions;
         torque_actions ← Torch.getitem actions [IAll; ISlice 9 12];
         second_torque_actions ← Torch.getitem actions [IAll; ISlice 21 24];
         torque_actions ← scaled do_scale (FactoryBase.torque_action_scale rl) torque_actions;
         second_torque_actions ←
           scaled do_scale (FactoryBase.torque_action_scale rl) second_torque_actions;
         t ← Torch.concatenate force_actions torque_actions 1;
         let w := setnew "ctrl_target_fingertip_contact_wrench" t w in
         t ← Torch.concatenate second_force_actions second_torque_actions 1;
         Ok (setnew "second_ctrl_target_fingertip_contact_wrench" t w)
       else Ok w);
  let w := setnew "ctrl_target_gripper_dof_pos" (float_value ctrl_target_gripper_dof_pos) w in
  let w := setnew "second_ctrl_target_gripper_dof_pos"
             (float_value ctrl_target_gripper_dof_pos) w in
  Ok w.

Definition _apply_actions_as_ctrl_targets (actions : tensor F)
    (ctrl_target_gripper_dof_pos : F) (do_scale : bool) (w : world F)
    : res (world F) :=
  w ← ctrl_targets_of_actions actions ctrl_target_gripper_dof_pos do_scale w;
  FactoryBase.generate_ctrl_signals self compute_dof_torque compute_dof_torque_2
    compute_dof_pos_target get_analytic_jacobian w.

End Task.
End FactoryTask.

(** ** The two arithmetics *)

(** Real numbers: floating point without rounding, overflow or NaN. *)
Definition Rgtb (x y : R) : bool := if Rlt_dec y x then true else false.

#[global] Instance real_scalar : Scalar R := {|
  fzero := 0%R;
  fone := 1%R;
  ftwo := 2%R;
  fhalf := (1 / 2)%R;
  feps := (1 / 1000000000)%R;
  fadd := Rplus;
  fsub := Rminus;
  fmul := Rmult;
  fdiv := Rdiv;
  fsqrt := sqrt;
  fsin := sin;
  fcos := cos;
  fgtb := Rgtb;
  fclamp_min := Rmax;
  fnorm2 := λ l, sqrt (foldr (λ x acc, x * x + acc)%R 0%R l)
|}.

(** IEEE-754 binary32, the [torch.float32] of the tensors, with the
    operations of [SpecFloat]; sine and cosine are not part of IEEE-754 and
    are left to the implementation, and so is the norm reduction, whose
    result depends on how the kernel accumulates. *)
Module Binary32.
Definition prec : Z := 24.
Definition emax : Z := 128.
Definition of_Z (z : Z) : spec_float := binary_normalize prec emax z 0 false.
Definition zero : spec_float := S754_zero false.
Definition one : spec_float := of_Z 1.
Definition add := SFadd prec emax.
Definition sub := SFsub prec emax.
Definition mul := SFmul prec emax.
Definition div := SFdiv prec emax.
Definition sqrt := SFsqrt prec emax.
Definition gtb (x y : spec_float) : bool := SFltb y x.
(** [clamp(min=m)]: a NaN stays a NaN. *)
Definition clamp_min (x m : spec_float) : spec_float := if SFltb x m then m else x.
Definition is_nan (x : spec_float) : bool :=
  match x with S754_nan => true | _ => false end.

(** One norm reduction: the square root of the squares summed from left to
    right, each operation rounded to binary32. *)
Definition seq_norm (l : list spec_float) : spec_float :=
  sqrt (foldl (λ acc x, add acc (mul x x)) zero l).

Definition scalar (sin cos : spec_float → spec_float)
    (norm : list spec_float → spec_float) : Scalar spec_float := {|
  fzero := zero;
  fone := one;
  ftwo := of_Z 2;
  fhalf := div one (of_Z 2);
  feps := div one (of_Z 1000000000);
  fadd := add;
  fsub := sub;
  fmul := mul;
  fdiv := div;
  fsqrt := sqrt;
  fsin := sin;
  fcos := cos;
  fgtb := gtb;
  fclamp_min := clamp_min;
  fnorm2 := norm
|}.
End Binary32.

(** ** Outcomes of fallible computations, and the shapes of views *)

(** [yields m Q]: [m] returns, with a result that satisfies [Q]. *)
Definition yields {A} (m : res A) (Q : A → Prop) : Prop :=
  match m with Ok a => Q a | Raise _ => False end.

Definition vop_shape (op : vop) (sh : list nat) : res (list nat) :=
  match op with
  | VView sh' =>
      if decide (Torch.numel sh' = Torch.numel sh) then Ok sh' else Raise RuntimeError
  | VIndex ixs => Torch.ix_shape ixs sh
  end.

Definition vops_shape (ops : list vop) (sh : list nat) : res (list nat) :=
  foldl (λ acc op, acc ≫= (λ s, vop_shape op s)) (Ok sh) ops.

(** ** Chains of dictionary updates

    An attribute dictionary built by successive assignments, as a list of
    bindings over a base dictionary; [alist_find] looks a key up in the
    list, most recent assignment first. *)

Fixpoint ins_all {V} (l : list (string * V)) (m : gmap string V) : gmap string V :=
  match l with
  | [] => m
  | kv :: l' => <[kv.1 := kv.2]> (ins_all l' m)
  end.

Fixpoint alist_find {V} (k : string) (l : list (string * V)) : option V :=
  match l with
  | [] => None
  | kv :: l' => if String.eqb kv.1 k then Some kv.2 else alist_find k l'
  end.

(** ** What [acquire_base_tensors] expects and establishes *)

Section Acquired.
Context {F : Type}.

Definition has_shape (h : gmap loc (tensor F)) (l : loc) (sh : list nat) : Prop :=
  ∃ f, h !! l = Some (Tensor sh f).

(** The simulator's buffers have the shapes the tensor API documents, for
    arms of [NL] movable links and [D] DOFs. *)
Record sim_shaped (self : FactoryBase.instance F) (NL D : nat)
    (h : gmap loc (tensor F)) : Prop := {
  sim_root : has_shape h L_root_state
               [FactoryBase.num_envs self * FactoryBase.num_actors self; 13];
  sim_body : has_shape h L_body_state
               [FactoryBase.num_envs self * FactoryBase.num_bodies self; 13];
  sim_dof : has_shape h L_dof_state
              [FactoryBase.num_envs self * FactoryBase.num_dofs self; 2];
  sim_dof_force : has_shape h L_dof_force
                    [FactoryBase.num_envs self * FactoryBase.num_dofs self];
  sim_contact : has_shape h L_contact_force
                  [FactoryBase.num_envs self * FactoryBase.num_bodies self; 3];
  sim_jac : has_shape h L_jacobian [FactoryBase.num_envs self; NL; 6; D];
  sim_mm : has_shape h L_mass_matrix [FactoryBase.num_envs self; D; D];
  sim_jac2 : has_shape h L_jacobian_2 [FactoryBase.num_envs self; NL; 6; D];
  sim_mm2 : has_shape h L_mass_matrix_2 [FactoryBase.num_envs self; D; D]
}.

(** A body id indexes the bodies of an environment, and, shifted by [off],
    the links of the concatenated Jacobian. *)
Definition body_id_ok (NB NL : nat) (id off : Z) : Prop :=
  (0 ≤ id < Z.of_nat NB)%Z ∧ (0 ≤ id - off < Z.of_nat (NL + NL))%Z.

Record ids_ok (self : FactoryBase.instance F) (NL : nat) : Prop := {
  ok_hand : body_id_ok (FactoryBase.num_bodies self) NL
              (FactoryBase.hand_body_id_env self) 1;
  ok_left : body_id_ok (FactoryBase.num_bodies self) NL
              (FactoryBase.left_finger_body_id_env self) 1;
  ok_right : body_id_ok (FactoryBase.num_bodies self) NL
               (FactoryBase.right_finger_body_id_env self) 1;
  ok_centered : body_id_ok (FactoryBase.num_bodies self) NL
                  (FactoryBase.fingertip_centered_body_id_env self) 1;
  ok_hand_2 : body_id_ok (FactoryBase.num_bodies self) NL
                (FactoryBase.hand_body_id_env_2 self) 2;
  ok_left_2 : body_id_ok (FactoryBase.num_bodies self) NL
                (FactoryBase.left_finger_body_id_env_2 self) 2;
  ok_right_2 : body_id_ok (FactoryBase.num_bodies self) NL
                 (FactoryBase.right_finger_body_id_env_2 self) 2;
  ok_centered_2 : body_id_ok (FactoryBase.num_bodies self) NL
                    (FactoryBase.fingertip_centered_body_id_env_2 self) 2
}.

(** The views [acquire_base_tensors] creates. *)
Definition body_ref (self : FactoryBase.instance F) (lo hi : nat) (id : Z) (k : nat)
    : tref :=
  TRef L_body_state
    [VView [FactoryBase.num_envs self; FactoryBase.num_bodies self; 13];
     VIndex [IAll; IAll; ISlice lo hi];
     VIndex [IAll; IAt id; ISlice 0 k]].

Definition jac_ref (l : loc) (link : Z) (c0 c1 : nat) : tref :=
  TRef l [VIndex [IAll; IAt link; ISlice 0 6; ISlice c0 c1]].

Definition mass_ref (l : loc) (r0 r1 : nat) : tref :=
  TRef l [VIndex [IAll; ISlice r0 r1; ISlice 0 7]].

Record arm_views (self : FactoryBase.instance F) (a : gmap string tref) (jl : loc)
    (sfx : string) (hand left right centered off : Z) (c0 c1 : nat) : Prop := {
  av_hand_pos : a !! ("hand_pos" +:+ sfx) = Some (body_ref self 0 3 hand 3);
  av_hand_quat : a !! ("hand_quat" +:+ sfx) = Some (body_ref self 3 7 hand 4);
  av_hand_linvel : a !! ("hand_linvel" +:+ sfx) = Some (body_ref self 7 10 hand 3);
  av_hand_angvel : a !! ("hand_angvel" +:+ sfx) = Some (body_ref self 10 13 hand 3);
  av_hand_jacobian :
    a !! ("hand_jacobian" +:+ sfx) = Some (jac_ref jl (hand - off) c0 c1);
  av_left_pos : a !! ("left_finger_pos" +:+ sfx) = Some (body_ref self 0 3 left 3);
  av_left_jacobian :
    a !! ("left_finger_jacobian" +:+ sfx) = Some (jac_ref jl (left - off) c0 c1);
  av_right_pos : a !! ("right_finger_pos" +:+ sfx) = Some (body_ref self 0 3 right 3);
  av_right_jacobian :
    a !! ("right_finger_jacobian" +:+ sfx) = Some (jac_ref jl (right - off) c0 c1);
  av_centered_pos :
    a !! ("fingertip_centered_pos" +:+ sfx) = Some (body_ref self 0 3 centered 3);
  av_centered_quat :
    a !! ("fingertip_centered_quat" +:+ sfx) = Some (body_ref self 3 7 centered 4);
  av_centered_linvel :
    a !! ("fingertip_centered_linvel" +:+ sfx) = Some (body_ref self 7 10 centered 3);
  av_centered_angvel :
    a !! ("fingertip_centered_angvel" +:+ sfx) = Some (body_ref self 10 13 centered 3);
  av_centered_jacobian :
    a !! ("fingertip_centered_jacobian" +:+ sfx)
      = Some (jac_ref jl (centered - off) c0 c1);
  av_midpoint_quat :
    a !! ("fingertip_midpoint_quat" +:+ sfx) = Some (body_ref self 3 7 centered 4);
  av_midpoint_angvel :
    a !! ("fingertip_midpoint_angvel" +:+ sfx) = Some (body_ref self 10 13 centered 3)
}.

(** [acquired self w0 w1]: [w1] is what [acquire_base_tensors] makes of [w0].
    The concatenated mass matrix and Jacobian are in two new cells, the
    first two allocated. *)
Record acquired (self : FactoryBase.instance F) (w0 w1 : world F) : Prop := {
  acq_arm : arm_views self (attrs w1) (S (next_loc w0)) ""
              (FactoryBase.hand_body_id_env self)
              (FactoryBase.left_finger_body_id_env self)
              (FactoryBase.right_finger_body_id_env self)
              (FactoryBase.fingertip_centered_body_id_env self) 1 0 7;
  acq_arm_2 : arm_views self (attrs w1) (S (next_loc w0)) "_2"
                (FactoryBase.hand_body_id_env_2 self)
                (FactoryBase.left_finger_body_id_env_2 self)
                (FactoryBase.right_finger_body_id_env_2 self)
                (FactoryBase.fingertip_centered_body_id_env_2 self) 2 9 16;
  acq_arm_mass : attrs w1 !! "arm_mass_matrix" = Some (mass_ref (next_loc w0) 0 7);
  acq_arm_mass_2 : attrs w1 !! "arm_mass_matrix_2" = Some (mass_ref (next_loc w0) 9 16);
  acq_sim_cells : ∀ l, l < first_free_loc → heap w1 !! l = heap w0 !! l;
  acq_mass_cell : ∃ m1 m2 m,
    heap w0 !! L_mass_matrix = Some m1 ∧ heap w0 !! L_mass_matrix_2 = Some m2 ∧
    Torch.concatenate m1 m2 1 = Ok m ∧ heap w1 !! next_loc w0 = Some m;
  acq_jac_cell : ∃ j1 j2 c j,
    heap w0 !! L_jacobian = Some j1 ∧ heap w0 !! L_jacobian_2 = Some j2 ∧
    Torch.concatenate j1 j2 3 = Ok c ∧ Torch.concatenate c c 1 = Ok j ∧
    heap w1 !! S (next_loc w0) = Some j;
  acq_next : S (next_loc w0) < next_loc w1;
  acq_cfg_ctrl : cfg_ctrl w1 = cfg_ctrl w0;
  acq_dof_props : actor_dof_props w1 = actor_dof_props w0;
  acq_gym_log : gym_log w1 = gym_log w0
}.

End Acquired.

(** ** Statements about attributes *)

(** The attribute [name] denotes the selection [t[ixs]]. *)
Definition view_of {F} (w : world F) (name : string) (t : tensor F) (ixs : list ix)
    : Prop :=
  ∃ v u, getval name w = Ok v ∧ Torch.getitem t ixs = Ok u ∧ teq v u.

(** The arm block of a per-arm Jacobian, [j[:, link, 0:6, 0:7]], and of a
    per-arm mass matrix, [m[:, 0:7, 0:7]]. *)
Definition arm_jacobian_block (link : Z) : list ix :=
  [IAll; IAt link; ISlice 0 6; ISlice 0 7].

Definition arm_mass_block : list ix := [IAll; ISlice 0 7; ISlice 0 7].

(** ** The derived fingertip-midpoint frame *)

Section MidpointFrame.
Context {F : Type} `{Scalar F}.

(** The rotated offset that [translate_along_local_z] adds to a position:
    it depends on the number of rows, the orientation and the offset only. *)
Definition local_z_offset (num_vecs : nat) (quat : tensor F) (offset : F)
    : res (tensor F) :=
  offset_vec ← Torch.repeat_rows (Torch.of_list [fzero; fzero; offset] fzero) num_vecs;
  TorchUtils.quat_apply quat offset_vec.

(** The attribute [name] holds [v], which is what the view [r] shows of the
    tensor [src]. *)
Definition reads (w : world F) (name : string) (r : tref) (src v : tensor F) : Prop :=
  getval name w = Ok v ∧ apply_vops (tr_ops r) src = Ok v.

(** The frame of one arm after a refresh: the inputs are views of the body
    state [bs] and of the Jacobian copy [j]; the midpoint attributes are
    computed from them by the formulas of [refresh_base_tensors]. *)
Definition midpoint_frame (self : FactoryBase.instance F) (bs j : tensor F) (jl : loc)
    (w : world F) (sfx : string) (hand left right centered off : Z) (c0 c1 : nat)
    : Prop :=
  ∃ l r hq cp cq cl ca lj rj s p d c v sj,
    reads w ("left_finger_pos" +:+ sfx) (body_ref self 0 3 left 3) bs l ∧
    reads w ("right_finger_pos" +:+ sfx) (body_ref self 0 3 right 3) bs r ∧
    reads w ("hand_quat" +:+ sfx) (body_ref self 3 7 hand 4) bs hq ∧
    reads w ("fingertip_centered_pos" +:+ sfx) (body_ref self 0 3 centered 3) bs cp ∧
    reads w ("fingertip_centered_quat" +:+ sfx) (body_ref self 3 7 centered 4) bs cq ∧
    reads w ("fingertip_centered_linvel" +:+ sfx) (body_ref self 7 10 centered 3) bs cl ∧
    reads w ("fingertip_centered_angvel" +:+ sfx) (body_ref self 10 13 centered 3) bs ca ∧
    reads w ("left_finger_jacobian" +:+ sfx) (jac_ref jl (left - off) c0 c1) j lj ∧
    reads w ("right_finger_jacobian" +:+ sfx) (jac_ref jl (right - off) c0 c1) j rj ∧
    (* position *)
    Torch.add l r = Ok s ∧
    FactoryControl.translate_along_local_z (Torch.mul_scalar s fhalf) hq
      (FactoryBase.franka_finger_length self) = Ok p ∧
    getval ("fingertip_midpoint_pos" +:+ sfx) w = Ok p ∧
    (* orientation *)
    getval ("fingertip_midpoint_quat" +:+ sfx) w = Ok cq ∧
    (* linear velocity *)
    Torch.sub p cp = Ok d ∧
    Torch.cross ca d 1 = Ok c ∧
    Torch.add cl c = Ok v ∧
    getval ("fingertip_midpoint_linvel" +:+ sfx) w = Ok v ∧
    (* Jacobian *)
    Torch.add lj rj = Ok sj ∧
    getval ("fingertip_midpoint_jacobian" +:+ sfx) w = Ok (Torch.mul_scalar sj fhalf).

(** [refreshed self ph j m jl w]: the state after [refresh_base_tensors] with
    the physics [ph], where the cells [jl - 1] and [jl] hold the copies [m]
    and [j] made at acquisition. *)
Record refreshed (self : FactoryBase.instance F) (ph : physics F) (j m : tensor F)
    (jl : loc) (w : world F) : Prop := {
  rf_arm : midpoint_frame self (ph_body_state ph) j jl w ""
             (FactoryBase.hand_body_id_env self)
             (FactoryBase.left_finger_body_id_env self)
             (FactoryBase.right_finger_body_id_env self)
             (FactoryBase.fingertip_centered_body_id_env self) 1 0 7;
  rf_arm_2 : midpoint_frame self (ph_body_state ph) j jl w "_2"
               (FactoryBase.hand_body_id_env_2 self)
               (FactoryBase.left_finger_body_id_env_2 self)
               (FactoryBase.right_finger_body_id_env_2 self)
               (FactoryBase.fingertip_centered_body_id_env_2 self) 2 9 16;
  rf_hand_jacobian : ∃ v,
    reads w "hand_jacobian"
      (jac_ref jl (FactoryBase.hand_body_id_env self - 1) 0 7) j v;
  rf_hand_jacobian_2 : ∃ v,
    reads w "hand_jacobian_2"
      (jac_ref jl (FactoryBase.hand_body_id_env_2 self - 2) 9 16) j v;
  rf_arm_mass : ∃ v, reads w "arm_mass_matrix" (mass_ref (pred jl) 0 7) m v;
  rf_arm_mass_2 : ∃ v, reads w "arm_mass_matrix_2" (mass_ref (pred jl) 9 16) m v;
  rf_jacobian_buffers :
    heap w !! L_jacobian = Some (ph_jacobian ph) ∧
    heap w !! L_jacobian_2 = Some (ph_jacobian_2 ph);
  rf_mass_buffers :
    heap w !! L_mass_matrix = Some (ph_mass_matrix ph) ∧
    heap w !! L_mass_matrix_2 = Some (ph_mass_matrix_2 ph)
}.

End MidpointFrame.

(** ** The simulation loop, as far as the tensors of the base class go *)

Section Ticks.
Context {F : Type} `{Scalar F}.

(** What every refresh relies on, and keeps: the views made at acquisition,
    and the two cells [jl - 1] and [jl] with the copies [m] and [j]. *)
Record tracking (self : FactoryBase.instance F) (jl : loc) (j m : tensor F)
    (w : world F) : Prop := {
  tk_arm : arm_views self (attrs w) jl ""
             (FactoryBase.hand_body_id_env self)
             (FactoryBase.left_finger_body_id_env self)
             (FactoryBase.right_finger_body_id_env self)
             (FactoryBase.fingertip_centered_body_id_env self) 1 0 7;
  tk_arm_2 : arm_views self (attrs w) jl "_2"
               (FactoryBase.hand_body_id_env_2 self)
               (FactoryBase.left_finger_body_id_env_2 self)
               (FactoryBase.right_finger_body_id_env_2 self)
               (FactoryBase.fingertip_centered_body_id_env_2 self) 2 9 16;
  tk_arm_mass : attrs w !! "arm_mass_matrix" = Some (mass_ref (pred jl) 0 7);
  tk_arm_mass_2 : attrs w !! "arm_mass_matrix_2" = Some (mass_ref (pred jl) 9 16);
  tk_jac_cell : heap w !! jl = Some j;
  tk_mass_cell : heap w !! pred jl = Some m;
  tk_free : first_free_loc < jl;
  tk_next : jl < next_loc w
}.

(** One [refresh_base_tensors] per simulation tick, each with the physics
    state of its tick. *)
Fixpoint refresh_ticks (self : FactoryBase.instance F) (phs : list (physics F))
    (w : world F) : res (world F) :=
  match phs with
  | [] => Ok w
  | ph :: phs' =>
      w' ← FactoryBase.refresh_base_tensors self ph w;
      refresh_ticks self phs' w'
  end.

(** The body-state buffer of a physics state has its documented shape. *)
Definition body_shaped (self : FactoryBase.instance F) (ph : physics F) : Prop :=
  tshape (ph_body_state ph)
  = [FactoryBase.num_envs self * FactoryBase.num_bodies self; 13].

(** Acquisition, then a refresh at each of the ticks [phs], then one at the
    tick [ph]. *)
Definition acquire_then_refresh (self : FactoryBase.instance F)
    (phs : list (physics F)) (ph : physics F) (w0 : world F) : res (world F) :=
  w1 ← FactoryBase.acquire_base_tensors self w0;
  w2 ← refresh_ticks self phs w1;
  FactoryBase.refresh_base_tensors self ph w2.

End Ticks.

(** ** Acquisition-time copies and what the views show of them *)

Section Copies.
Context {F : Type} `{Scalar F}.

(** [concatenated h j m]: [j] and [m] are the concatenations that
    [acquire_base_tensors] computes from the simulator buffers as they are
    in [h]. *)
Definition concatenated (h : gmap loc (tensor F)) (j m : tensor F) : Prop :=
  ∃ j1 j2 m1 m2 c,
    h !! L_jacobian = Some j1 ∧ h !! L_jacobian_2 = Some j2 ∧
    h !! L_mass_matrix = Some m1 ∧ h !! L_mass_matrix_2 = Some m2 ∧
    Torch.concatenate j1 j2 3 = Ok c ∧ Torch.concatenate c c 1 = Ok j ∧
    Torch.concatenate m1 m2 1 = Ok m.

(** The attribute [name] holds the selection [t[ixs]]. *)
Definition selects (w : world F) (name : string) (t : tensor F) (ixs : list ix) : Prop :=
  ∃ v, getval name w = Ok v ∧ Torch.getitem t ixs = Ok v.

(** The attribute [fingertip_midpoint_jacobian] of an arm is the average of
    what the two finger Jacobian attributes of that arm hold. *)
Definition averages_fingers (w : world F) (sfx : string) : Prop :=
  ∃ lj rj sj,
    getval ("left_finger_jacobian" +:+ sfx) w = Ok lj ∧
    getval ("right_finger_jacobian" +:+ sfx) w = Ok rj ∧
    Torch.add lj rj = Ok sj ∧
    getval ("fingertip_midpoint_jacobian" +:+ sfx) w = Ok (Torch.mul_scalar sj fhalf).

(** The Jacobian and mass-matrix attributes as selections of the tensors
    [j] and [m]. *)
Record jacobian_mass_views (self : FactoryBase.instance F) (w : world F)
    (j m : tensor F) : Prop := {
  jm_hand : selects w "hand_jacobian" j
    [IAll; IAt (FactoryBase.hand_body_id_env self - 1); ISlice 0 6; ISlice 0 7];
  jm_left : selects w "left_finger_jacobian" j
    [IAll; IAt (FactoryBase.left_finger_body_id_env self - 1); ISlice 0 6; ISlice 0 7];
  jm_right : selects w "right_finger_jacobian" j
    [IAll; IAt (FactoryBase.right_finger_body_id_env self - 1); ISlice 0 6; ISlice 0 7];
  jm_midpoint : averages_fingers w "";
  jm_mass : selects w "arm_mass_matrix" m [IAll; ISlice 0 7; ISlice 0 7];
  jm_hand_2 : selects w "hand_jacobian_2" j
    [IAll; IAt (FactoryBase.hand_body_id_env_2 self - 2); ISlice 0 6; ISlice 9 16];
  jm_left_2 : selects w "left_finger_jacobian_2" j
    [IAll; IAt (FactoryBase.left_finger_body_id_env_2 self - 2); ISlice 0 6; ISlice 9 16];
  jm_right_2 : selects w "right_finger_jacobian_2" j
    [IAll; IAt (FactoryBase.right_finger_body_id_env_2 self - 2); ISlice 0 6; ISlice 9 16];
  jm_midpoint_2 : averages_fingers w "_2";
  jm_mass_2 : selects w "arm_mass_matrix_2" m [IAll; ISlice 9 16; ISlice 0 7]
}.

(** The simulator's own Jacobian and mass-matrix buffers hold the state [ph]. *)
Definition buffers_hold (w : world F) (ph : physics F) : Prop :=
  heap w !! L_jacobian = Some (ph_jacobian ph) ∧
  heap w !! L_jacobian_2 = Some (ph_jacobian_2 ph) ∧
  heap w !! L_mass_matrix = Some (ph_mass_matrix ph) ∧
  heap w !! L_mass_matrix_2 = Some (ph_mass_matrix_2 ph).




End Copies.

(** ** Translating the scene *)


Section Translate.
Context {F : Type} `{Scalar F}.




End Translate.


(** ** Rotation of a vector by a quaternion, row by row *)

Section RowFormulas.
Context {F : Type} `{Scalar F}.



End RowFormulas.

Section TranslatedFrames.
Context {F : Type} `{Scalar F}.



End TranslatedFrames.


(** ** A small scene: one environment, two arms of eleven links and nine DOFs

    Used to instantiate the statements below. The body ids are those of the
    two Franka arms in an environment of 27 bodies: hand 8, fingers 9 and
    10, fingertip-centred body 11 for the first arm, and 20 to 23 for the
    second. *)

(** The simulator's buffers, holding the physics state [ph]. *)
Definition sim_heap {F} (ph : physics F) : gmap loc (tensor F) :=
  <[L_root_state := ph_root_state ph]>
  (<[L_body_state := ph_body_state ph]>
  (<[L_dof_state := ph_dof_state ph]>
  (<[L_dof_force := ph_dof_force ph]>
  (<[L_contact_force := ph_contact_force ph]>
  (<[L_jacobian := ph_jacobian ph]>
  (<[L_mass_matrix := ph_mass_matrix ph]>
  (<[L_jacobian_2 := ph_jacobian_2 ph]>
  (<[L_mass_matrix_2 := ph_mass_matrix_2 ph]> ∅)))))))).

Definition ex_bundle (motion force : list R) : FactoryBase.gain_bundle R :=
  FactoryBase.GainBundle "dls"
    (replicate 7 40%R) (replicate 7 8%R) [100%R; 100%R] [2%R; 2%R]
    (replicate 6 40%R) (replicate 6 8%R) motion (replicate 6 1%R) force.

(** A configuration whose hybrid bundle marks the axes 0 and 2 for motion
    control and for force control at once. *)
Definition ex_ctrl (ctrl_type : string) : FactoryBase.ctrl_config R :=
  let b := ex_bundle [1; 1; 1; 1; 1; 1]%R [0; 0; 1; 0; 0; 0]%R in
  FactoryBase.CtrlConfig ctrl_type
    (FactoryBase.CtrlAll "geometric" [500%R; 500%R] [2%R; 2%R])
    b b b b b b b
    (ex_bundle [1; 1; 1; 0; 0; 0]%R [1; 0; 1; 1; 1; 1]%R).

Definition ex_rl (clamp_rot : bool) : FactoryBase.rl_config R :=
  FactoryBase.RlConfig [1; 1; 1]%R [1; 1; 1]%R [1; 1; 1]%R [1; 1; 1]%R clamp_rot 0%R.

Definition ex_self (ctrl_type : string) : FactoryBase.instance R :=
  FactoryBase.MkInstance 1 5 27 18 12
    8 20 9 21 10 22 11 23
    (1 / 10)%R
    [0] [0%Z] [1%Z]
    (Tensor [1] (λ _, 0%Z)) (Tensor [1] (λ _, 1%Z))
    (ex_ctrl ctrl_type) (ex_rl true).

(** A body state in which the fingertip-centred body of the first arm
    (row 11) is rotated (x-component of its quaternion 1) while every other
    entry, the hand's orientation included, is 0. *)
Definition ex_body_state : tensor R :=
  Tensor [27; 13] (λ idx, match idx with [11; 3] => 1%R | _ => 0%R end).

(** A physics state with the body state [bs] and all entries of the
    Jacobians and mass matrices equal to [x]. *)
Definition ex_physics (bs : tensor R) (x : R) : physics R :=
  Physics (Torch.full [5; 13] 0%R) bs (Torch.full [18; 2] 0%R) (Torch.full [18] 0%R)
    (Torch.full [27; 3] 0%R)
    (Torch.full [1; 11; 6; 9] x) (Torch.full [1; 9; 9] x)
    (Torch.full [1; 11; 6; 9] x) (Torch.full [1; 9; 9] x).

Definition ex_dofprops : dofprops R :=
  DofProps (replicate 9 DOF_MODE_NONE) (replicate 9 7%R) (replicate 9 7%R).

(** The world before [acquire_base_tensors]: the simulator holds [ph], the
    task object has no tensor attribute yet, and both arms' actors (handles
    0 and 1 of environment 0) have the drive properties of the asset. *)
Definition ex_world (ph : physics R) : world R :=
  World (sim_heap ph) first_free_loc ∅ ∅
    (<[(0, 0%Z) := ex_dofprops]> (<[(0, 1%Z) := ex_dofprops]> ∅)) [].


(** ** The mode table of the specification (section 4.2)

    Backend, gain space, inertial compensation ("n/a" is [None]) and force
    control of each of the eight modes, as the table lists them. *)

Inductive backend := NativePD | Manual.
Inductive gain_space_kind := JointSpace | TaskSpace.
Inductive force_ctrl_kind := NoForceCtrl | OpenLoopForce | ClosedLoopForce.

Record mode_row := ModeRow {
  row_backend : backend;
  row_gain_space : gain_space_kind;
  row_inertial_comp : option bool;
  row_force_ctrl : force_ctrl_kind
}.

Definition recognized_modes : list string :=
  ["gym_default"; "joint_space_ik"; "joint_space_id"; "task_space_impedance";
   "operational_space_motion"; "open_loop_force"; "closed_loop_force";
   "hybrid_force_motion"].

Definition mode_table (mode : string) : option mode_row :=
  if decide (mode = "gym_default") then
    Some (ModeRow NativePD JointSpace None NoForceCtrl)
  else if decide (mode = "joint_space_ik") then
    Some (ModeRow Manual JointSpace (Some false) NoForceCtrl)
  else if decide (mode = "joint_space_id") then
    Some (ModeRow Manual JointSpace (Some true) NoForceCtrl)
  else if decide (mode = "task_space_impedance") then
    Some (ModeRow Manual TaskSpace (Some false) NoForceCtrl)
  else if decide (mode = "operational_space_motion") then
    Some (ModeRow Manual TaskSpace (Some true) NoForceCtrl)
  else if decide (mode = "open_loop_force") then
    Some (ModeRow Manual TaskSpace None OpenLoopForce)
  else if decide (mode = "closed_loop_force") then
    Some (ModeRow Manual TaskSpace None ClosedLoopForce)
  else if decide (mode = "hybrid_force_motion") then
    Some (ModeRow Manual TaskSpace (Some true) ClosedLoopForce)
  else None.

(** The fields of the configuration that are set whatever the mode. *)
Definition general_keys : list string :=
  ["num_envs"; "jacobian_type"; "gripper_prop_gains"; "gripper_deriv_gains"].

(** The fields that the branch of each mode assigns in
    [parse_controller_spec] (lines 600 to 697 of the source), besides the
    general ones. *)
Definition assigned_fields (mode : string) : list string :=
  general_keys ++
  if decide (mode = "gym_default") then
    ["motor_ctrl_mode"; "gain_space"; "ik_method"; "joint_prop_gains";
     "joint_deriv_gains"]
  else if decide (mode = "joint_space_ik") then
    ["motor_ctrl_mode"; "gain_space"; "ik_method"; "joint_prop_gains";
     "joint_deriv_gains"; "do_inertial_comp"]
  else if decide (mode = "joint_space_id") then
    ["motor_ctrl_mode"; "gain_space"; "ik_method"; "joint_prop_gains";
     "joint_deriv_gains"; "do_inertial_comp"]
  else if decide (mode = "task_space_impedance") then
    ["motor_ctrl_mode"; "gain_space"; "do_motion_ctrl"; "task_prop_gains";
     "task_deriv_gains"; "do_inertial_comp"; "motion_ctrl_axes"; "do_force_ctrl"]
  else if decide (mode = "operational_space_motion") then
    ["motor_ctrl_mode"; "gain_space"; "do_motion_ctrl"; "task_prop_gains";
     "task_deriv_gains"; "do_inertial_comp"; "motion_ctrl_axes"; "do_force_ctrl"]
  else if decide (mode = "open_loop_force") then
    ["motor_ctrl_mode"; "gain_space"; "do_motion_ctrl"; "do_force_ctrl";
     "force_ctrl_method"; "force_ctrl_axes"]
  else if decide (mode = "closed_loop_force") then
    ["motor_ctrl_mode"; "gain_space"; "do_motion_ctrl"; "do_force_ctrl";
     "force_ctrl_method"; "wrench_prop_gains"; "force_ctrl_axes"]
  else if decide (mode = "hybrid_force_motion") then
    ["motor_ctrl_mode"; "gain_space"; "do_motion_ctrl"; "task_prop_gains";
     "task_deriv_gains"; "do_inertial_comp"; "motion_ctrl_axes"; "do_force_ctrl";
     "force_ctrl_method"; "wrench_prop_gains"; "force_ctrl_axes"]
  else [].

Section ModeTable.
Context {F : Type}.

(** The backend and the gain space of a row, as the configuration names
    them. *)
Definition backend_name (b : backend) : string :=
  match b with NativePD => "gym" | Manual => "manual" end.

Definition gain_space_name (g : gain_space_kind) : string :=
  match g with JointSpace => "joint" | TaskSpace => "task" end.

(** The configuration that the table describes for a row, in the words of
    the specification: an entry "n/a" is a field that is unset ([None]), an
    entry "no" is a switch that is off ([False]), so that the two can be
    told apart. *)
Definition as_table_says (c : gmap string (cval F)) (r : mode_row) : Prop :=
  c !! "motor_ctrl_mode" = Some (CStr (backend_name (row_backend r))) ∧
  c !! "gain_space" = Some (CStr (gain_space_name (row_gain_space r))) ∧
  c !! "do_inertial_comp"
    = Some (match row_inertial_comp r with Some b => CBool b | None => CNone end) ∧
  match row_force_ctrl r with
  | NoForceCtrl => c !! "do_force_ctrl" = Some (CBool false)
  | OpenLoopForce =>
      c !! "do_force_ctrl" = Some (CBool true) ∧
      c !! "force_ctrl_method" = Some (CStr "open")
  | ClosedLoopForce =>
      c !! "do_force_ctrl" = Some (CBool true) ∧
      c !! "force_ctrl_method" = Some (CStr "closed")
  end.

(** What the code stores for a row: as the table says, except that for the
    entry "no" of the force-control column the switch [do_force_ctrl] is
    [False] in the task-space modes only and is left [None] in the
    joint-space modes. *)
Definition stores_row (c : gmap string (cval F)) (r : mode_row) : Prop :=
  c !! "motor_ctrl_mode" = Some (CStr (backend_name (row_backend r))) ∧
  c !! "gain_space" = Some (CStr (gain_space_name (row_gain_space r))) ∧
  c !! "do_inertial_comp"
    = Some (match row_inertial_comp r with Some b => CBool b | None => CNone end) ∧
  match row_force_ctrl r with
  | NoForceCtrl =>
      c !! "do_force_ctrl"
        = Some (match row_gain_space r with
                | TaskSpace => CBool false
                | JointSpace => CNone
                end) ∧
      c !! "force_ctrl_method" = Some CNone
  | OpenLoopForce =>
      c !! "do_force_ctrl" = Some (CBool true) ∧
      c !! "force_ctrl_method" = Some (CStr "open")
  | ClosedLoopForce =>
      c !! "do_force_ctrl" = Some (CBool true) ∧
      c !! "force_ctrl_method" = Some (CStr "closed")
  end.

(** The fields that are [None] are exactly those that the branch of the
    mode does not assign. *)
Definition unset_iff_unassigned (c : gmap string (cval F)) (mode : string) : Prop :=
  ∀ key, key ∈ FactoryBase.cfg_ctrl_keys →
    c !! key = Some CNone ↔ key ∉ assigned_fields mode.

End ModeTable.

(** ** What the drive-property loops of [parse_controller_spec] need *)

Section DriveReady.
Context {F : Type} `{Scalar F}.

(** The actors the loop of the native-PD backend visits are known to the
    simulator, each with as many DOFs as there are gains. *)
Definition gym_ready (self : FactoryBase.instance F) (w : world F) : Prop :=
  let b := FactoryBase.gym_default (FactoryBase.cfg_task_ctrl self) in
  ∀ e h, (e, h) ∈ zip (FactoryBase.env_ptrs self) (FactoryBase.franka_handles self) →
    ∃ p, actor_dof_props w !! (e, h) = Some p ∧
         length (stiffness p)
         = length (FactoryBase.joint_prop_gains b) + length (FactoryBase.gripper_prop_gains b) ∧
         length (damping p)
         = length (FactoryBase.joint_deriv_gains b)
           + length (FactoryBase.gripper_deriv_gains b).

(** The actors the loop of the manual backend visits are known. *)
Definition manual_ready (self : FactoryBase.instance F) (w : world F) : Prop :=
  ∀ e h,
    (e, h) ∈ zip (FactoryBase.env_ptrs self) (FactoryBase.franka_handles self)
             ++ zip (FactoryBase.env_ptrs self) (FactoryBase.franka_handles_2 self) →
    is_Some (actor_dof_props w !! (e, h)).

Definition drive_ready (self : FactoryBase.instance F) (w : world F) : Prop :=
  gym_ready self w ∧ manual_ready self w.

(** The drive properties of an actor are those of the manual backend: every
    DOF in effort mode, without passive stiffness or damping. *)
Definition effort_driven (p : dofprops F) : Prop :=
  Forall (λ m, m = DOF_MODE_EFFORT) (driveMode p) ∧
  Forall (λ x, x = fzero) (stiffness p) ∧
  Forall (λ x, x = fzero) (damping p).

End DriveReady.


(** ** Effects of the drive-property loops *)

Section LoopEffects.
Context {F : Type} `{Scalar F}.

(** The state of the simulator's drive properties after the manual loop has
    visited [done]: the visited actors of both arms are effort driven, the
    others are as in [w0]; nothing else has changed. *)
Definition manual_done (w0 : world F) (done : list (nat * (Z * Z))) (w : world F) : Prop :=
  heap w = heap w0 ∧ next_loc w = next_loc w0 ∧ attrs w = attrs w0 ∧
  cfg_ctrl w = cfg_ctrl w0 ∧ gym_log w = gym_log w0 ∧
  (∀ k, is_Some (actor_dof_props w0 !! k) → is_Some (actor_dof_props w !! k)) ∧
  (∀ e h1 h2, (e, (h1, h2)) ∈ done →
     ∃ p1 p2, actor_dof_props w !! (e, h1) = Some p1 ∧ effort_driven p1 ∧
              actor_dof_props w !! (e, h2) = Some p2 ∧ effort_driven p2) ∧
  (∀ k, (∀ e h1 h2, (e, (h1, h2)) ∈ done → k ≠ (e, h1) ∧ k ≠ (e, h2)) →
        actor_dof_props w !! k = actor_dof_props w0 !! k).

End LoopEffects.


(** ** What [generate_ctrl_signals] reads *)

Section DispatchInputs.
Context {F : Type}.

(** Allocation never reuses a cell: every cell in use is below [next_loc]. *)
Definition wf_store (w : world F) : Prop :=
  ∀ l, is_Some (heap w !! l) → l < next_loc w.

(** The attributes that the torque laws of both arms are given, with the
    two geometric Jacobians in place of their [_tf] aliases. *)
Definition dispatch_inputs : list string :=
  ["dof_pos"; "dof_vel";
   "fingertip_midpoint_pos"; "fingertip_midpoint_quat"; "fingertip_midpoint_linvel";
   "fingertip_midpoint_angvel"; "left_finger_force"; "right_finger_force";
   "fingertip_midpoint_jacobian"; "arm_mass_matrix"; "ctrl_target_gripper_dof_pos";
   "ctrl_target_fingertip_midpoint_pos"; "ctrl_target_fingertip_midpoint_quat";
   "ctrl_target_fingertip_contact_wrench";
   "fingertip_midpoint_pos_2"; "fingertip_midpoint_quat_2";
   "fingertip_midpoint_linvel_2"; "fingertip_midpoint_angvel_2";
   "left_finger_force_2"; "right_finger_force_2";
   "fingertip_midpoint_jacobian_2"; "arm_mass_matrix_2";
   "ctrl_target_gripper_dof_pos_2"; "ctrl_target_fingertip_midpoint_pos_2";
   "ctrl_target_fingertip_midpoint_quat_2"; "ctrl_target_fingertip_contact_wrench_2"].

(** The attributes [_set_dof_torque] and [_set_dof_torque_2] read, in the
    order of the calls. *)
Definition torque_args : list string :=
  ["dof_pos"; "dof_vel"; "fingertip_midpoint_pos"; "fingertip_midpoint_quat";
   "fingertip_midpoint_linvel"; "fingertip_midpoint_angvel"; "left_finger_force";
   "right_finger_force"; "fingertip_midpoint_jacobian_tf"; "arm_mass_matrix";
   "ctrl_target_gripper_dof_pos"; "ctrl_target_fingertip_midpoint_pos";
   "ctrl_target_fingertip_midpoint_quat"; "ctrl_target_fingertip_contact_wrench"].

Definition torque_args_2 : list string :=
  ["dof_pos"; "dof_vel"; "fingertip_midpoint_pos_2"; "fingertip_midpoint_quat_2";
   "fingertip_midpoint_linvel_2"; "fingertip_midpoint_angvel_2"; "left_finger_force_2";
   "right_finger_force_2"; "fingertip_midpoint_jacobian_tf_2"; "arm_mass_matrix_2";
   "ctrl_target_gripper_dof_pos_2"; "ctrl_target_fingertip_midpoint_pos_2";
   "ctrl_target_fingertip_midpoint_quat_2"; "ctrl_target_fingertip_contact_wrench_2"].

Definition readable (names : list string) (w : world F) : Prop :=
  ∀ n, n ∈ names → is_Ok (getval n w).

(** [t] is [a] followed by [b] along the last of two dimensions. *)
Definition rows_joined (a b t : tensor F) (E n1 n2 : nat) : Prop :=
  tshape t = [E; n1 + n2] ∧
  (∀ e i, e < E → i < n1 → tat t [e; i] = tat a [e; i]) ∧
  (∀ e j, e < E → j < n2 → tat t [e; n1 + j] = tat b [e; j]).

End DispatchInputs.

(** [ids] is [a] followed by [b]. *)
Definition ids_joined (a b ids : tensor Z) (k1 k2 : nat) : Prop :=
  tshape ids = [k1 + k2] ∧
  (∀ i, i < k1 → tat ids [i] = tat a [i]) ∧
  (∀ j, j < k2 → tat ids [k1 + j] = tat b [j]).

(** A world in which every input of the dispatch is readable: the inputs
    all denote the one cell of the store. *)
Definition ex_dispatch_world : world R :=
  World (<[0 := Torch.full [1; 1] 0%R]> ∅) 1
    (ins_all ((λ n, (n, TRef 0 [])) <$> dispatch_inputs) ∅)
    (<["motor_ctrl_mode" := CStr "manual"]> (<["jacobian_type" := CStr "geometric"]> ∅))
    ∅ [].

(** ** Single precision

    An instance of the arithmetic for closed examples. Its sine and cosine
    are the first-order ones, exact at the argument 0, and its norm
    reduction sums from left to right; the statements below that speak of
    single precision hold for every sine, cosine and norm reduction. *)

Definition sin_near_zero (x : spec_float) : spec_float := x.
Definition cos_near_zero (x : spec_float) : spec_float := Binary32.one.

Definition binary32_scalar : Scalar spec_float :=
  Binary32.scalar sin_near_zero cos_near_zero Binary32.seq_norm.

Definition ex_float_bundle : FactoryBase.gain_bundle spec_float :=
  FactoryBase.GainBundle "dls" [] [] [] [] [] [] [] [] [].

(** Row [e] of a tensor of quaternions is the identity quaternion. *)
Definition identity_row {F} `{Scalar F} (q : tensor F) (e : nat) : Prop :=
  tat q [e; 0] = fzero ∧ tat q [e; 1] = fzero ∧ tat q [e; 2] = fzero ∧
  tat q [e; 3] = fone.

(** ** A posed scene, in either arithmetic

    One environment with the two arms as in the small scene, every body
    with a position, a unit quaternion and velocities. *)

Section PosedScene.
Context {F : Type} `{Scalar F}.

(** The body state of 27 bodies: body [r] is at [pos r] and moves with the
    linear velocity [lin] and the angular velocity [ang]; the two
    fingertip-centred bodies (rows 11 and 23) are turned by half a turn
    about the x-axis, quaternion (1, 0, 0, 0), and every other body has the
    identity orientation (0, 0, 0, 1). *)
Definition posed_body_state (pos : nat → nat → F) (lin ang : nat → F) : tensor F :=
  Tensor [27; 13]
    (λ idx, match idx with
            | [r; k] =>
                if k <? 3 then pos r k
                else if k <? 7 then
                  if bool_decide (r = 11 ∨ r = 23)
                  then (if k =? 3 then fone else fzero)
                  else (if k =? 6 then fone else fzero)
                else if k <? 10 then lin (k - 7)
                else ang (k - 10)
            | _ => fzero
            end).


(** The task object of the scene: hand 8, fingers 9 and 10, fingertip-centred
    body 11 for the first arm, 20 to 23 for the second. *)
Definition posed_self (finger_length : F) (ctrl : FactoryBase.ctrl_config F)
    (rl : FactoryBase.rl_config F) : FactoryBase.instance F :=
  FactoryBase.MkInstance 1 5 27 18 12
    8 20 9 21 10 22 11 23
    finger_length
    [0] [0%Z] [1%Z]
    (Tensor [1] (λ _, 0%Z)) (Tensor [1] (λ _, 1%Z))
    ctrl rl.


End PosedScene.

(** The posed scene over the real numbers: body [r] at (r / 10, 0, 1 / 2),
    moving with the linear velocity (0, 1, 0) and the angular velocity
    (0, 0, 1). *)
Definition ex_posed_body_state : tensor R :=
  posed_body_state
    (λ r k, match k with 0 => (INR r / 10)%R | 1 => 0%R | _ => (1 / 2)%R end)
    (λ k, match k with 1 => 1%R | _ => 0%R end)
    (λ k, match k with 2 => 1%R | _ => 0%R end).

(** The posed scene in single precision. *)

(** The binary32 number nearest to [num / den]. *)
Definition f32 (num den : Z) : spec_float :=
  Binary32.div (Binary32.of_Z num) (Binary32.of_Z den).



(** The task object in single precision, with a finger length of 0.1;
    [clamp_rot] as given, with the threshold 0.0001 and unit action scales. *)
Definition ex32_self (clamp_rot : bool) : FactoryBase.instance spec_float :=
  posed_self (f32 1 10)
    (FactoryBase.CtrlConfig "joint_space_id" (FactoryBase.CtrlAll "geometric" [] [])
       ex_float_bundle ex_float_bundle ex_float_bundle ex_float_bundle
       ex_float_bundle ex_float_bundle ex_float_bundle ex_float_bundle)
    (FactoryBase.RlConfig (replicate 3 Binary32.one) (replicate 3 Binary32.one)
       (replicate 3 Binary32.one) (replicate 3 Binary32.one)
       clamp_rot (f32 1 10000)).


(** ** The targets that [_apply_actions_as_ctrl_targets] sets *)

Section ActionTargets.
Context {F : Type} `{Scalar F}.

(** What [_apply_actions_as_ctrl_targets] needs in order to return: actions
    of 24 columns, one row for each environment; action scales of length
    three when it is to scale; the current fingertip-midpoint positions and
    orientations of both arms, under the names by which the method reads
    them; and the entry [do_force_ctrl] of the configuration. *)
Record action_inputs (self : FactoryBase.instance F) (actions : tensor F)
    (do_scale : bool) (w : world F) (E : nat) : Prop := {
  ai_actions : tshape actions = [E; 24];
  ai_num_envs : FactoryBase.num_envs self = E;
  ai_scales :
    do_scale = true →
    let rl := FactoryBase.cfg_task_rl self in
    length (FactoryBase.pos_action_scale rl) = 3 ∧
    length (FactoryBase.rot_action_scale rl) = 3 ∧
    length (FactoryBase.force_action_scale rl) = 3 ∧
    length (FactoryBase.torque_action_scale rl) = 3;
  ai_pos : ∃ t, getval "fingertip_midpoint_pos" w = Ok t ∧ tshape t = [E; 3];
  ai_pos_2 : ∃ t, getval "second_fingertip_midpoint_pos" w = Ok t ∧ tshape t = [E; 3];
  ai_quat : ∃ t, getval "fingertip_midpoint_quat" w = Ok t ∧ tshape t = [E; 4];
  ai_quat_2 : ∃ t, getval "second_fingertip_midpoint_quat" w = Ok t ∧ tshape t = [E; 4];
  ai_force : ∃ v b, cfg_ctrl w !! "do_force_ctrl" = Some v ∧ FactoryTask.truthy v = Ok b;
  ai_wf : wf_store w
}.

(** The computation of one row, element by element. *)

(** Component [k] of [normalize] of a vector [x] of [n] components. *)
Definition normalize_at (n : nat) (x : nat → F) (k : nat) : F :=
  fdiv (x k) (fclamp_min (fnorm2 (x <$> seq 0 n)) feps).

(** Component [k] of [quat_from_angle_axis] for one angle and one axis. *)
Definition quat_from_angle_axis_at (angle : F) (axis : nat → F) (k : nat) : F :=
  let theta := fdiv angle ftwo in
  normalize_at 4
    (λ i, if i <? 3 then fmul (normalize_at 3 axis i) (fsin theta) else fcos theta) k.

(** Component [k] of the incremental rotation that
    [_apply_actions_as_ctrl_targets] makes of one (scaled) rotation action
    [r]: the angle is the norm of [r], the axis is [r] divided by the angle,
    whatever the angle; the identity quaternion replaces the result only
    under [clamp_rot], where the angle is not above the threshold. *)
Definition rot_actions_quat_at (clamp_rot : bool) (thresh : F) (r : nat → F) (k : nat)
    : F :=
  let angle := fnorm2 (r <$> seq 0 3) in
  let q := quat_from_angle_axis_at angle (λ i, fdiv (r i) angle) k in
  if clamp_rot then
    if fgtb angle thresh then q else nth k [fzero; fzero; fzero; fone] fzero
  else q.

(** Component [k] of [quat_mul] of two quaternions. *)
Definition quat_mul_at (a b : nat → F) (k : nat) : F :=
  let x1 := a 0 in let y1 := a 1 in let z1 := a 2 in let w1 := a 3 in
  let x2 := b 0 in let y2 := b 1 in let z2 := b 2 in let w2 := b 3 in
  let ww := fmul (fadd z1 x1) (fadd x2 y2) in
  let yy := fmul (fsub w1 y1) (fadd w2 z2) in
  let zz := fmul (fadd w1 y1) (fsub w2 z2) in
  let xx := fadd (fadd ww yy) zz in
  let qq := fmul fhalf (fadd xx (fmul (fsub z1 x1) (fsub x2 y2))) in
  match k with
  | 0 => fadd (fsub qq xx) (fmul (fadd x1 w1) (fadd x2 w2))
  | 1 => fadd (fsub qq yy) (fmul (fsub w1 x1) (fadd y2 z2))
  | 2 => fadd (fsub qq zz) (fmul (fadd z1 y1) (fsub w2 x2))
  | _ => fadd (fsub qq ww) (fmul (fsub z1 y1) (fsub y2 z2))
  end.

(** The rotation target of one arm after [_apply_actions_as_ctrl_targets]:
    [ra] is the rotation action of the arm, the columns [lo : lo + 3] of
    the actions, scaled if asked; [q] is the incremental rotation made of
    it; the attribute [tgt_name] holds, after the call, the product [tgt]
    of [q] and the orientation [cur] that [cur_name] held before it. *)
Definition rotation_target (self : FactoryBase.instance F) (actions : tensor F)
    (do_scale : bool) (w w' : world F) (E lo : nat) (cur_name tgt_name : string)
    (ra q cur tgt : tensor F) : Prop :=
  (Torch.getitem actions [IAll; ISlice lo (lo + 3)]
   ≫= FactoryTask.scaled do_scale
         (FactoryBase.rot_action_scale (FactoryBase.cfg_task_rl self))) = Ok ra ∧
  tshape ra = [E; 3] ∧
  FactoryTask.rot_actions_quat self ra = Ok q ∧
  tshape q = [E; 4] ∧
  getval cur_name w = Ok cur ∧
  TorchUtils.quat_mul q cur = Ok tgt ∧
  tshape tgt = [E; 4] ∧
  getval tgt_name w' = Ok tgt.

(** The position target of one arm: the attribute [tgt_name] holds, after
    the call, the sum of the position [cur] that [cur_name] held before it
    and the position action [pa], the columns [lo : lo + 3] of the actions,
    scaled if asked. *)
Definition position_target (self : FactoryBase.instance F) (actions : tensor F)
    (do_scale : bool) (w w' : world F) (E lo : nat) (cur_name tgt_name : string)
    (pa cur tgt : tensor F) : Prop :=
  (Torch.getitem actions [IAll; ISlice lo (lo + 3)]
   ≫= FactoryTask.scaled do_scale
         (FactoryBase.pos_action_scale (FactoryBase.cfg_task_rl self))) = Ok pa ∧
  tshape pa = [E; 3] ∧
  getval cur_name w = Ok cur ∧
  Torch.add cur pa = Ok tgt ∧
  tshape tgt = [E; 3] ∧
  getval tgt_name w' = Ok tgt.

(** The attributes that [_apply_actions_as_ctrl_targets] assigns before it
    calls [generate_ctrl_signals]. *)
Definition target_names : list string :=
  ["ctrl_target_fingertip_midpoint_pos"; "second_ctrl_target_fingertip_midpoint_pos";
   "ctrl_target_fingertip_midpoint_quat"; "second_ctrl_target_fingertip_midpoint_quat";
   "ctrl_target_fingertip_contact_wrench";
   "second_ctrl_target_fingertip_contact_wrench";
   "ctrl_target_gripper_dof_pos"; "second_ctrl_target_gripper_dof_pos"].

End ActionTargets.

(** ** Zero rotation actions in single precision *)

Definition is_zero (x : spec_float) : bool :=
  match x with S754_zero _ => true | _ => false end.

(** What the statements on NaN need of the norm reduction: the norm of a
    vector of zeros is a zero, and the norm of a vector with a NaN among
    its components is a NaN. *)
Definition norm_of_zeros (norm : list spec_float → spec_float) : Prop :=
  ∀ l, Forall (λ x, is_zero x = true) l → is_zero (norm l) = true.

Definition norm_of_nan (norm : list spec_float → spec_float) : Prop :=
  ∀ l, Exists (λ x, Binary32.is_nan x = true) l → Binary32.is_nan (norm l) = true.

(** The outcome for the rotation target of one arm, in single precision
    with the sine [sin], the cosine [cos] and the norm reduction [norm]:
    under [clamp_rot], every row whose angle is not above the threshold has
    the identity quaternion as incremental rotation; without [clamp_rot],
    every row whose rotation action is zero in all three components has NaN
    in all four components of the incremental rotation and of the target
    orientation. *)
Definition clamped_or_nan (sin cos : spec_float → spec_float)
    (norm : list spec_float → spec_float)
    (self : FactoryBase.instance spec_float) (actions : tensor spec_float)
    (do_scale : bool) (w w' : world spec_float) (E lo : nat)
    (cur_name tgt_name : string) : Prop :=
  let rl := FactoryBase.cfg_task_rl self in
  ∃ ra q cur tgt,
    rotation_target (H := Binary32.scalar sin cos norm) self actions do_scale w w' E lo
      cur_name tgt_name ra q cur tgt ∧
    ∀ e, e < E →
      (FactoryBase.clamp_rot rl = true →
       Binary32.gtb (norm [tat ra [e; 0]; tat ra [e; 1]; tat ra [e; 2]])
         (FactoryBase.clamp_rot_thresh rl) = false →
       identity_row (H := Binary32.scalar sin cos norm) q e) ∧
      (FactoryBase.clamp_rot rl = false →
       norm_of_zeros norm → norm_of_nan norm →
       (∀ k, k < 3 → is_zero (tat ra [e; k]) = true) →
       ∀ k, k < 4 →
         Binary32.is_nan (tat q [e; k]) = true ∧
         Binary32.is_nan (tat tgt [e; k]) = true).

(** ** The action interface at a small example in single precision *)

(** One environment: both arms' fingertip midpoints at (0.3, 0, 0.5) with
    the orientation (0.6, 0, 0, 0.8). *)
Definition ex32_pos : tensor spec_float :=
  Tensor [1; 3] (λ idx, match idx with
                        | [_; 0] => f32 3 10
                        | [_; 2] => f32 1 2
                        | _ => Binary32.zero
                        end).

Definition ex32_quat : tensor spec_float :=
  Tensor [1; 4] (λ idx, match idx with
                        | [_; 0] => f32 6 10
                        | [_; 3] => f32 8 10
                        | _ => Binary32.zero
                        end).

Definition ex32_targets_world : world spec_float :=
  setnew "second_fingertip_midpoint_quat" ex32_quat
    (setnew "second_fingertip_midpoint_pos" ex32_pos
       (setnew "fingertip_midpoint_quat" ex32_quat
          (setnew "fingertip_midpoint_pos" ex32_pos
             (World ∅ 0 ∅ (<["do_force_ctrl" := CBool true]> ∅) ∅ [])))).

(** Actions that move both arms by 0.1 along the x-axis and ask for no
    rotation: the columns 0 and 12 hold 0.1, every other column is zero. *)
Definition ex32_actions : tensor spec_float :=
  Tensor [1; 24] (λ idx, match idx with
                         | [_; k] => if bool_decide (k mod 12 = 0) then f32 1 10
                                     else Binary32.zero
                         | _ => Binary32.zero
                         end).

(** ** Assignments of fresh tensors to attributes *)

(** [w'] comes from [w] by assigning fresh tensors to the attributes
    [names] only: every other attribute reads what it read, and the
    configuration, the drive properties and the writes to the simulator are
    the same. *)
Definition keeps_others {F} (names : list string) (w w' : world F) : Prop :=
  wf_store w' ∧ cfg_ctrl w' = cfg_ctrl w ∧ gym_log w' = gym_log w ∧
  actor_dof_props w' = actor_dof_props w ∧
  ∀ n v, n ∉ names → getval n w = Ok v → getval n w' = Ok v.


(** * Proofs *)

(** ** Outcomes *)

Section Outcomes.
Context {A B : Type}.

Lemma yields_bind (m : res A) (k : A → res B) (Q : B → Prop) :
  yields m (λ a, yields (k a) Q) → yields (m ≫= k) Q.
Proof. destruct m; simpl; auto. Qed.

Lemma yields_ok (a : A) (Q : A → Prop) : Q a → yields (Ok a) Q.
Proof. auto. Qed.

Lemma yields_elim (m : res A) (Q : A → Prop) : yields m Q → ∃ a, m = Ok a ∧ Q a.
Proof. destruct m; simpl; [eauto | tauto]. Qed.

Lemma yields_eq (m : res A) (a : A) (Q : A → Prop) : m = Ok a → Q a → yields m Q.
Proof. by intros ->. Qed.

Lemma yields_mono (m : res A) (Q Q' : A → Prop) :
  (∀ a, Q a → Q' a) → yields m Q → yields m Q'.
Proof. destruct m; simpl; auto. Qed.

Lemma yields_and (m : res A) (Q Q' : A → Prop) :
  yields m Q → yields m Q' → yields m (λ a, Q a ∧ Q' a).
Proof. destruct m; simpl; auto. Qed.

End Outcomes.

(** ** Dictionary chains *)

Lemma ins_all_lookup {V} k (l : list (string * V)) m v :
  alist_find k l = Some v → ins_all l m !! k = Some v.
Proof.
  induction l as [|[k' v'] l IH]; simpl; [done|].
  destruct (String.eqb_spec k' k) as [->|Hne].
  - intros [= ->]. apply lookup_insert_eq.
  - intros Hf. rewrite lookup_insert_ne by done. auto.
Qed.

Lemma ins_all_lookup_None {V} k (l : list (string * V)) m :
  alist_find k l = None → ins_all l m !! k = m !! k.
Proof.
  induction l as [|[k' v'] l IH]; simpl; [done|].
  destruct (String.eqb_spec k' k) as [->|Hne]; [done|].
  intros Hf. rewrite lookup_insert_ne by done. auto.
Qed.

Ltac chain_list V m :=
  lazymatch m with
  | <[?k:=?v]> ?m' => let l := chain_list V m' in constr:((k, v) :: l)
  | _ => constr:(@nil (string * V))
  end.

Ltac chain_base m :=
  lazymatch m with
  | <[?k:=?v]> ?m' => chain_base m'
  | _ => m
  end.

(** Solves [m !! k = Some ?v] for a chain of updates [m] that assigns [k]. *)
Ltac lookup_chain :=
  lazymatch goal with
  | |- @lookup _ ?V _ _ ?k ?m = Some ?v =>
      let l := chain_list V m in
      let b := chain_base m in
      change (ins_all l b !! k = Some v);
      apply ins_all_lookup; reflexivity
  end.

(** Rewrites [m !! k] to [base !! k] for a chain [m] that does not assign [k]. *)
Ltac skip_chain :=
  lazymatch goal with
  | |- context [@lookup _ ?V _ _ ?k ?m] =>
      lazymatch m with
      | <[_:=_]> _ =>
          let l := chain_list V m in
          let b := chain_base m in
          change (@lookup _ V _ _ k m) with (ins_all l b !! k);
          rewrite (ins_all_lookup_None k l b) by reflexivity
      end
  end.

(** ** Shapes and elements of tensor operations *)

Section TorchFacts.
Context {F : Type}.

Lemma bshape_rev_same rs : Torch.bshape_rev rs rs = Ok rs.
Proof.
  induction rs as [|d rs IH]; simpl; [done|].
  rewrite decide_True by done. by rewrite IH.
Qed.

Lemma bshape_same sh : Torch.bshape sh sh = Ok sh.
Proof.
  unfold Torch.bshape. rewrite bshape_rev_same. simpl. by rewrite reverse_involutive.
Qed.

Lemma in_range_length idx sh : in_range idx sh → length idx = length sh.
Proof. apply Forall2_length. Qed.

Lemma in_range_2 (i j a b : nat) : i < a → j < b → in_range [i; j] [a; b].
Proof. intros. by repeat constructor. Qed.

Lemma in_range_3 (i j k a b c : nat) :
  i < a → j < b → k < c → in_range [i; j; k] [a; b; c].
Proof. intros. by repeat constructor. Qed.

Lemma in_range_inv_2 idx (a b : nat) :
  in_range idx [a; b] → ∃ i j, idx = [i; j] ∧ i < a ∧ j < b.
Proof.
  intros Hr. inversion Hr as [|i ? idx1 ? Hi Hr1]; subst.
  inversion Hr1 as [|j ? idx2 ? Hj Hr2]; subst. inversion Hr2; subst. eauto.
Qed.

Lemma in_range_inv_3 idx (a b c : nat) :
  in_range idx [a; b; c] → ∃ i j k, idx = [i; j; k] ∧ i < a ∧ j < b ∧ k < c.
Proof.
  intros Hr. inversion Hr as [|i ? idx1 ? Hi Hr1]; subst.
  apply in_range_inv_2 in Hr1 as (j & k & -> & ? & ?). eauto 10.
Qed.

Lemma bsrc_in_range idx sh : in_range idx sh → Torch.bsrc sh idx = idx.
Proof.
  intros Hr. unfold Torch.bsrc. rewrite (in_range_length _ _ Hr), Nat.sub_diag.
  rewrite drop_0.
  induction Hr as [|i d idx sh Hi Hr IH]; [done|].
  cbn [zip_with]. rewrite IH. case_decide; [|done]. f_equal. lia.
Qed.

Lemma norm_index_ok (i : Z) (d : nat) :
  (0 ≤ i < Z.of_nat d)%Z → Torch.norm_index i d = Ok (Z.to_nat i).
Proof. intros Hi. unfold Torch.norm_index. by rewrite bool_decide_eq_true_2. Qed.

Lemma wrap_index_ok (i : Z) (d : nat) : (0 ≤ i)%Z → Torch.wrap_index i d = Z.to_nat i.
Proof. intros Hi. unfold Torch.wrap_index. by rewrite bool_decide_eq_true_2. Qed.

Lemma map2_same {A B C} (f : A → B → C) (a : tensor A) (b : tensor B) :
  tshape a = tshape b →
  Torch.map2 f a b =
    Ok (Tensor (tshape a)
          (λ idx, f (tat a (Torch.bsrc (tshape a) idx))
                    (tat b (Torch.bsrc (tshape b) idx)))).
Proof. intros Hs. unfold Torch.map2. rewrite <- Hs, bshape_same. done. Qed.

(** An elementwise operation on tensors of one shape returns, with that
    shape and the elementwise results. *)
Lemma yields_map2 {A B C} (f : A → B → C) (a : tensor A) (b : tensor B) sh :
  tshape a = sh → tshape b = sh →
  yields (Torch.map2 f a b)
    (λ c, tshape c = sh ∧ ∀ idx, in_range idx sh → tat c idx = f (tat a idx) (tat b idx)).
Proof.
  intros Ha Hb. rewrite map2_same by congruence. simpl. split; [done|].
  intros idx Hr. rewrite Ha, Hb. by rewrite !bsrc_in_range.
Qed.

End TorchFacts.

(** ** Views *)

Section Views.
Context {F : Type}.

Lemma apply_vop_shape (t : tensor F) op sh :
  vop_shape op (tshape t) = Ok sh → ∃ t', apply_vop t op = Ok t' ∧ tshape t' = sh.
Proof.
  destruct op as [sh'|ixs]; simpl.
  - unfold Torch.view. case_decide; [|done]. intros [= <-]. eauto.
  - unfold Torch.getitem. intros ->. simpl. eauto.
Qed.

Lemma apply_vops_snoc ops op (t : tensor F) :
  apply_vops (ops ++ [op]) t = apply_vops ops t ≫= (λ t', apply_vop t' op).
Proof. unfold apply_vops. by rewrite foldl_app. Qed.

Lemma vops_shape_snoc ops op sh :
  vops_shape (ops ++ [op]) sh = vops_shape ops sh ≫= (λ s, vop_shape op s).
Proof. unfold vops_shape. by rewrite foldl_app. Qed.

Lemma apply_vops_shape ops (t : tensor F) sh :
  vops_shape ops (tshape t) = Ok sh → ∃ t', apply_vops ops t = Ok t' ∧ tshape t' = sh.
Proof.
  revert sh. induction ops as [|op ops IH] using rev_ind; intros sh.
  - simpl. intros [= <-]. eauto.
  - rewrite vops_shape_snoc, apply_vops_snoc.
    destruct (vops_shape ops (tshape t)) as [s|] eqn:Hs; simpl; [|done].
    intros Hop. destruct (IH s eq_refl) as (t1 & -> & <-). simpl.
    by apply apply_vop_shape.
Qed.

Lemma mk_view_ok op l ops (w : world F) t sh :
  heap w !! l = Some t →
  vops_shape (ops ++ [op]) (tshape t) = Ok sh →
  mk_view op (TRef l ops) w = Ok (TRef l (ops ++ [op])).
Proof.
  intros Hl Hs. unfold mk_view, read. simpl. rewrite Hl.
  destruct (apply_vops_shape _ _ _ Hs) as (t' & Ht' & _).
  rewrite apply_vops_snoc in Ht'.
  destruct (apply_vops ops t) as [t1|]; simpl in *; [|done].
  by rewrite Ht'.
Qed.

Lemma yields_index_attr dst src ixs (w : world F) l ops t sh Q :
  attrs w !! src = Some (TRef l ops) →
  heap w !! l = Some t →
  vops_shape (ops ++ [VIndex ixs]) (tshape t) = Ok sh →
  Q (setattr dst (TRef l (ops ++ [VIndex ixs])) w) →
  yields (index_attr dst src ixs w) Q.
Proof.
  intros Ha Hl Hs HQ. unfold index_attr, getattr. rewrite Ha. simpl.
  erewrite mk_view_ok by eauto. simpl. done.
Qed.

Lemma yields_view_index_attr dst src sh0 ixs (w : world F) l ops t sh Q :
  attrs w !! src = Some (TRef l ops) →
  heap w !! l = Some t →
  vops_shape ((ops ++ [VView sh0]) ++ [VIndex ixs]) (tshape t) = Ok sh →
  Q (setattr dst (TRef l ((ops ++ [VView sh0]) ++ [VIndex ixs])) w) →
  yields (view_index_attr dst src sh0 ixs w) Q.
Proof.
  intros Ha Hl Hs HQ. unfold view_index_attr, getattr. rewrite Ha. simpl.
  assert (∃ s, vops_shape (ops ++ [VView sh0]) (tshape t) = Ok s) as [s Hs'].
  { rewrite vops_shape_snoc in Hs.
    destruct (vops_shape (ops ++ [VView sh0]) (tshape t)); simpl in *; eauto; done. }
  erewrite mk_view_ok by eauto. simpl.
  erewrite mk_view_ok by eauto. simpl. done.
Qed.

Lemma yields_alias_attr dst src (w : world F) r Q :
  attrs w !! src = Some r →
  Q (setattr dst r w) →
  yields (alias_attr dst src w) Q.
Proof. intros Ha HQ. unfold alias_attr, getattr. by rewrite Ha. Qed.

Lemma yields_getval name (w : world F) l ops t sh Q :
  attrs w !! name = Some (TRef l ops) →
  heap w !! l = Some t →
  vops_shape ops (tshape t) = Ok sh →
  (∀ v, apply_vops ops t = Ok v → tshape v = sh → Q v) →
  yields (getval name w) Q.
Proof.
  intros Ha Hl Hs HQ. unfold getval, getattr, read. rewrite Ha. simpl. rewrite Hl.
  destruct (apply_vops_shape _ _ _ Hs) as (v & Hv & Hsh). rewrite Hv. simpl. eauto.
Qed.

Lemma getval_eq name (w : world F) l ops t v :
  attrs w !! name = Some (TRef l ops) →
  heap w !! l = Some t →
  apply_vops ops t = Ok v →
  getval name w = Ok v.
Proof.
  intros Ha Hl Hv. unfold getval, getattr, read. rewrite Ha. simpl. by rewrite Hl.
Qed.

Lemma yields_clone_attr dst src (w : world F) l ops t sh Q :
  attrs w !! src = Some (TRef l ops) →
  heap w !! l = Some t →
  vops_shape ops (tshape t) = Ok sh →
  (∀ v, apply_vops ops t = Ok v → tshape v = sh → Q (setnew dst v w)) →
  yields (clone_attr dst src w) Q.
Proof.
  intros Ha Hl Hs HQ. unfold clone_attr. apply yields_bind.
  eapply yields_getval; eauto.
Qed.

End Views.

Section Averages.
Context {F : Type} `{Scalar F}.

Lemma yields_average_attr dst a b (w : world F) la opsa ta lb opsb tb sh Q :
  attrs w !! a = Some (TRef la opsa) →
  heap w !! la = Some ta →
  vops_shape opsa (tshape ta) = Ok sh →
  attrs w !! b = Some (TRef lb opsb) →
  heap w !! lb = Some tb →
  vops_shape opsb (tshape tb) = Ok sh →
  (∀ x y s, apply_vops opsa ta = Ok x → apply_vops opsb tb = Ok y →
            tshape x = sh → tshape y = sh → Torch.add x y = Ok s →
            Q (setnew dst (Torch.mul_scalar s fhalf) w)) →
  yields (FactoryBase.average_attr dst a b w) Q.
Proof.
  intros Ha Hla Hsa Hb Hlb Hsb HQ. unfold FactoryBase.average_attr.
  eapply yields_bind, yields_getval; [done..|]. intros x Hx Hxs.
  eapply yields_bind, yields_getval; [done..|]. intros y Hy Hys.
  unfold Torch.add at 1. rewrite map2_same by congruence. simpl.
  eapply HQ; eauto. unfold Torch.add. by rewrite map2_same by congruence.
Qed.

End Averages.

(** ** Symbolic execution of attribute assignments *)

Ltac ev :=
  repeat first
    [ progress simpl
    | rewrite decide_True by (simpl; first [lia | done])
    | rewrite norm_index_ok by lia
    | rewrite bool_decide_eq_true_2 by lia ].

Ltac norm_world :=
  cbv [setattr set_attrs setnew alloc wrap_tensor FactoryBase.zeros_attr gym_refresh
       set_heap attrs heap next_loc cfg_ctrl actor_dof_props gym_log].

Ltac lookup_attr := cbv [attrs]; lookup_chain.

Ltac lookup_heap :=
  cbv [heap];
  repeat (rewrite lookup_insert_ne by lia); first [apply lookup_insert_eq | eassumption].

Ltac shape_eval :=
  try match goal with
      | Hs : tshape ?v = _ |- context [tshape ?v] => rewrite Hs
      end;
  unfold vops_shape, vop_shape; ev; reflexivity.

Ltac step_attr :=
  first
    [ eapply yields_bind; eapply yields_index_attr;
        [lookup_attr | lookup_heap | shape_eval | norm_world]
    | eapply yields_bind; eapply yields_view_index_attr;
        [lookup_attr | lookup_heap | shape_eval | norm_world]
    | eapply yields_bind; eapply yields_alias_attr; [lookup_attr | norm_world]
    | eapply yields_bind; eapply yields_clone_attr;
        [lookup_attr | lookup_heap | shape_eval | intros ? _ ?; norm_world ]
    | eapply yields_bind; eapply yields_average_attr;
        [lookup_attr | lookup_heap | shape_eval | lookup_attr | lookup_heap | shape_eval
        | intros ? ? ? _ _ _ _ _; norm_world ] ].

Ltac unfold_buffers :=
  unfold L_root_state, L_body_state, L_dof_state, L_dof_force, L_contact_force,
    L_jacobian, L_mass_matrix, L_jacobian_2, L_mass_matrix_2, first_free_loc in *.

Section AcquireSpec.
Context {F : Type} `{Scalar F}.

(** [acquire_base_tensors] returns on buffers of the documented shapes, and
    sets up the views and the two concatenated copies. *)
Lemma acquire_spec (self : FactoryBase.instance F) (w0 : world F) NL D :
  sim_shaped self NL D (heap w0) →
  first_free_loc ≤ next_loc w0 →
  ids_ok self NL →
  yields (FactoryBase.acquire_base_tensors self w0) (acquired self w0).
Proof.
  intros [[f1 H1] [f2 H2] [f3 H3] [f4 H4] [f5 H5] [f6 H6] [f7 H7] [f8 H8] [f9 H9]] Hn.
  intros [[??] [??] [??] [??] [??] [??] [??] [??]].
  destruct w0 as [h0 n a0 c d g]. simpl in *.
  unfold FactoryBase.acquire_base_tensors. cbv zeta. norm_world.
  unfold_buffers.
  eapply yields_bind, yields_getval;
    [lookup_attr | lookup_heap | shape_eval | intros ? [= <-] _].
  eapply yields_bind, yields_getval;
    [lookup_attr | lookup_heap | shape_eval | intros ? [= <-] _].
  eapply yields_bind, yields_eq; [unfold Torch.concatenate; ev; reflexivity|]. norm_world.
  eapply yields_bind, yields_getval;
    [lookup_attr | lookup_heap | shape_eval | intros ? [= <-] _].
  eapply yields_bind, yields_getval;
    [lookup_attr | lookup_heap | shape_eval | intros ? [= <-] _].
  eapply yields_bind, yields_eq; [unfold Torch.concatenate; ev; reflexivity|]. norm_world.
  eapply yields_bind, yields_eq; [unfold Torch.concatenate; ev; reflexivity|]. norm_world.
  repeat step_attr.
  apply yields_ok.
  split; [split | split | | | | | | | | | ];
    cbv [heap next_loc attrs cfg_ctrl actor_dof_props gym_log String.append body_ref
         jac_ref mass_ref L_body_state];
    try lookup_chain.
  - intros l Hl. unfold first_free_loc in *. by repeat (rewrite lookup_insert_ne by lia).
  - unfold L_mass_matrix, L_mass_matrix_2. eexists _, _, _.
    split; [exact H7|]. split; [exact H9|].
    split; [unfold Torch.concatenate; ev; reflexivity|]. lookup_heap.
  - unfold L_jacobian, L_jacobian_2. eexists _, _, _, _.
    split; [exact H6|]. split; [exact H8|].
    split; [unfold Torch.concatenate; ev; reflexivity|].
    split; [unfold Torch.concatenate; ev; reflexivity|]. lookup_heap.
  - lia.
  - done.
  - done.
  - done.
Qed.

End AcquireSpec.


(** ** Index arithmetic on the concatenated tensors *)

Section Concatenated.
Context {F : Type}.

(** In the self-concatenation of [j1 | j2] along the links, link [link] with
    columns 0:7 is arm 1's block. *)
Lemma jacobian_cat_arm_1 (j1 j2 : tensor F) (E NL : nat) (link : Z) :
  tshape j1 = [E; NL; 6; 9] → tshape j2 = [E; NL; 6; 9] →
  (0 ≤ link < Z.of_nat NL)%Z →
  ∃ c j v u,
    Torch.concatenate j1 j2 3 = Ok c ∧ Torch.concatenate c c 1 = Ok j ∧
    Torch.getitem j [IAll; IAt link; ISlice 0 6; ISlice 0 7] = Ok v ∧
    Torch.getitem j1 [IAll; IAt link; ISlice 0 6; ISlice 0 7] = Ok u ∧
    teq v u.
Proof.
  destruct j1 as [s1 f1], j2 as [s2 f2]. simpl. intros -> -> Hl.
  unfold Torch.concatenate, Torch.getitem. ev.
  eexists _, _, _, _. do 4 (split; [ev; reflexivity|]).
  split; [done|]. simpl. intros idx (e & r & c & -> & He & Hr & Hc)%in_range_inv_3.
  simpl. rewrite wrap_index_ok by lia.
  unfold Torch.cat_at. simpl.
  replace (Z.to_nat link <? NL) with true by (symmetry; apply Nat.ltb_lt; lia).
  simpl. replace (c <? 9) with true by (symmetry; apply Nat.ltb_lt; lia).
  rewrite wrap_index_ok by lia. done.
Qed.

(** Link [link + NL] with columns 9:16 is arm 2's block, at link [link] and
    columns 0:7 of its own Jacobian. *)
Lemma jacobian_cat_arm_2 (j1 j2 : tensor F) (E NL : nat) (link : Z) :
  tshape j1 = [E; NL; 6; 9] → tshape j2 = [E; NL; 6; 9] →
  (0 ≤ link < Z.of_nat NL)%Z →
  ∃ c j v u,
    Torch.concatenate j1 j2 3 = Ok c ∧ Torch.concatenate c c 1 = Ok j ∧
    Torch.getitem j [IAll; IAt (link + Z.of_nat NL); ISlice 0 6; ISlice 9 16] = Ok v ∧
    Torch.getitem j2 [IAll; IAt link; ISlice 0 6; ISlice 0 7] = Ok u ∧
    teq v u.
Proof.
  destruct j1 as [s1 f1], j2 as [s2 f2]. simpl. intros -> -> Hl.
  unfold Torch.concatenate, Torch.getitem. ev.
  eexists _, _, _, _. do 4 (split; [ev; reflexivity|]).
  split; [done|]. simpl. intros idx (e & r & c & -> & He & Hr & Hc)%in_range_inv_3.
  simpl. rewrite !wrap_index_ok by lia.
  unfold Torch.cat_at. simpl.
  replace (Z.to_nat (link + Z.of_nat NL) <? NL) with false
    by (symmetry; apply Nat.ltb_ge; lia).
  simpl. replace (Z.to_nat (link + Z.of_nat NL) - NL) with (Z.to_nat link) by lia.
  by rewrite Nat.sub_0_r.
Qed.

Lemma mass_cat_arm_1 (m1 m2 : tensor F) (E : nat) :
  tshape m1 = [E; 9; 9] → tshape m2 = [E; 9; 9] →
  ∃ m v u,
    Torch.concatenate m1 m2 1 = Ok m ∧
    Torch.getitem m [IAll; ISlice 0 7; ISlice 0 7] = Ok v ∧
    Torch.getitem m1 [IAll; ISlice 0 7; ISlice 0 7] = Ok u ∧
    teq v u.
Proof.
  destruct m1 as [s1 f1], m2 as [s2 f2]. simpl. intros -> ->.
  unfold Torch.concatenate, Torch.getitem. ev.
  eexists _, _, _. do 3 (split; [ev; reflexivity|]).
  split; [done|]. simpl. intros idx (e & r & c & -> & He & Hr & Hc)%in_range_inv_3.
  simpl. unfold Torch.cat_at. simpl.
  replace (r <? 9) with true by (symmetry; apply Nat.ltb_lt; lia). done.
Qed.

Lemma mass_cat_arm_2 (m1 m2 : tensor F) (E : nat) :
  tshape m1 = [E; 9; 9] → tshape m2 = [E; 9; 9] →
  ∃ m v u,
    Torch.concatenate m1 m2 1 = Ok m ∧
    Torch.getitem m [IAll; ISlice 9 16; ISlice 0 7] = Ok v ∧
    Torch.getitem m2 [IAll; ISlice 0 7; ISlice 0 7] = Ok u ∧
    teq v u.
Proof.
  destruct m1 as [s1 f1], m2 as [s2 f2]. simpl. intros -> ->.
  unfold Torch.concatenate, Torch.getitem. ev.
  eexists _, _, _. do 3 (split; [ev; reflexivity|]).
  split; [done|]. simpl. intros idx (e & r & c & -> & He & Hr & Hc)%in_range_inv_3.
  simpl. unfold Torch.cat_at. simpl.
  repeat (f_equal; try lia).
Qed.

End Concatenated.


Section SecondArm.
Context {F : Type} `{Scalar F}.

Lemma teq_trans (a b c : tensor F) : teq a b → teq b c → teq a c.
Proof.
  intros [Hs1 H1] [Hs2 H2]. split; [congruence|].
  intros idx Hr. rewrite H1 by done. apply H2. by rewrite <- Hs1.
Qed.

Lemma teq_refl (a : tensor F) : teq a a.
Proof. by split. Qed.

(** C10. With 9 DOFs per arm and the second arm's body ids one arm (NL + 1
    bodies) above the first arm's, the arm-2 Jacobian views (link id_2 - 2,
    columns 9:16 of the concatenated tensor) are the blocks of the second
    arm's own Jacobian at the links and arm columns that the arm-1 views
    (link id - 1, columns 0:7) select from the first arm's; and
    [arm_mass_matrix_2] is the arm block of the second arm's own mass
    matrix. *)
Theorem second_arm_views_select_second_arm
    (self : FactoryBase.instance F) (w0 : world F) (NL : nat) (j1 j2 m1 m2 : tensor F) :
  sim_shaped self NL 9 (heap w0) →
  first_free_loc ≤ next_loc w0 →
  ids_ok self NL →
  heap w0 !! L_jacobian = Some j1 → heap w0 !! L_jacobian_2 = Some j2 →
  heap w0 !! L_mass_matrix = Some m1 → heap w0 !! L_mass_matrix_2 = Some m2 →
  FactoryBase.hand_body_id_env_2 self
    = (FactoryBase.hand_body_id_env self + Z.of_nat NL + 1)%Z →
  FactoryBase.left_finger_body_id_env_2 self
    = (FactoryBase.left_finger_body_id_env self + Z.of_nat NL + 1)%Z →
  FactoryBase.right_finger_body_id_env_2 self
    = (FactoryBase.right_finger_body_id_env self + Z.of_nat NL + 1)%Z →
  FactoryBase.fingertip_centered_body_id_env_2 self
    = (FactoryBase.fingertip_centered_body_id_env self + Z.of_nat NL + 1)%Z →
  yields (FactoryBase.acquire_base_tensors self w0) (λ w1,
    let hand := FactoryBase.hand_body_id_env self in
    let left := FactoryBase.left_finger_body_id_env self in
    let right := FactoryBase.right_finger_body_id_env self in
    let centered := FactoryBase.fingertip_centered_body_id_env self in
    (view_of w1 "hand_jacobian" j1 (arm_jacobian_block (hand - 1)) ∧
     view_of w1 "hand_jacobian_2" j2 (arm_jacobian_block (hand - 1))) ∧
    (view_of w1 "left_finger_jacobian" j1 (arm_jacobian_block (left - 1)) ∧
     view_of w1 "left_finger_jacobian_2" j2 (arm_jacobian_block (left - 1))) ∧
    (view_of w1 "right_finger_jacobian" j1 (arm_jacobian_block (right - 1)) ∧
     view_of w1 "right_finger_jacobian_2" j2 (arm_jacobian_block (right - 1))) ∧
    (view_of w1 "fingertip_centered_jacobian" j1 (arm_jacobian_block (centered - 1)) ∧
     view_of w1 "fingertip_centered_jacobian_2" j2 (arm_jacobian_block (centered - 1))) ∧
    view_of w1 "arm_mass_matrix" m1 arm_mass_block ∧
    view_of w1 "arm_mass_matrix_2" m2 arm_mass_block).
Proof.
  intros Hsim Hn Hids Hj1 Hj2 Hm1 Hm2 Eh El Er Ec.
  eapply yields_mono; [|by eapply acquire_spec]. intros w1 Hacq. cbv zeta.
  destruct Hacq as [Ha1 Ha2 Hmass Hmass2 _ Hmc Hjc _ _ _ _].
  destruct Hjc as (j1' & j2' & c & j & Hj1' & Hj2' & Hc & Hj & Hcell).
  destruct Hmc as (m1' & m2' & m & Hm1' & Hm2' & Hm & Hmcell).
  assert (j1' = j1) as -> by congruence. assert (j2' = j2) as -> by congruence.
  assert (m1' = m1) as -> by congruence. assert (m2' = m2) as -> by congruence.
  destruct Hsim as [_ _ _ _ _ [g1 G1] [g3 G3] [g2 G2] [g4 G4]].
  assert (tshape j1 = [FactoryBase.num_envs self; NL; 6; 9]) as Sj1
    by (rewrite Hj1 in G1; by injection G1 as ->).
  assert (tshape j2 = [FactoryBase.num_envs self; NL; 6; 9]) as Sj2
    by (rewrite Hj2 in G2; by injection G2 as ->).
  assert (tshape m1 = [FactoryBase.num_envs self; 9; 9]) as Sm1
    by (rewrite Hm1 in G3; by injection G3 as ->).
  assert (tshape m2 = [FactoryBase.num_envs self; 9; 9]) as Sm2
    by (rewrite Hm2 in G4; by injection G4 as ->).
  destruct Hids as [[? ?] [? ?] [? ?] [? ?] [? ?] [? ?] [? ?] [? ?]].
  assert (∀ name name2 id id2,
    attrs w1 !! name = Some (jac_ref (S (next_loc w0)) (id - 1) 0 7) →
    attrs w1 !! name2 = Some (jac_ref (S (next_loc w0)) (id2 - 2) 9 16) →
    id2 = (id + Z.of_nat NL + 1)%Z →
    (0 ≤ id - 1)%Z → (id2 - 2 < Z.of_nat (NL + NL))%Z →
    view_of w1 name j1 (arm_jacobian_block (id - 1)) ∧
    view_of w1 name2 j2 (arm_jacobian_block (id - 1))) as Hpair.
  { intros name name2 id id2 Hn1 Hn2 -> Hlo Hhi.
    assert (0 ≤ id - 1 < Z.of_nat NL)%Z as Hl by lia.
    split.
    - destruct (jacobian_cat_arm_1 j1 j2 _ _ _ Sj1 Sj2 Hl)
        as (c' & j' & v & u & Hc' & Hj' & Hv & Hu & Hvu).
      assert (c' = c) as -> by congruence. assert (j' = j) as -> by congruence.
      exists v, u. split; [|done].
      eapply getval_eq; [exact Hn1 | exact Hcell | exact Hv].
    - destruct (jacobian_cat_arm_2 j1 j2 _ _ _ Sj1 Sj2 Hl)
        as (c' & j' & v & u & Hc' & Hj' & Hv & Hu & Hvu).
      assert (c' = c) as -> by congruence. assert (j' = j) as -> by congruence.
      exists v, u. split; [|done].
      replace (id + Z.of_nat NL + 1 - 2)%Z with (id - 1 + Z.of_nat NL)%Z in Hn2 by lia.
      eapply getval_eq; [exact Hn2 | exact Hcell | exact Hv]. }
  split; [eapply Hpair; [apply Ha1 | apply Ha2 | done | lia | lia]|].
  split; [eapply Hpair; [apply Ha1 | apply Ha2 | done | lia | lia]|].
  split; [eapply Hpair; [apply Ha1 | apply Ha2 | done | lia | lia]|].
  split; [eapply Hpair; [apply Ha1 | apply Ha2 | done | lia | lia]|].
  split.
  - destruct (mass_cat_arm_1 m1 m2 _ Sm1 Sm2) as (m' & v & u & Hm' & Hv & Hu & Hvu).
    assert (m' = m) as -> by congruence. exists v, u. split; [|done].
    eapply getval_eq; [exact Hmass | exact Hmcell | exact Hv].
  - destruct (mass_cat_arm_2 m1 m2 _ Sm1 Sm2) as (m' & v & u & Hm' & Hv & Hu & Hvu).
    assert (m' = m) as -> by congruence. exists v, u. split; [|done].
    eapply getval_eq; [exact Hmass2 | exact Hmcell | exact Hv].
Qed.

End SecondArm.


(** ** Arithmetic on rows of vectors *)

Section RowArithmetic.
Context {F : Type} `{Scalar F}.

Lemma yields_bind_map2 {A B C D} (f : A → B → C) (a : tensor A) (b : tensor B) sh
    (k : tensor C → res D) (Q : D → Prop) :
  tshape a = sh → tshape b = sh →
  (∀ c, Torch.map2 f a b = Ok c → tshape c = sh →
        (∀ idx, in_range idx sh → tat c idx = f (tat a idx) (tat b idx)) →
        yields (k c) Q) →
  yields (Torch.map2 f a b ≫= k) Q.
Proof.
  intros Ha Hb HQ. apply yields_bind.
  pose proof (yields_map2 f a b sh Ha Hb) as Hy.
  destruct (Torch.map2 f a b) as [c|]; simpl in *; [|done].
  destruct Hy. by apply HQ.
Qed.

Lemma bshape_col_l (E n : nat) : Torch.bshape [E; 1] [E; n] = Ok [E; n].
Proof.
  unfold Torch.bshape. simpl. destruct (decide (1 = n)) as [<-|?]; simpl.
  - by rewrite (decide_True (P := E = E)).
  - by rewrite (decide_True (P := E = E)).
Qed.

Lemma bshape_col_r (E n : nat) : Torch.bshape [E; n] [E; 1] = Ok [E; n].
Proof.
  unfold Torch.bshape. simpl. destruct (decide (n = 1)) as [->|?]; simpl.
  - by rewrite (decide_True (P := E = E)).
  - by rewrite (decide_True (P := E = E)).
Qed.

Lemma bsrc_col (E e k : nat) : e < E → Torch.bsrc [E; 1] [e; k] = [e; 0].
Proof.
  intros He. unfold Torch.bsrc. simpl. case_decide; [|done]. f_equal. lia.
Qed.

Lemma cross_rows (a b : tensor F) (E : nat) :
  tshape a = [E; 3] → tshape b = [E; 3] →
  yields (Torch.cross a b 1) (λ c,
    tshape c = [E; 3] ∧
    ∀ e k, e < E → k < 3 →
      tat c [e; k] =
        fsub (fmul (tat a [e; (k + 1) mod 3]) (tat b [e; (k + 2) mod 3]))
             (fmul (tat a [e; (k + 2) mod 3]) (tat b [e; (k + 1) mod 3]))).
Proof.
  destruct a as [sa fa], b as [sb fb]. simpl. intros -> ->.
  unfold Torch.cross. simpl. rewrite bshape_same. simpl.
  split; [done|].
  intros e k He Hk. unfold Torch.along. simpl.
  assert ((k + 1) mod 3 < 3) by (apply Nat.mod_upper_bound; lia).
  assert ((k + 2) mod 3 < 3) by (apply Nat.mod_upper_bound; lia).
  by rewrite !bsrc_in_range by (by apply in_range_2).
Qed.

Lemma yields_bind_cross {D} (a b : tensor F) (E : nat) (k : tensor F → res D) Q :
  tshape a = [E; 3] → tshape b = [E; 3] →
  (∀ c, Torch.cross a b 1 = Ok c → tshape c = [E; 3] →
        (∀ e i, e < E → i < 3 →
           tat c [e; i] =
             fsub (fmul (tat a [e; (i + 1) mod 3]) (tat b [e; (i + 2) mod 3]))
                  (fmul (tat a [e; (i + 2) mod 3]) (tat b [e; (i + 1) mod 3]))) →
        yields (k c) Q) →
  yields (Torch.cross a b 1 ≫= k) Q.
Proof.
  intros Ha Hb HQ. apply yields_bind.
  pose proof (cross_rows a b E Ha Hb) as Hy.
  destruct (Torch.cross a b 1) as [c|]; simpl in *; [|done].
  destruct Hy. by apply HQ.
Qed.

(** The rotated offset exists for every orientation tensor of [E] rows. *)
Lemma local_z_offset_rows (quat : tensor F) (offset : F) (E : nat) :
  tshape quat = [E; 4] →
  yields (local_z_offset E quat offset) (λ r, tshape r = [E; 3]).
Proof.
  destruct quat as [sq fq]. simpl. intros ->.
  unfold local_z_offset, Torch.repeat_rows, Torch.of_list. simpl.
  unfold TorchUtils.quat_apply, Torch.getitem. simpl.
  eapply yields_bind_cross; [done..|]. intros c Hc Hcs _.
  unfold Torch.mul, Torch.map2, Torch.mul_scalar, Torch.map1.
  cbn [tshape]. rewrite Hcs, bshape_col_l. simpl.
  unfold Torch.add. eapply (yields_bind_map2 _ _ _ [E; 3]); [done..|]. intros s _ Hss _.
  eapply yields_bind_cross; [done..|]. intros c2 Hc2 Hc2s _.
  pose proof (yields_map2 fadd s c2 [E; 3] Hss Hc2s) as Hy.
  eapply yields_mono; [|exact Hy]. by intros r [? _].
Qed.

(** [translate_along_local_z] adds the rotated offset to the position. *)
Lemma translate_along_local_z_add (pos quat : tensor F) (offset : F) (E : nat) d :
  tshape pos = E :: d →
  FactoryControl.translate_along_local_z pos quat offset
  = local_z_offset E quat offset ≫= (λ r, Torch.add pos r).
Proof.
  intros Hp. unfold FactoryControl.translate_along_local_z, local_z_offset.
  rewrite Hp. reflexivity.
Qed.

Lemma yields_bind_translate {D} (pos quat : tensor F) (offset : F) (E : nat)
    (k : tensor F → res D) Q :
  tshape pos = [E; 3] → tshape quat = [E; 4] →
  (∀ p r, FactoryControl.translate_along_local_z pos quat offset = Ok p →
          local_z_offset E quat offset = Ok r → tshape r = [E; 3] →
          tshape p = [E; 3] →
          (∀ idx, in_range idx [E; 3] → tat p idx = fadd (tat pos idx) (tat r idx)) →
          yields (k p) Q) →
  yields (FactoryControl.translate_along_local_z pos quat offset ≫= k) Q.
Proof.
  intros Hp Hq HQ. apply yields_bind.
  rewrite (translate_along_local_z_add _ _ _ E [3]) by done.
  pose proof (HQ' := λ p r, HQ p r).
  rewrite (translate_along_local_z_add _ _ _ E [3]) in HQ' by done.
  pose proof (local_z_offset_rows quat offset E Hq) as Hr.
  destruct (local_z_offset E quat offset) as [r|]; simpl in *; [|done].
  pose proof (yields_map2 fadd pos r [E; 3] Hp Hr) as Hy.
  unfold Torch.add in *.
  destruct (Torch.map2 fadd pos r) as [p|]; simpl in *; [|done].
  destruct Hy. by eapply HQ'.
Qed.

Lemma mul_scalar_shape (a : tensor F) (c : F) : tshape (Torch.mul_scalar a c) = tshape a.
Proof. done. Qed.


End RowArithmetic.


(** ** [refresh_base_tensors] *)

Ltac find_attr :=
  cbv [attrs]; first [lookup_chain | skip_chain; eassumption | eassumption].

Tactic Notation "step_getval" "as" ident(v) ident(Hv) ident(Hs) :=
  eapply yields_bind, yields_getval;
    [find_attr | lookup_heap | shape_eval | intros v Hv Hs].

Ltac solve_reads HV :=
  split; [eapply getval_eq; [find_attr | lookup_heap | exact HV] | exact HV].

Ltac solve_new_attr :=
  eapply getval_eq; [find_attr | lookup_heap | reflexivity].

Section RefreshSpec.
Context {F : Type} `{Scalar F}.

Lemma apply_vops_exists ops (t : tensor F) sh :
  vops_shape ops (tshape t) = Ok sh → ∃ v, apply_vops ops t = Ok v.
Proof. intros Hs. destruct (apply_vops_shape _ _ _ Hs) as (v & Hv & _). eauto. Qed.

Lemma reads_exists (w : world F) name l ops t sh :
  attrs w !! name = Some (TRef l ops) →
  heap w !! l = Some t →
  vops_shape ops (tshape t) = Ok sh →
  ∃ v, reads w name (TRef l ops) t v.
Proof.
  intros Ha Hl Hs. destruct (apply_vops_shape _ _ _ Hs) as (v & Hv & _).
  exists v. split; [by eapply getval_eq|done].
Qed.

Lemma jacobian_cat_shape (j1 j2 c j : tensor F) (E NL D : nat) :
  tshape j1 = [E; NL; 6; D] → tshape j2 = [E; NL; 6; D] →
  Torch.concatenate j1 j2 3 = Ok c → Torch.concatenate c c 1 = Ok j →
  tshape j = [E; NL + NL; 6; D + D].
Proof.
  destruct j1 as [s1 f1], j2 as [s2 f2]. simpl. intros -> ->.
  unfold Torch.concatenate. ev. intros [= <-]. ev. by intros [= <-].
Qed.

Lemma mass_cat_shape (m1 m2 m : tensor F) (E D : nat) :
  tshape m1 = [E; D; D] → tshape m2 = [E; D; D] →
  Torch.concatenate m1 m2 1 = Ok m →
  tshape m = [E; D + D; D].
Proof.
  destruct m1 as [s1 f1], m2 as [s2 f2]. simpl. intros -> ->.
  unfold Torch.concatenate. ev. by intros [= <-].
Qed.

(** The cells of the two copies after acquisition, with their shapes. *)
Lemma acquired_cells (self : FactoryBase.instance F) (w0 w1 : world F) NL D :
  sim_shaped self NL D (heap w0) →
  acquired self w0 w1 →
  ∃ j m,
    heap w1 !! S (next_loc w0) = Some j ∧ heap w1 !! next_loc w0 = Some m ∧
    tshape j = [FactoryBase.num_envs self; NL + NL; 6; D + D] ∧
    tshape m = [FactoryBase.num_envs self; D + D; D].
Proof.
  intros [_ _ _ _ _ [g1 G1] [g3 G3] [g2 G2] [g4 G4]] Hacq.
  destruct (acq_jac_cell _ _ _ Hacq) as (j1 & j2 & c & j & Hj1 & Hj2 & Hc & Hj & Hcell).
  destruct (acq_mass_cell _ _ _ Hacq) as (m1 & m2 & m & Hm1 & Hm2 & Hm & Hmcell).
  exists j, m. split; [done|]. split; [done|].
  rewrite G1 in Hj1. rewrite G2 in Hj2. rewrite G3 in Hm1. rewrite G4 in Hm2.
  injection Hj1 as <-. injection Hj2 as <-. injection Hm1 as <-. injection Hm2 as <-.
  split.
  - by eapply jacobian_cat_shape; [| |exact Hc|exact Hj].
  - by eapply mass_cat_shape; [| |exact Hm].
Qed.

Lemma refresh_spec (self : FactoryBase.instance F) (w1 : world F) (ph : physics F)
    NL D j m jl :
  ids_ok self NL →
  tracking self jl j m w1 →
  tshape j = [FactoryBase.num_envs self; NL + NL; 6; D + D] →
  tshape m = [FactoryBase.num_envs self; D + D; D] →
  body_shaped self ph →
  yields (FactoryBase.refresh_base_tensors self ph w1)
         (λ w2, refreshed self ph j m jl w2 ∧ tracking self jl j m w2).
Proof.
  intros [[??] [??] [??] [??] [??] [??] [??] [??]] Htr Hjs Hms Hbs.
  destruct Htr as [Ha1 Ha2 Hmass Hmass2 Hj Hm Hfree Hnext].
  pose proof Ha1 as Ha1'. pose proof Ha2 as Ha2'.
  destruct Ha1, Ha2.
  destruct ph as [p_root [sbs fbs] p_dof p_dof_force p_contact p_jac p_mm p_jac2 p_mm2].
  destruct w1 as [h1 n1 a1 c1 d1 g1].
  unfold body_shaped in Hbs.
  cbv [String.append] in *. simpl in * |-. subst sbs.
  unfold body_ref, jac_ref, mass_ref in *.
  unfold FactoryBase.refresh_base_tensors. cbv zeta. norm_world. unfold_buffers.
  (* Franka_1 *)
  apply yields_bind. unfold FactoryBase.refresh_midpoint at 1.
  cbv [String.append]. cbv zeta.
  step_getval as l Hl Hls. step_getval as r Hr Hrs.
  unfold Torch.add.
  eapply (yields_bind_map2 _ _ _ [FactoryBase.num_envs self; 3]); [done..|].
  intros s Hs Hss _. norm_world.
  step_getval as hq Hhq Hhqs.
  eapply (yields_bind_translate _ _ _ (FactoryBase.num_envs self)); [done..|].
  intros p ro Hp _ _ Hps _. norm_world.
  step_getval as cl Hcl Hcls. step_getval as ca Hca Hcas. step_getval as cp Hcp Hcps.
  unfold Torch.sub.
  eapply (yields_bind_map2 _ _ _ [FactoryBase.num_envs self; 3]); [done..|].
  intros dd Hdd Hdds _.
  eapply yields_bind_cross; [done..|]. intros cc Hcc Hccs _.
  unfold Torch.add.
  eapply (yields_bind_map2 _ _ _ [FactoryBase.num_envs self; 3]); [done..|].
  intros v Hv Hvs _. norm_world.
  eapply yields_average_attr;
    [find_attr | lookup_heap | shape_eval | find_attr | lookup_heap | shape_eval |].
  intros lj rj sj Hlj Hrj _ _ Hsj. norm_world.
  (* Franka_2 *)
  unfold FactoryBase.refresh_midpoint. cbv [String.append]. cbv zeta.
  step_getval as l2 Hl2 Hls2. step_getval as r2 Hr2 Hrs2.
  unfold Torch.add.
  eapply (yields_bind_map2 _ _ _ [FactoryBase.num_envs self; 3]); [done..|].
  intros s2 Hs2 Hss2 _. norm_world.
  step_getval as hq2 Hhq2 Hhqs2.
  eapply (yields_bind_translate _ _ _ (FactoryBase.num_envs self)); [done..|].
  intros p2 ro2 Hp2 _ _ Hps2 _. norm_world.
  step_getval as cl2 Hcl2 Hcls2. step_getval as ca2 Hca2 Hcas2.
  step_getval as cp2 Hcp2 Hcps2.
  unfold Torch.sub.
  eapply (yields_bind_map2 _ _ _ [FactoryBase.num_envs self; 3]); [done..|].
  intros dd2 Hdd2 Hdds2 _.
  eapply yields_bind_cross; [done..|]. intros cc2 Hcc2 Hccs2 _.
  unfold Torch.add.
  eapply (yields_bind_map2 _ _ _ [FactoryBase.num_envs self; 3]); [done..|].
  intros v2 Hv2 Hvs2 _. norm_world.
  eapply yields_average_attr;
    [find_attr | lookup_heap | shape_eval | find_attr | lookup_heap | shape_eval |].
  intros lj2 rj2 sj2 Hlj2 Hrj2 _ _ Hsj2. norm_world.
  apply yields_ok.
  assert (∃ cq, apply_vops
            [VView [FactoryBase.num_envs self; FactoryBase.num_bodies self; 13];
             VIndex [IAll; IAll; ISlice 3 7];
             VIndex [IAll; IAt (FactoryBase.fingertip_centered_body_id_env self);
                     ISlice 0 4]]
            (Tensor [FactoryBase.num_envs self * FactoryBase.num_bodies self; 13] fbs)
            = Ok cq) as [cq Hcq].
  { eapply apply_vops_exists. shape_eval. }
  assert (∃ cq, apply_vops
            [VView [FactoryBase.num_envs self; FactoryBase.num_bodies self; 13];
             VIndex [IAll; IAll; ISlice 3 7];
             VIndex [IAll; IAt (FactoryBase.fingertip_centered_body_id_env_2 self);
                     ISlice 0 4]]
            (Tensor [FactoryBase.num_envs self * FactoryBase.num_bodies self; 13] fbs)
            = Ok cq) as [cq2 Hcq2].
  { eapply apply_vops_exists. shape_eval. }
  split; [split|];
    cbv [ph_body_state ph_jacobian ph_jacobian_2 ph_mass_matrix ph_mass_matrix_2
         L_jacobian L_jacobian_2 L_mass_matrix L_mass_matrix_2].
  - exists l, r, hq, cp, cq, cl, ca, lj, rj, s, p, dd, cc, v, sj.
    cbv [String.append].
    split; [solve_reads Hl|]. split; [solve_reads Hr|]. split; [solve_reads Hhq|].
    split; [solve_reads Hcp|]. split; [solve_reads Hcq|]. split; [solve_reads Hcl|].
    split; [solve_reads Hca|]. split; [solve_reads Hlj|]. split; [solve_reads Hrj|].
    split; [exact Hs|]. split; [exact Hp|]. split; [solve_new_attr|].
    split; [eapply getval_eq; [find_attr | lookup_heap | exact Hcq]|].
    split; [exact Hdd|]. split; [exact Hcc|]. split; [exact Hv|].
    split; [solve_new_attr|]. split; [exact Hsj|]. solve_new_attr.
  - exists l2, r2, hq2, cp2, cq2, cl2, ca2, lj2, rj2, s2, p2, dd2, cc2, v2, sj2.
    cbv [String.append].
    split; [solve_reads Hl2|]. split; [solve_reads Hr2|]. split; [solve_reads Hhq2|].
    split; [solve_reads Hcp2|]. split; [solve_reads Hcq2|]. split; [solve_reads Hcl2|].
    split; [solve_reads Hca2|]. split; [solve_reads Hlj2|]. split; [solve_reads Hrj2|].
    split; [exact Hs2|]. split; [exact Hp2|]. split; [solve_new_attr|].
    split; [eapply getval_eq; [find_attr | lookup_heap | exact Hcq2]|].
    split; [exact Hdd2|]. split; [exact Hcc2|]. split; [exact Hv2|].
    split; [solve_new_attr|]. split; [exact Hsj2|]. solve_new_attr.
  - eapply reads_exists; [find_attr | lookup_heap | shape_eval].
  - eapply reads_exists; [find_attr | lookup_heap | shape_eval].
  - eapply reads_exists; [find_attr | lookup_heap | shape_eval].
  - eapply reads_exists; [find_attr | lookup_heap | shape_eval].
  - split; lookup_heap.
  - split; lookup_heap.
  - split; [split | split | | | | | | ];
      cbv [heap next_loc attrs String.append body_ref jac_ref mass_ref L_body_state];
      try (skip_chain; eassumption).
    + lookup_heap.
    + lookup_heap.
    + unfold first_free_loc. lia.
    + lia.
Qed.

End RefreshSpec.


(** ** Acquisition followed by refreshes *)

Section TickSpec.
Context {F : Type} `{Scalar F}.

Lemma acquired_tracking (self : FactoryBase.instance F) (w0 w1 : world F) NL D :
  sim_shaped self NL D (heap w0) →
  first_free_loc ≤ next_loc w0 →
  acquired self w0 w1 →
  ∃ j m, concatenated (heap w0) j m ∧
         tshape j = [FactoryBase.num_envs self; NL + NL; 6; D + D] ∧
         tshape m = [FactoryBase.num_envs self; D + D; D] ∧
         tracking self (S (next_loc w0)) j m w1.
Proof.
  intros [_ _ _ _ _ [g1 G1] [g3 G3] [g2 G2] [g4 G4]] Hn Hacq.
  destruct Hacq as [Ha1 Ha2 Hmass Hmass2 _ Hmc Hjc Hnext _ _ _].
  destruct Hjc as (j1 & j2 & c & j & Hj1 & Hj2 & Hc & Hj & Hcell).
  destruct Hmc as (m1 & m2 & m & Hm1 & Hm2 & Hm & Hmcell).
  exists j, m. split; [by exists j1, j2, m1, m2, c|].
  rewrite G1 in Hj1. rewrite G2 in Hj2. rewrite G3 in Hm1. rewrite G4 in Hm2.
  injection Hj1 as <-. injection Hj2 as <-. injection Hm1 as <-. injection Hm2 as <-.
  split; [by eapply jacobian_cat_shape; [| |exact Hc|exact Hj]|].
  split; [by eapply mass_cat_shape; [| |exact Hm]|].
  split; try done. unfold first_free_loc in *. lia.
Qed.

(** Every refresh keeps what the next one relies on. *)
Lemma refresh_ticks_spec (self : FactoryBase.instance F) (phs : list (physics F))
    (w : world F) NL D j m jl :
  ids_ok self NL →
  tshape j = [FactoryBase.num_envs self; NL + NL; 6; D + D] →
  tshape m = [FactoryBase.num_envs self; D + D; D] →
  Forall (body_shaped self) phs →
  tracking self jl j m w →
  yields (refresh_ticks self phs w) (tracking self jl j m).
Proof.
  intros Hids Hjs Hms Hphs. revert w.
  induction Hphs as [|ph phs Hph Hphs IH]; intros w Htr; simpl; [done|].
  apply yields_bind.
  eapply yields_mono; [|by eapply refresh_spec].
  intros w' [_ Htr']. by apply IH.
Qed.

Lemma acquire_then_refresh_spec (self : FactoryBase.instance F)
    (phs : list (physics F)) (ph : physics F) (w0 : world F) NL D :
  sim_shaped self NL D (heap w0) →
  first_free_loc ≤ next_loc w0 →
  ids_ok self NL →
  Forall (body_shaped self) phs →
  body_shaped self ph →
  yields (acquire_then_refresh self phs ph w0)
    (λ w, ∃ j m, concatenated (heap w0) j m ∧
                 refreshed self ph j m (S (next_loc w0)) w).
Proof.
  intros Hsim Hn Hids Hphs Hph. unfold acquire_then_refresh.
  apply yields_bind. eapply yields_mono; [|by eapply acquire_spec].
  intros w1 Hacq.
  destruct (acquired_tracking _ _ _ _ _ Hsim Hn Hacq) as (j & m & Hcat & Hjs & Hms & Htr).
  apply yields_bind. eapply yields_mono; [|by eapply refresh_ticks_spec].
  intros w2 Htr2.
  eapply yields_mono; [|by eapply refresh_spec].
  intros w3 [Hrf _]. eauto.
Qed.

Lemma refreshed_views (self : FactoryBase.instance F) (ph : physics F) j m jl
    (w : world F) :
  refreshed self ph j m jl w → jacobian_mass_views self w j m.
Proof.
  intros [Hf1 Hf2 [v1 [Hv1 Hv1']] [v2 [Hv2 Hv2']] [v3 [Hv3 Hv3']] [v4 [Hv4 Hv4']] _ _].
  destruct Hf1 as (l & r & hq & cp & cq & cl & ca & lj & rj & s & p & d & c & v & sj
                   & _ & _ & _ & _ & _ & _ & _ & [Hlj Hlj'] & [Hrj Hrj'] & _ & _ & _ & _
                   & _ & _ & _ & _ & Hsj & Hmj).
  destruct Hf2 as (l2 & r2 & hq2 & cp2 & cq2 & cl2 & ca2 & lj2 & rj2 & s2 & p2 & d2 & c2
                   & v' & sj2
                   & _ & _ & _ & _ & _ & _ & _ & [Hlj2 Hlj2'] & [Hrj2 Hrj2'] & _ & _ & _
                   & _ & _ & _ & _ & _ & Hsj2 & Hmj2).
  split.
  - exists v1. split; [exact Hv1 | exact Hv1'].
  - exists lj. split; [exact Hlj | exact Hlj'].
  - exists rj. split; [exact Hrj | exact Hrj'].
  - exists lj, rj, sj. done.
  - exists v3. split; [exact Hv3 | exact Hv3'].
  - exists v2. split; [exact Hv2 | exact Hv2'].
  - exists lj2. split; [exact Hlj2 | exact Hlj2'].
  - exists rj2. split; [exact Hrj2 | exact Hrj2'].
  - exists lj2, rj2, sj2. done.
  - exists v4. split; [exact Hv4 | exact Hv4'].
Qed.

(** C1. After acquisition and any number of refreshes, the simulator's own
    Jacobian and mass-matrix buffers hold the state of the last refresh, but
    the per-arm Jacobian and mass-matrix attributes (hand, finger and
    fingertip-midpoint Jacobians, arm mass matrices, of both arms) are
    selections of the concatenated copies made from the buffers as they
    were at acquisition: they do not depend on the refreshed state. *)
Theorem jacobian_mass_views_show_acquisition_copies (self : FactoryBase.instance F)
    (phs : list (physics F)) (ph : physics F) (w0 : world F) NL D :
  sim_shaped self NL D (heap w0) →
  first_free_loc ≤ next_loc w0 →
  ids_ok self NL →
  Forall (body_shaped self) phs →
  body_shaped self ph →
  yields (acquire_then_refresh self phs ph w0)
    (λ w, buffers_hold w ph ∧
          ∃ j m, concatenated (heap w0) j m ∧ jacobian_mass_views self w j m).
Proof.
  intros Hsim Hn Hids Hphs Hph.
  eapply yields_mono; [|by eapply acquire_then_refresh_spec].
  intros w (j & m & Hcat & Hrf). split.
  - destruct Hrf as [_ _ _ _ _ _ [? ?] [? ?]]. by repeat split.
  - exists j, m. split; [done|]. by eapply refreshed_views.
Qed.





End TickSpec.


(** ** What the body views read *)

Section BodyViews.
Context {F : Type}.

Lemma bind_Ok {A B} (a : A) (k : A → res B) : Ok a ≫= k = k a.
Proof. done. Qed.

Lemma fmap_Ok {A B} (f : A → B) (a : A) : f <$> Ok a = Ok (f a).
Proof. done. Qed.

Lemma getitem_ok (t : tensor F) ixs sh :
  Torch.ix_shape ixs (tshape t) = Ok sh →
  Torch.getitem t ixs = Ok (Tensor sh (λ idx, tat t (Torch.ix_src ixs (tshape t) idx))).
Proof. intros Hs. unfold Torch.getitem. by rewrite Hs. Qed.




End BodyViews.


(** ** [quat_apply] and [translate_along_local_z], row by row *)

Section QuatApplyRows.
Context {F : Type} `{Scalar F}.





End QuatApplyRows.


(** ** Translating the scene *)

Section OperationResults.
Context {F : Type} `{Scalar F}.




End OperationResults.

Section Translation.
Context {F : Type} `{Scalar F}.
Implicit Types (self : FactoryBase.instance F) (c : nat → F).









End Translation.



(** ** The small scene *)

Section SimHeap.
Context {F : Type}.
Implicit Types ph : physics F.

Lemma sim_heap_root ph : sim_heap ph !! L_root_state = Some (ph_root_state ph).
Proof. unfold sim_heap. unfold_buffers. lookup_heap. Qed.
Lemma sim_heap_body ph : sim_heap ph !! L_body_state = Some (ph_body_state ph).
Proof. unfold sim_heap. unfold_buffers. lookup_heap. Qed.
Lemma sim_heap_dof ph : sim_heap ph !! L_dof_state = Some (ph_dof_state ph).
Proof. unfold sim_heap. unfold_buffers. lookup_heap. Qed.
Lemma sim_heap_dof_force ph : sim_heap ph !! L_dof_force = Some (ph_dof_force ph).
Proof. unfold sim_heap. unfold_buffers. lookup_heap. Qed.
Lemma sim_heap_contact ph : sim_heap ph !! L_contact_force = Some (ph_contact_force ph).
Proof. unfold sim_heap. unfold_buffers. lookup_heap. Qed.
Lemma sim_heap_jacobian ph : sim_heap ph !! L_jacobian = Some (ph_jacobian ph).
Proof. unfold sim_heap. unfold_buffers. lookup_heap. Qed.
Lemma sim_heap_mass ph : sim_heap ph !! L_mass_matrix = Some (ph_mass_matrix ph).
Proof. unfold sim_heap. unfold_buffers. lookup_heap. Qed.
Lemma sim_heap_jacobian_2 ph : sim_heap ph !! L_jacobian_2 = Some (ph_jacobian_2 ph).
Proof. unfold sim_heap. unfold_buffers. lookup_heap. Qed.
Lemma sim_heap_mass_2 ph : sim_heap ph !! L_mass_matrix_2 = Some (ph_mass_matrix_2 ph).
Proof. unfold sim_heap. unfold_buffers. lookup_heap. Qed.

End SimHeap.

Lemma Ok_eq {A} (m : res A) (a b : A) : m = Ok a → m = Ok b → a = b.
Proof. congruence. Qed.

Lemma ex_sim_shaped ty bs x :
  tshape bs = [27; 13] →
  sim_shaped (ex_self ty) 11 9 (heap (ex_world (ex_physics bs x))).
Proof.
  destruct bs as [sbs fbs]. simpl. intros ->.
  split; unfold has_shape; cbn [heap ex_world];
    [ rewrite sim_heap_root | rewrite sim_heap_body | rewrite sim_heap_dof
    | rewrite sim_heap_dof_force | rewrite sim_heap_contact | rewrite sim_heap_jacobian
    | rewrite sim_heap_mass | rewrite sim_heap_jacobian_2 | rewrite sim_heap_mass_2 ];
    eexists; reflexivity.
Qed.

Lemma ex_ids_ok ty : ids_ok (ex_self ty) 11.
Proof. split; unfold body_id_ok; simpl; lia. Qed.

Lemma ex_body_shaped ty bs x : tshape bs = [27; 13] → body_shaped (ex_self ty) (ex_physics bs x).
Proof. intros Hs. exact Hs. Qed.

Lemma ex_next_loc ph : first_free_loc ≤ next_loc (ex_world ph).
Proof. done. Qed.

(** The theorem C1 at the small scene, acquired while the Jacobians and
    mass matrices hold 0 and refreshed when they hold 1 and then 2. *)
Lemma jacobian_mass_views_show_acquisition_copies_witness :
  yields (acquire_then_refresh (ex_self "joint_space_id")
            [ex_physics ex_body_state 1] (ex_physics ex_body_state 2)
            (ex_world (ex_physics ex_body_state 0)))
    (λ w, buffers_hold w (ex_physics ex_body_state 2) ∧
          ∃ j m, concatenated (heap (ex_world (ex_physics ex_body_state 0))) j m ∧
                 jacobian_mass_views (ex_self "joint_space_id") w j m).
Proof.
  apply (jacobian_mass_views_show_acquisition_copies
           (ex_self "joint_space_id") [ex_physics ex_body_state 1]
           (ex_physics ex_body_state 2) (ex_world (ex_physics ex_body_state 0)) 11 9).
  - by apply ex_sim_shaped.
  - apply ex_next_loc.
  - apply ex_ids_ok.
  - repeat constructor.
  - by apply ex_body_shaped.
Defined.

(** In the small scene, acquired while the first arm's Jacobian is 0
    everywhere and refreshed when it is 1 everywhere, [hand_jacobian] still
    reads 0 where the hand's block of the refreshed Jacobian reads 1. *)
Lemma hand_jacobian_stale_after_refresh :
  yields (acquire_then_refresh (ex_self "joint_space_id") []
            (ex_physics ex_body_state 1) (ex_world (ex_physics ex_body_state 0)))
    (λ w, ∃ v u,
       getval "hand_jacobian" w = Ok v ∧
       heap w !! L_jacobian = Some (ph_jacobian (ex_physics ex_body_state 1)) ∧
       Torch.getitem (ph_jacobian (ex_physics ex_body_state 1)) (arm_jacobian_block 7)
         = Ok u ∧
       tat v [0; 0; 0] = 0%R ∧ tat u [0; 0; 0] = 1%R).
Proof.
  eapply yields_mono;
    [|eapply (acquire_then_refresh_spec _ _ _ _ 11 9);
      [by apply ex_sim_shaped | apply ex_next_loc | apply ex_ids_ok | constructor
      | by apply ex_body_shaped]].
  intros w (j & m & Hcat & Hrf).
  pose proof (refreshed_views _ _ _ _ _ _ Hrf) as [[v [Gv Hv]] _ _ _ _ _ _ _ _ _].
  destruct Hrf as [_ _ _ _ _ _ [Hbuf _] _].
  destruct Hcat as (j1 & j2 & m1 & m2 & c & Hj1 & Hj2 & _ & _ & Hc & Hj & _).
  cbn [heap ex_world] in Hj1, Hj2.
  rewrite sim_heap_jacobian in Hj1. rewrite sim_heap_jacobian_2 in Hj2.
  injection Hj1 as <-. injection Hj2 as <-.
  destruct (jacobian_cat_arm_1 (ph_jacobian (ex_physics ex_body_state 0))
              (ph_jacobian_2 (ex_physics ex_body_state 0)) 1 11 7 eq_refl eq_refl)
    as (c' & j' & v' & u & Hc' & Hj' & Hv' & Hu & [Svu Hvu]); [lia|].
  assert (c' = c) as -> by (eapply Ok_eq; [exact Hc' | exact Hc]).
  assert (j' = j) as -> by (eapply Ok_eq; [exact Hj' | exact Hj]).
  assert (v' = v) as -> by (eapply Ok_eq; [exact Hv' | exact Hv]).
  erewrite getitem_ok in Hu by reflexivity. injection Hu as <-.
  eexists v, _. split; [exact Gv|]. split; [exact Hbuf|].
  split; [by apply getitem_ok|]. split; [|reflexivity].
  rewrite Hvu by (rewrite Svu; apply in_range_3; lia). reflexivity.
Qed.

Lemma ex_posed_shape : tshape ex_posed_body_state = [27; 13].
Proof. reflexivity. Qed.





(** C10 at the small scene: hand 8 and 20, fingers 9, 10 and 21, 22. *)
Lemma second_arm_views_select_second_arm_witness :
  yields (FactoryBase.acquire_base_tensors (ex_self "joint_space_id")
            (ex_world (ex_physics ex_body_state 0)))
    (λ w1,
      (view_of w1 "hand_jacobian" (Torch.full [1; 11; 6; 9] 0%R) (arm_jacobian_block 7) ∧
       view_of w1 "hand_jacobian_2" (Torch.full [1; 11; 6; 9] 0%R) (arm_jacobian_block 7)) ∧
      (view_of w1 "left_finger_jacobian" (Torch.full [1; 11; 6; 9] 0%R)
         (arm_jacobian_block 8) ∧
       view_of w1 "left_finger_jacobian_2" (Torch.full [1; 11; 6; 9] 0%R)
         (arm_jacobian_block 8)) ∧
      (view_of w1 "right_finger_jacobian" (Torch.full [1; 11; 6; 9] 0%R)
         (arm_jacobian_block 9) ∧
       view_of w1 "right_finger_jacobian_2" (Torch.full [1; 11; 6; 9] 0%R)
         (arm_jacobian_block 9)) ∧
      (view_of w1 "fingertip_centered_jacobian" (Torch.full [1; 11; 6; 9] 0%R)
         (arm_jacobian_block 10) ∧
       view_of w1 "fingertip_centered_jacobian_2" (Torch.full [1; 11; 6; 9] 0%R)
         (arm_jacobian_block 10)) ∧
      view_of w1 "arm_mass_matrix" (Torch.full [1; 9; 9] 0%R) arm_mass_block ∧
      view_of w1 "arm_mass_matrix_2" (Torch.full [1; 9; 9] 0%R) arm_mass_block).
Proof.
  apply (second_arm_views_select_second_arm (ex_self "joint_space_id")
           (ex_world (ex_physics ex_body_state 0)) 11).
  - by apply ex_sim_shaped.
  - apply ex_next_loc.
  - apply ex_ids_ok.
  - apply sim_heap_jacobian.
  - apply sim_heap_jacobian_2.
  - apply sim_heap_mass.
  - apply sim_heap_mass_2.
  - reflexivity.
  - reflexivity.
  - reflexivity.
  - reflexivity.
Defined.

(** ** The configuration [parse_controller_spec] builds *)

Lemma none_iff {F} (o : option (cval F)) (v : cval F) (key : string) (l : list string) :
  o = Some v →
  match v with CNone => key ∉ l | _ => key ∈ l end →
  o = Some CNone ↔ key ∉ l.
Proof.
  intros -> Hv. destruct v; split; try done; try (by intros [=]); by intros ?.
Qed.

(** Evaluates the [if]/[elif] chain of [mode_entries] for a known mode. *)
Ltac eval_mode Hty :=
  unfold FactoryBase.build_cfg_ctrl, FactoryBase.mode_entries,
    FactoryBase.cfg_ctrl_keys;
  cbv zeta; rewrite Hty;
  repeat first [rewrite decide_True by done | rewrite decide_False by done];
  cbn [foldr].

(** Membership of a literal in a list of literals, or its negation. *)
Ltac decide_mem :=
  first [ apply (bool_decide_unpack _); vm_compute; exact I
        | apply (bool_decide_eq_false_1 _); vm_compute; reflexivity ].

Ltac solve_key Hty :=
  eapply none_iff;
  [ lookup_chain
  | unfold FactoryBase.gains; cbv beta iota; unfold assigned_fields; try rewrite Hty;
    decide_mem ].

Ltac solve_mode Hty :=
  split;
  [ unfold stores_row; eval_mode Hty;
    cbn [row_backend row_gain_space row_inertial_comp row_force_ctrl
         backend_name gain_space_name];
    repeat split; lookup_chain
  | intros key Hk; unfold FactoryBase.cfg_ctrl_keys in Hk;
    repeat (apply elem_of_cons in Hk as [-> | Hk]);
    [eval_mode Hty; solve_key Hty .. | by apply elem_of_nil in Hk] ].

Section BuildCfgCtrl.
Context {F : Type} `{Scalar F}.
Implicit Types self : FactoryBase.instance F.

Lemma build_cfg_ctrl_mode_table self row :
  mode_table (FactoryBase.ctrl_type (FactoryBase.cfg_task_ctrl self)) = Some row →
  stores_row (FactoryBase.build_cfg_ctrl self) row ∧
  unset_iff_unassigned (FactoryBase.build_cfg_ctrl self)
    (FactoryBase.ctrl_type (FactoryBase.cfg_task_ctrl self)).
Proof.
  intros Hrow. unfold mode_table in Hrow.
  repeat (case_decide;
          [ injection Hrow as <-;
            match goal with
            | Hty : FactoryBase.ctrl_type _ = _ |- _ => solve_mode Hty
            end
          | ]).
  done.
Qed.

End BuildCfgCtrl.


(** ** The drive-property loops *)

Section Loops.
Context {F : Type} `{Scalar F}.
Implicit Types (self : FactoryBase.instance F) (w : world F).

Lemma for_each_prefix {A} (body : A → world F → res (world F))
    (I : list A → world F → Prop) (l pre : list A) w :
  I pre w →
  (∀ done x w', I done w' → x ∈ l → yields (body x w') (I (done ++ [x]))) →
  yields (FactoryBase.for_each body l w) (I (pre ++ l)).
Proof.
  revert pre w. induction l as [|x l IH]; intros pre w Hpre Hstep; simpl.
  - by rewrite app_nil_r.
  - apply yields_bind. eapply yields_mono; [|apply (Hstep pre x w Hpre); left].
    intros w' Hw'. replace (pre ++ x :: l) with ((pre ++ [x]) ++ l)
      by (by rewrite <- app_assoc).
    apply IH; [done|]. intros done y w'' Hd Hy. apply Hstep; [done | by right].
Qed.

Lemma for_each_inv {A} (body : A → world F → res (world F)) (I : world F → Prop)
    (l : list A) w :
  I w →
  (∀ x w', I w' → x ∈ l → yields (body x w') I) →
  yields (FactoryBase.for_each body l w) I.
Proof.
  intros Hw Hstep.
  apply (for_each_prefix body (λ _, I) l [] w Hw). intros _ x w'. apply Hstep.
Qed.

Lemma elem_of_zip_zip {A B C} (es : list A) (hs : list B) (rs : list C) e h r :
  (e, (h, r)) ∈ zip es (zip hs rs) → (e, h) ∈ zip es hs ∧ r ∈ rs.
Proof.
  revert hs rs. induction es as [|e' es IH]; intros [|h' hs] [|r' rs]; simpl;
    try (by intros ?%elem_of_nil).
  intros [[= -> -> ->]|Hin]%elem_of_cons.
  - split; left.
  - destruct (IH _ _ Hin). split; by right.
Qed.

Lemma effort_props_driven (p : dofprops F) : effort_driven (FactoryBase.effort_props p).
Proof.
  unfold effort_driven, FactoryBase.effort_props, FactoryBase.fill_field. simpl.
  repeat split; by apply Forall_replicate.
Qed.

Lemma manual_loop_spec self w0 :
  manual_ready self w0 →
  yields (FactoryBase.for_each FactoryBase.manual_drive_body
            (zip (FactoryBase.env_ptrs self)
               (zip (FactoryBase.franka_handles self) (FactoryBase.franka_handles_2 self)))
            w0)
    (manual_done w0
       (zip (FactoryBase.env_ptrs self)
          (zip (FactoryBase.franka_handles self) (FactoryBase.franka_handles_2 self)))).
Proof.
  intros Hready.
  apply (for_each_prefix _ (manual_done w0) _ []).
  { repeat split; try done. by intros e h1 h2 ?%elem_of_nil. }
  intros done [e [h1 h2]] w (Hh & Hn & Ha & Hc & Hg & Hmono & Hdone & Hother) Hx.
  pose proof Hx as Hx'. apply elem_of_zip_zip in Hx' as [Hx1 Hx2'].
  assert ((e, h2) ∈ zip (FactoryBase.env_ptrs self) (FactoryBase.franka_handles_2 self))
    as Hx2.
  { clear -Hx. revert Hx. generalize (FactoryBase.env_ptrs self)
      (FactoryBase.franka_handles self) (FactoryBase.franka_handles_2 self).
    intros es. induction es as [|e' es IH]; intros [|a hs] [|b hs2]; simpl;
      try (by intros ?%elem_of_nil).
    intros [[= -> -> ->]|Hin]%elem_of_cons; [left | right; by eapply IH]. }
  destruct (Hmono (e, h1)) as [p1 Hp1].
  { apply Hready. apply elem_of_app. by left. }
  destruct (Hmono (e, h2)) as [p2 Hp2].
  { apply Hready. apply elem_of_app. by right. }
  unfold FactoryBase.manual_drive_body, FactoryBase.get_actor_dof_properties.
  rewrite Hp1. cbn [mbind res_bind]. rewrite Hp2. cbn [mbind res_bind yields].
  unfold manual_done, FactoryBase.set_actor_dof_properties, set_actor_dof_props.
  cbn [heap next_loc attrs cfg_ctrl gym_log actor_dof_props].
  split; [done|]. split; [done|]. split; [done|]. split; [done|]. split; [done|].
  split; [|split].
  - intros k Hk. destruct (decide (k = (e, h2))) as [->|?].
    { rewrite lookup_insert_eq. eauto. }
    rewrite lookup_insert_ne by done.
    destruct (decide (k = (e, h1))) as [->|?].
    { rewrite lookup_insert_eq. eauto. }
    rewrite lookup_insert_ne by done. by apply Hmono.
  - assert (∀ k, k = (e, h1) ∨ k = (e, h2) ∨
                 (∃ p, actor_dof_props w !! k = Some p ∧ effort_driven p) →
              ∃ p, <[(e, h2) := FactoryBase.effort_props p2]>
                     (<[(e, h1) := FactoryBase.effort_props p1]> (actor_dof_props w))
                   !! k = Some p ∧ effort_driven p) as Hset.
    { intros k Hk. destruct (decide (k = (e, h2))) as [->|?].
      { rewrite lookup_insert_eq. eexists. split; [done | apply effort_props_driven]. }
      rewrite lookup_insert_ne by done.
      destruct (decide (k = (e, h1))) as [->|?].
      { rewrite lookup_insert_eq. eexists. split; [done | apply effort_props_driven]. }
      rewrite lookup_insert_ne by done. destruct Hk as [?|[?|?]]; done. }
    intros e' h1' h2' [Hin|Hin%list_elem_of_singleton]%elem_of_app.
    + destruct (Hdone _ _ _ Hin) as (q1 & q2 & Hq1 & Hd1 & Hq2 & Hd2).
      destruct (Hset (e', h1')) as (r1 & ? & ?); [eauto|].
      destruct (Hset (e', h2')) as (r2 & ? & ?); [eauto|].
      eauto 10.
    + injection Hin as -> -> ->.
      destruct (Hset (e, h1)) as (r1 & ? & ?); [eauto|].
      destruct (Hset (e, h2)) as (r2 & ? & ?); [eauto|].
      eauto 10.
  - intros k Hk.
    destruct (Hk e h1 h2) as [? ?]; [apply elem_of_app; right; by left|].
    rewrite !lookup_insert_ne by done. apply Hother.
    intros e' h1' h2' Hin. apply Hk. apply elem_of_app. by left.
Qed.

End Loops.


(** ** [parse_controller_spec], backend by backend *)

Section ParseSpec.
Context {F : Type} `{Scalar F}.
Implicit Types (self : FactoryBase.instance F) (w : world F).

Lemma rows_shape (t r : tensor F) (E n : nat) :
  tshape t = [E; n] → r ∈ FactoryBase.rows t → tshape r = [n].
Proof.
  intros Ht. unfold FactoryBase.rows. rewrite Ht.
  by intros (i & -> & _)%list_elem_of_fmap.
Qed.

Lemma assign_field_ok (old : list F) (row : tensor F) :
  tshape row = [length old] →
  FactoryBase.assign_field old row = Ok ((λ i, tat row [i]) <$> seq 0 (length old)).
Proof.
  intros Hr. unfold FactoryBase.assign_field. rewrite Hr. by rewrite decide_True.
Qed.

(** The loop of the native-PD backend returns when the visited actors have
    as many DOFs as there are gains; it touches the actors it visits only. *)
Lemma gym_loop_spec self w0 (pg dg : tensor F) (E1 E2 np nd : nat) :
  tshape pg = [E1; np] → tshape dg = [E2; nd] →
  (∀ e h, (e, h) ∈ zip (FactoryBase.env_ptrs self) (FactoryBase.franka_handles self) →
     ∃ p, actor_dof_props w0 !! (e, h) = Some p ∧
          length (stiffness p) = np ∧ length (damping p) = nd) →
  yields (FactoryBase.for_each FactoryBase.gym_drive_body
            (zip (FactoryBase.env_ptrs self)
               (zip (FactoryBase.franka_handles self)
                  (zip (FactoryBase.rows pg) (FactoryBase.rows dg)))) w0)
    (λ w, (heap w = heap w0 ∧ next_loc w = next_loc w0 ∧ attrs w = attrs w0 ∧
           cfg_ctrl w = cfg_ctrl w0 ∧ gym_log w = gym_log w0) ∧
          (∀ e h, (e, h) ∈ zip (FactoryBase.env_ptrs self) (FactoryBase.franka_handles self) →
             ∃ p, actor_dof_props w !! (e, h) = Some p ∧
                  length (stiffness p) = np ∧ length (damping p) = nd) ∧
          (∀ k, k ∉ zip (FactoryBase.env_ptrs self) (FactoryBase.franka_handles self) →
                actor_dof_props w !! k = actor_dof_props w0 !! k)).
Proof.
  intros Hpg Hdg Hready.
  apply for_each_inv; [done|].
  intros [e [h [a b]]] w ((Hh & Hn & Ha & Hc & Hg) & Hr & Ho) Hx.
  apply elem_of_zip_zip in Hx as [Hx1 Hx2].
  pose proof (elem_of_zip_l _ _ _ _ Hx2) as Ha'.
  pose proof (elem_of_zip_r _ _ _ _ Hx2) as Hb'.
  destruct (Hr e h Hx1) as (p & Hp & Hls & Hld).
  unfold FactoryBase.gym_drive_body, FactoryBase.get_actor_dof_properties.
  rewrite Hp. cbn [mbind res_bind].
  rewrite (assign_field_ok (stiffness p) a) by (rewrite Hls; by eapply rows_shape).
  cbn [mbind res_bind].
  rewrite (assign_field_ok (damping p) b) by (rewrite Hld; by eapply rows_shape).
  cbn [mbind res_bind yields].
  unfold FactoryBase.set_actor_dof_properties, set_actor_dof_props.
  cbn [heap next_loc attrs cfg_ctrl gym_log actor_dof_props].
  split; [done|]. split.
  - intros e' h' Hin. destruct (decide ((e', h') = (e, h))) as [[= -> ->]|Hne].
    + rewrite lookup_insert_eq. eexists. split; [done|]. cbn [stiffness damping].
      by rewrite !length_fmap, !length_seq.
    + rewrite lookup_insert_ne by done. by apply Hr.
  - intros k Hk. rewrite lookup_insert_ne by (by intros <-). by apply Ho.
Qed.

Lemma mode_entries_unknown self c :
  FactoryBase.ctrl_type (FactoryBase.cfg_task_ctrl self) ∉ recognized_modes →
  FactoryBase.mode_entries self c = c.
Proof.
  unfold recognized_modes. rewrite !not_elem_of_cons.
  intros (? & ? & ? & ? & ? & ? & ? & ? & _).
  unfold FactoryBase.mode_entries. cbv zeta. by rewrite !decide_False by done.
Qed.

Lemma mode_table_recognized name :
  name ∈ recognized_modes → is_Some (mode_table name).
Proof.
  unfold recognized_modes. rewrite !elem_of_cons, elem_of_nil.
  intros Hin. unfold mode_table. repeat (case_decide; [eauto|]). tauto.
Qed.

Lemma parse_unfold_other self w :
  FactoryBase.build_cfg_ctrl self !! "motor_ctrl_mode" = Some CNone →
  FactoryBase.parse_controller_spec self w
  = Ok (set_cfg_ctrl (FactoryBase.build_cfg_ctrl self) w).
Proof.
  intros Hm. unfold FactoryBase.parse_controller_spec, FactoryBase.cfg_item.
  cbv zeta. cbn [cfg_ctrl set_cfg_ctrl]. by rewrite Hm.
Qed.

Lemma parse_unfold_manual self w :
  FactoryBase.build_cfg_ctrl self !! "motor_ctrl_mode" = Some (CStr "manual") →
  FactoryBase.parse_controller_spec self w
  = FactoryBase.for_each FactoryBase.manual_drive_body
      (zip (FactoryBase.env_ptrs self)
         (zip (FactoryBase.franka_handles self) (FactoryBase.franka_handles_2 self)))
      (set_cfg_ctrl (FactoryBase.build_cfg_ctrl self) w).
Proof.
  intros Hm. unfold FactoryBase.parse_controller_spec, FactoryBase.cfg_item.
  cbv zeta. cbn [cfg_ctrl set_cfg_ctrl]. rewrite Hm. cbn [mbind res_bind].
  rewrite decide_False by done. by rewrite decide_True.
Qed.

Lemma parse_unfold_gym self w :
  FactoryBase.ctrl_type (FactoryBase.cfg_task_ctrl self) = "gym_default" →
  let b := FactoryBase.gym_default (FactoryBase.cfg_task_ctrl self) in
  ∃ pg dg,
    tshape pg = [FactoryBase.num_envs self;
                 length (FactoryBase.joint_prop_gains b)
                 + length (FactoryBase.gripper_prop_gains b)] ∧
    tshape dg = [FactoryBase.num_envs self;
                 length (FactoryBase.joint_deriv_gains b)
                 + length (FactoryBase.gripper_deriv_gains b)] ∧
    FactoryBase.parse_controller_spec self w
    = FactoryBase.for_each FactoryBase.gym_drive_body
        (zip (FactoryBase.env_ptrs self)
           (zip (FactoryBase.franka_handles self)
              (zip (FactoryBase.rows pg) (FactoryBase.rows dg))))
        (set_cfg_ctrl (FactoryBase.build_cfg_ctrl self) w).
Proof.
  intros Hty b.
  assert (FactoryBase.build_cfg_ctrl self !! "motor_ctrl_mode" = Some (CStr "gym")) as Hm
    by (eval_mode Hty; lookup_chain).
  assert (FactoryBase.build_cfg_ctrl self !! "joint_prop_gains"
          = Some (FactoryBase.gains self (FactoryBase.joint_prop_gains b))) as Hjp
    by (eval_mode Hty; lookup_chain).
  assert (FactoryBase.build_cfg_ctrl self !! "gripper_prop_gains"
          = Some (FactoryBase.gains self (FactoryBase.gripper_prop_gains b))) as Hgp
    by (eval_mode Hty; lookup_chain).
  assert (FactoryBase.build_cfg_ctrl self !! "joint_deriv_gains"
          = Some (FactoryBase.gains self (FactoryBase.joint_deriv_gains b))) as Hjd
    by (eval_mode Hty; lookup_chain).
  assert (FactoryBase.build_cfg_ctrl self !! "gripper_deriv_gains"
          = Some (FactoryBase.gains self (FactoryBase.gripper_deriv_gains b))) as Hgd
    by (eval_mode Hty; lookup_chain).
  unfold FactoryBase.parse_controller_spec, FactoryBase.cfg_tensor, FactoryBase.cfg_item.
  cbv zeta. cbn [cfg_ctrl set_cfg_ctrl]. rewrite Hm, Hjp, Hgp, Hjd, Hgd.
  cbn [mbind res_bind]. rewrite decide_True by done.
  unfold FactoryBase.gains. cbn [mbind res_bind tshape length Nat.sub].
  unfold Torch.concatenate. cbn [tshape Torch.cat_shape].
  rewrite !(decide_True (P := FactoryBase.num_envs self = FactoryBase.num_envs self)) by done.
  rewrite !(decide_True (P := @nil nat = [])) by done.
  cbn [fmap res_fmap mbind res_bind].
  eexists _, _. split; [|split]; cycle 2.
  { reflexivity. }
  all: reflexivity.
Qed.

(** [parse_controller_spec] returns, with the configuration of
    [build_cfg_ctrl], when the simulator knows the arms' actors; apart from
    the configuration it changes drive properties only. *)
Lemma parse_controller_spec_returns self w :
  drive_ready self w →
  yields (FactoryBase.parse_controller_spec self w)
    (λ w', cfg_ctrl w' = FactoryBase.build_cfg_ctrl self ∧
           heap w' = heap w ∧ next_loc w' = next_loc w ∧ attrs w' = attrs w ∧
           gym_log w' = gym_log w).
Proof.
  intros [Hgym Hman].
  destruct (decide (FactoryBase.ctrl_type (FactoryBase.cfg_task_ctrl self)
                    ∈ recognized_modes)) as [Hin|Hout].
  - destruct (mode_table_recognized _ Hin) as [row Hrow].
    destruct (build_cfg_ctrl_mode_table self row Hrow) as [(Hm & _) _].
    destruct (row_backend row) eqn:Hb; cbn [backend_name] in Hm.
    + assert (FactoryBase.ctrl_type (FactoryBase.cfg_task_ctrl self) = "gym_default")
        as Hty.
      { unfold mode_table in Hrow.
        repeat (case_decide; [first [done | injection Hrow as <-; discriminate]|]).
        done. }
      destruct (parse_unfold_gym self w Hty) as (pg & dg & Spg & Sdg & ->).
      eapply yields_mono; [|by eapply gym_loop_spec].
      intros w' ((-> & -> & -> & -> & ->) & _). done.
    + rewrite parse_unfold_manual by done.
      eapply yields_mono; [|by eapply manual_loop_spec].
      intros w' (-> & -> & -> & -> & -> & _). done.
  - rewrite parse_unfold_other; [done|].
    unfold FactoryBase.build_cfg_ctrl. cbv zeta. rewrite mode_entries_unknown by done.
    unfold FactoryBase.cfg_ctrl_keys. cbn [foldr]. lookup_chain.
Qed.

End ParseSpec.


(** ** The configuration and the drive properties after [parse_controller_spec] *)

(** Membership in a list of literals. *)
Ltac mem := first [left | right; mem].

Section ParseTheorems.
Context {F : Type} `{Scalar F}.
Implicit Types (self : FactoryBase.instance F) (w : world F).

(** C8 (amended). For each of the eight modes of the table,
    [parse_controller_spec] returns a configuration that stores the backend,
    the gain space and the inertial-compensation entry of the mode's row
    ("n/a" as [None], "no" as [False], "yes" as [True]) and the force-control
    entries "open" and "closed" as [do_force_ctrl = True] with the method;
    the entry "no" of the force-control column is stored as
    [do_force_ctrl = False] in the task-space modes but is left [None] in
    gym_default and the two joint-space modes. The fields that are [None]
    are exactly those that the branch of the mode does not assign. *)
Theorem parse_controller_spec_stores_mode_table self w row :
  mode_table (FactoryBase.ctrl_type (FactoryBase.cfg_task_ctrl self)) = Some row →
  drive_ready self w →
  yields (FactoryBase.parse_controller_spec self w)
    (λ w', stores_row (cfg_ctrl w') row ∧
           unset_iff_unassigned (cfg_ctrl w')
             (FactoryBase.ctrl_type (FactoryBase.cfg_task_ctrl self))).
Proof.
  intros Hrow Hready.
  eapply yields_mono; [|by apply parse_controller_spec_returns].
  intros w' (-> & _). by eapply build_cfg_ctrl_mode_table.
Qed.

Lemma unknown_mode_fields self key :
  FactoryBase.ctrl_type (FactoryBase.cfg_task_ctrl self) ∉ recognized_modes →
  key ∈ ["motion_ctrl_axes"; "force_ctrl_axes"] →
  FactoryBase.build_cfg_ctrl self !! key = Some CNone.
Proof.
  intros Hout Hk. unfold FactoryBase.build_cfg_ctrl. cbv zeta.
  rewrite mode_entries_unknown by done.
  unfold FactoryBase.cfg_ctrl_keys. cbn [foldr].
  repeat (apply elem_of_cons in Hk as [-> | Hk]);
    [lookup_chain .. | by apply elem_of_nil in Hk].
Qed.

(** The two axis masks in the configuration that [build_cfg_ctrl] makes. *)
Lemma build_cfg_ctrl_axis_masks self :
  let c := FactoryBase.build_cfg_ctrl self in
  let b := FactoryBase.hybrid_force_motion (FactoryBase.cfg_task_ctrl self) in
  (FactoryBase.ctrl_type (FactoryBase.cfg_task_ctrl self) = "hybrid_force_motion" →
   c !! "motion_ctrl_axes"
     = Some (FactoryBase.gains self (FactoryBase.motion_ctrl_axes b)) ∧
   c !! "force_ctrl_axes"
     = Some (FactoryBase.gains self (FactoryBase.force_ctrl_axes b))) ∧
  (FactoryBase.ctrl_type (FactoryBase.cfg_task_ctrl self) ≠ "hybrid_force_motion" →
   c !! "motion_ctrl_axes" = Some CNone ∨ c !! "force_ctrl_axes" = Some CNone).
Proof.
  intros c b. subst c b. split.
  - intros Hty. split; eval_mode Hty; lookup_chain.
  - intros Hne.
    destruct (decide (FactoryBase.ctrl_type (FactoryBase.cfg_task_ctrl self)
                      ∈ recognized_modes)) as [Hin|Hout].
    + unfold recognized_modes in Hin.
      repeat (apply elem_of_cons in Hin as [Hty | Hin];
              [ first [ by destruct Hne
                      | left; eval_mode Hty; lookup_chain
                      | right; eval_mode Hty; lookup_chain ]
              | ]).
      by apply elem_of_nil in Hin.
    + left. apply unknown_mode_fields; [done | mem].
Qed.

(** C5 (amended). In the mode hybrid_force_motion the configuration holds
    both a motion-axis mask and a force-axis mask: each is the list of the
    mode's gain bundle, repeated for every environment, and the two are not
    checked against each other, so an axis has both masks one exactly when
    both configured lists have a one there. In every other mode at most one
    of the two masks is stored; the other is [None]. *)
Theorem both_axis_masks_only_in_hybrid_mode self w :
  drive_ready self w →
  yields (FactoryBase.parse_controller_spec self w)
    (λ w',
       let b := FactoryBase.hybrid_force_motion (FactoryBase.cfg_task_ctrl self) in
       (FactoryBase.ctrl_type (FactoryBase.cfg_task_ctrl self) = "hybrid_force_motion" →
        ∃ m f,
          cfg_ctrl w' !! "motion_ctrl_axes" = Some (CTensor m) ∧
          cfg_ctrl w' !! "force_ctrl_axes" = Some (CTensor f) ∧
          tshape m = [FactoryBase.num_envs self; length (FactoryBase.motion_ctrl_axes b)] ∧
          tshape f = [FactoryBase.num_envs self; length (FactoryBase.force_ctrl_axes b)] ∧
          ∀ e i, tat m [e; i] = nth i (FactoryBase.motion_ctrl_axes b) fzero ∧
                 tat f [e; i] = nth i (FactoryBase.force_ctrl_axes b) fzero) ∧
       (FactoryBase.ctrl_type (FactoryBase.cfg_task_ctrl self) ≠ "hybrid_force_motion" →
        cfg_ctrl w' !! "motion_ctrl_axes" = Some CNone ∨
        cfg_ctrl w' !! "force_ctrl_axes" = Some CNone)).
Proof.
  intros Hready.
  eapply yields_mono; [|by apply parse_controller_spec_returns].
  intros w' (-> & _). cbv zeta.
  destruct (build_cfg_ctrl_axis_masks self) as [Hhyb Hoth]. split; [|exact Hoth].
  intros Hty. destruct (Hhyb Hty) as [Hm Hf].
  eexists _, _. split; [exact Hm|]. split; [exact Hf|]. done.
Qed.

(** C2 (amended). For a mode name that is none of the eight,
    [parse_controller_spec] raises nothing: it returns with the four
    general fields set and every other field [None], and touches neither
    the drive properties nor anything else. *)
Theorem unknown_mode_returns_silently self w :
  FactoryBase.ctrl_type (FactoryBase.cfg_task_ctrl self) ∉ recognized_modes →
  ∃ c, FactoryBase.parse_controller_spec self w = Ok (set_cfg_ctrl c w) ∧
       (∀ key, key ∈ general_keys → ∃ v, c !! key = Some v ∧ v ≠ CNone) ∧
       (∀ key, key ∈ FactoryBase.cfg_ctrl_keys → key ∉ general_keys →
               c !! key = Some CNone).
Proof.
  intros Hout. exists (FactoryBase.build_cfg_ctrl self).
  assert (FactoryBase.build_cfg_ctrl self
          = <["gripper_deriv_gains" :=
                FactoryBase.gains self
                  (FactoryBase.all_gripper_deriv_gains
                     (FactoryBase.all (FactoryBase.cfg_task_ctrl self)))]>
            (<["gripper_prop_gains" :=
                FactoryBase.gains self
                  (FactoryBase.all_gripper_prop_gains
                     (FactoryBase.all (FactoryBase.cfg_task_ctrl self)))]>
            (<["jacobian_type" :=
                CStr (FactoryBase.jacobian_type
                        (FactoryBase.all (FactoryBase.cfg_task_ctrl self)))]>
            (<["num_envs" := CInt (Z.of_nat (FactoryBase.num_envs self))]>
               (foldr (λ k m, <[k := CNone]> m) ∅ FactoryBase.cfg_ctrl_keys))))) as Hc.
  { unfold FactoryBase.build_cfg_ctrl. cbv zeta. by rewrite mode_entries_unknown. }
  split; [|split].
  - apply parse_unfold_other. rewrite Hc.
    unfold FactoryBase.cfg_ctrl_keys. cbn [foldr]. lookup_chain.
  - intros key Hk. unfold general_keys in Hk. rewrite Hc.
    unfold FactoryBase.cfg_ctrl_keys. cbn [foldr].
    repeat (apply elem_of_cons in Hk as [-> | Hk]);
      [eexists; split; [lookup_chain | done] .. | by apply elem_of_nil in Hk].
  - intros key Hk Hng. rewrite Hc. unfold FactoryBase.cfg_ctrl_keys in *. cbn [foldr].
    repeat (apply elem_of_cons in Hk as [-> | Hk]);
      [first [lookup_chain | exfalso; apply Hng; unfold general_keys; mem] ..
      | by apply elem_of_nil in Hk].
Qed.

(** C3 (the divergence). With the native-PD backend, [parse_controller_spec]
    changes the drive properties of no actor other than the first arm's:
    every actor that is not among (env_ptr, franka_handle), a second arm's
    actor in particular, keeps its drive mode, stiffness and damping. *)
Theorem native_pd_backend_leaves_second_arm_unconfigured self w :
  FactoryBase.ctrl_type (FactoryBase.cfg_task_ctrl self) = "gym_default" →
  gym_ready self w →
  yields (FactoryBase.parse_controller_spec self w)
    (λ w', ∀ e h,
       (e, h) ∉ zip (FactoryBase.env_ptrs self) (FactoryBase.franka_handles self) →
       actor_dof_props w' !! (e, h) = actor_dof_props w !! (e, h)).
Proof.
  intros Hty Hready.
  destruct (parse_unfold_gym self w Hty) as (pg & dg & Spg & Sdg & ->).
  eapply yields_mono; [|by eapply gym_loop_spec].
  intros w' (_ & _ & Ho) e h Hne. by rewrite Ho.
Qed.

End ParseTheorems.


(** ** [parse_controller_spec] at the small scene *)

Lemma ex_drive_ready ty ph : drive_ready (ex_self ty) (ex_world ph).
Proof.
  split.
  - intros e h Hin. cbn in Hin. apply list_elem_of_singleton in Hin as [= -> ->].
    exists ex_dofprops. split; [apply lookup_insert_eq|]. split; reflexivity.
  - intros e h Hin. cbn in Hin.
    apply elem_of_cons in Hin as [[= -> ->]|Hin].
    + exists ex_dofprops. apply lookup_insert_eq.
    + apply list_elem_of_singleton in Hin as [= -> ->].
      exists ex_dofprops. cbn [actor_dof_props ex_world].
      rewrite lookup_insert_ne by done. apply lookup_insert_eq.
Qed.

Lemma ex_unknown_mode :
  FactoryBase.ctrl_type (FactoryBase.cfg_task_ctrl (ex_self "velocity_control"))
  ∉ recognized_modes.
Proof.
  cbn. unfold recognized_modes. rewrite !not_elem_of_cons.
  repeat split; try done. apply not_elem_of_nil.
Qed.

(** The amended C8 at the small scene, in the mode hybrid_force_motion. *)
Lemma parse_controller_spec_stores_mode_table_witness :
  yields (FactoryBase.parse_controller_spec (ex_self "hybrid_force_motion")
            (ex_world (ex_physics ex_body_state 0)))
    (λ w', stores_row (cfg_ctrl w') (ModeRow Manual TaskSpace (Some true) ClosedLoopForce) ∧
           unset_iff_unassigned (cfg_ctrl w') "hybrid_force_motion").
Proof.
  apply (parse_controller_spec_stores_mode_table (ex_self "hybrid_force_motion")
           (ex_world (ex_physics ex_body_state 0))).
  - reflexivity.
  - apply ex_drive_ready.
Defined.

(** C8 as stated fails: the table has the same entry "no" for the force
    control of joint_space_id and of task_space_impedance, but
    [parse_controller_spec] leaves [do_force_ctrl] unset ([None]) in the
    first and stores [False] in the second, so in joint_space_id the
    configuration is not the one the table describes; and the truth value
    that [_apply_actions_as_ctrl_targets] takes of the entry is the same for
    both. *)
Lemma joint_space_mode_leaves_force_ctrl_unset :
  mode_table "joint_space_id" = Some (ModeRow Manual JointSpace (Some true) NoForceCtrl) ∧
  mode_table "task_space_impedance"
  = Some (ModeRow Manual TaskSpace (Some false) NoForceCtrl) ∧
  yields (FactoryBase.parse_controller_spec (ex_self "joint_space_id")
            (ex_world (ex_physics ex_body_state 0)))
    (λ w', cfg_ctrl w' !! "do_force_ctrl" = Some CNone ∧
           ¬ as_table_says (cfg_ctrl w')
               (ModeRow Manual JointSpace (Some true) NoForceCtrl)) ∧
  yields (FactoryBase.parse_controller_spec (ex_self "task_space_impedance")
            (ex_world (ex_physics ex_body_state 0)))
    (λ w', cfg_ctrl w' !! "do_force_ctrl" = Some (CBool false)) ∧
  FactoryTask.truthy (F := R) CNone = FactoryTask.truthy (F := R) (CBool false).
Proof.
  split; [reflexivity|]. split; [reflexivity|]. split; [|split; [|reflexivity]].
  - eapply yields_mono; [|apply parse_controller_spec_returns, ex_drive_ready].
    intros w' (-> & _).
    assert (FactoryBase.ctrl_type (FactoryBase.cfg_task_ctrl (ex_self "joint_space_id"))
            = "joint_space_id") as Hty by reflexivity.
    assert (FactoryBase.build_cfg_ctrl (ex_self "joint_space_id") !! "do_force_ctrl"
            = Some CNone) as Hf by (eval_mode Hty; lookup_chain).
    split; [exact Hf|]. intros (_ & _ & _ & Hno). cbn [row_force_ctrl] in Hno.
    rewrite Hf in Hno. discriminate.
  - eapply yields_mono; [|apply parse_controller_spec_returns, ex_drive_ready].
    intros w' (-> & _).
    assert (FactoryBase.ctrl_type
              (FactoryBase.cfg_task_ctrl (ex_self "task_space_impedance"))
            = "task_space_impedance") as Hty by reflexivity.
    eval_mode Hty; lookup_chain.
Qed.

(** The amended C5 at the small scene. *)
Lemma both_axis_masks_only_in_hybrid_mode_witness :
  yields (FactoryBase.parse_controller_spec (ex_self "hybrid_force_motion")
            (ex_world (ex_physics ex_body_state 0)))
    (λ w',
       let b := FactoryBase.hybrid_force_motion
                  (FactoryBase.cfg_task_ctrl (ex_self "hybrid_force_motion")) in
       (FactoryBase.ctrl_type (FactoryBase.cfg_task_ctrl (ex_self "hybrid_force_motion"))
        = "hybrid_force_motion" →
        ∃ m f,
          cfg_ctrl w' !! "motion_ctrl_axes" = Some (CTensor m) ∧
          cfg_ctrl w' !! "force_ctrl_axes" = Some (CTensor f) ∧
          tshape m = [FactoryBase.num_envs (ex_self "hybrid_force_motion");
                      length (FactoryBase.motion_ctrl_axes b)] ∧
          tshape f = [FactoryBase.num_envs (ex_self "hybrid_force_motion");
                      length (FactoryBase.force_ctrl_axes b)] ∧
          ∀ e i, tat m [e; i] = nth i (FactoryBase.motion_ctrl_axes b) fzero ∧
                 tat f [e; i] = nth i (FactoryBase.force_ctrl_axes b) fzero) ∧
       (FactoryBase.ctrl_type (FactoryBase.cfg_task_ctrl (ex_self "hybrid_force_motion"))
        ≠ "hybrid_force_motion" →
        cfg_ctrl w' !! "motion_ctrl_axes" = Some CNone ∨
        cfg_ctrl w' !! "force_ctrl_axes" = Some CNone)).
Proof.
  apply (both_axis_masks_only_in_hybrid_mode (ex_self "hybrid_force_motion")
           (ex_world (ex_physics ex_body_state 0))).
  apply ex_drive_ready.
Defined.

(** C5 as stated fails: in the mode hybrid_force_motion with a gain bundle
    that marks axis 0 in both lists, the configuration has both masks one
    at axis 0. *)
Lemma hybrid_mode_masks_both_one :
  yields (FactoryBase.parse_controller_spec (ex_self "hybrid_force_motion")
            (ex_world (ex_physics ex_body_state 0)))
    (λ w', ∃ m f,
       cfg_ctrl w' !! "motion_ctrl_axes" = Some (CTensor m) ∧
       cfg_ctrl w' !! "force_ctrl_axes" = Some (CTensor f) ∧
       tat m [0; 0] = 1%R ∧ tat f [0; 0] = 1%R).
Proof.
  eapply yields_mono; [|apply parse_controller_spec_returns, ex_drive_ready].
  intros w' (-> & _).
  assert (FactoryBase.ctrl_type (FactoryBase.cfg_task_ctrl (ex_self "hybrid_force_motion"))
          = "hybrid_force_motion") as Hty by reflexivity.
  eexists _, _. split; [eval_mode Hty; unfold FactoryBase.gains; lookup_chain|].
  split; [eval_mode Hty; unfold FactoryBase.gains; lookup_chain|].
  split; reflexivity.
Qed.

(** The amended C2 at the small scene, with the mode name velocity_control. *)
Lemma unknown_mode_returns_silently_witness :
  ∃ c, FactoryBase.parse_controller_spec (ex_self "velocity_control")
         (ex_world (ex_physics ex_body_state 0))
       = Ok (set_cfg_ctrl c (ex_world (ex_physics ex_body_state 0))) ∧
       (∀ key, key ∈ general_keys → ∃ v, c !! key = Some v ∧ v ≠ CNone) ∧
       (∀ key, key ∈ FactoryBase.cfg_ctrl_keys → key ∉ general_keys →
               c !! key = Some CNone).
Proof.
  apply (unknown_mode_returns_silently (ex_self "velocity_control")
           (ex_world (ex_physics ex_body_state 0))).
  apply ex_unknown_mode.
Defined.

(** C2 as stated fails: with the mode name velocity_control,
    [parse_controller_spec] returns normally; the backend field is [None]
    and the drive properties are as before. *)
Lemma unknown_mode_raises_nothing :
  ∃ w', FactoryBase.parse_controller_spec (ex_self "velocity_control")
          (ex_world (ex_physics ex_body_state 0)) = Ok w' ∧
        cfg_ctrl w' !! "motor_ctrl_mode" = Some CNone ∧
        actor_dof_props w' = actor_dof_props (ex_world (ex_physics ex_body_state 0)).
Proof.
  assert (FactoryBase.build_cfg_ctrl (ex_self "velocity_control") !! "motor_ctrl_mode"
          = Some CNone) as Hm.
  { unfold FactoryBase.build_cfg_ctrl. cbv zeta.
    rewrite mode_entries_unknown by apply ex_unknown_mode.
    unfold FactoryBase.cfg_ctrl_keys. cbn [foldr]. lookup_chain. }
  eexists. split; [by apply parse_unfold_other|]. split; [exact Hm | reflexivity].
Qed.

(** The theorem C3 at the small scene, in the mode gym_default. *)
Lemma native_pd_backend_leaves_second_arm_unconfigured_witness :
  yields (FactoryBase.parse_controller_spec (ex_self "gym_default")
            (ex_world (ex_physics ex_body_state 0)))
    (λ w', ∀ e h,
       (e, h) ∉ zip (FactoryBase.env_ptrs (ex_self "gym_default"))
                  (FactoryBase.franka_handles (ex_self "gym_default")) →
       actor_dof_props w' !! (e, h)
       = actor_dof_props (ex_world (ex_physics ex_body_state 0)) !! (e, h)).
Proof.
  apply (native_pd_backend_leaves_second_arm_unconfigured (ex_self "gym_default")
           (ex_world (ex_physics ex_body_state 0))).
  - reflexivity.
  - apply ex_drive_ready.
Defined.

(** In the small scene, in the mode gym_default, the second arm's actor
    (handle 1) has after [parse_controller_spec] the drive properties it had
    before: drive mode none, and the asset's stiffness and damping. *)
Lemma second_arm_keeps_asset_drive_properties :
  yields (FactoryBase.parse_controller_spec (ex_self "gym_default")
            (ex_world (ex_physics ex_body_state 0)))
    (λ w', actor_dof_props w' !! (0, 1%Z) = Some ex_dofprops ∧
           driveMode ex_dofprops = replicate 9 DOF_MODE_NONE).
Proof.
  destruct (parse_unfold_gym (ex_self "gym_default")
              (ex_world (ex_physics ex_body_state 0)) eq_refl)
    as (pg & dg & Spg & Sdg & ->).
  eapply yields_mono; [|eapply gym_loop_spec; [exact Spg | exact Sdg |]].
  - intros w' (_ & _ & Ho). split; [|reflexivity]. rewrite Ho.
    + cbn [actor_dof_props set_cfg_ctrl ex_world].
      rewrite lookup_insert_ne by done. apply lookup_insert_eq.
    + cbn. rewrite list_elem_of_singleton. by intros [=].
  - apply ex_drive_ready.
Qed.


(** ** The command dispatch *)

Section StoreFrames.
Context {F : Type}.
Implicit Types (w : world F).

Lemma getval_attr n w v :
  getval n w = Ok v → ∃ r, attrs w !! n = Some r ∧ read (heap w) r = Ok v.
Proof.
  unfold getval, getattr. destruct (attrs w !! n) as [r|]; [|done]. eauto.
Qed.

Lemma getval_setattr_ne n dst r w :
  n ≠ dst → getval n (setattr dst r w) = getval n w.
Proof.
  intros Hne. unfold getval, getattr, setattr, set_attrs. cbn [attrs heap].
  by rewrite lookup_insert_ne by congruence.
Qed.

Lemma getval_setattr_eq dst r w :
  getval dst (setattr dst r w) = read (heap w) r.
Proof.
  unfold getval, getattr, setattr, set_attrs. cbn [attrs heap].
  by rewrite lookup_insert_eq.
Qed.

Lemma getval_setnew_ne n dst t w :
  wf_store w → n ≠ dst → is_Ok (getval n w) →
  getval n (setnew dst t w) = getval n w.
Proof.
  intros Hwf Hne [v Hv]. unfold getval, getattr in *.
  unfold setnew, alloc, setattr, set_attrs. cbn [attrs heap].
  rewrite lookup_insert_ne by congruence.
  destruct (attrs w !! n) as [r|]; [|done]. cbn [mbind res_bind] in *.
  unfold read in *. destruct (heap w !! tr_loc r) as [t0|] eqn:Hl; [|done].
  assert (tr_loc r < next_loc w) by (apply Hwf; by rewrite Hl).
  rewrite lookup_insert_ne by lia. by rewrite Hl.
Qed.

Lemma getval_setnew_eq dst t w : getval dst (setnew dst t w) = Ok t.
Proof.
  unfold getval, getattr, setnew, alloc, setattr, set_attrs. cbn [attrs heap].
  rewrite lookup_insert_eq. cbn [mbind res_bind]. unfold read. cbn [tr_loc tr_ops].
  by rewrite lookup_insert_eq.
Qed.

Lemma wf_setattr dst r w : wf_store w → wf_store (setattr dst r w).
Proof. done. Qed.

Lemma wf_setnew dst t w : wf_store w → wf_store (setnew dst t w).
Proof.
  intros Hwf l. unfold setnew, alloc, setattr, set_attrs. cbn [heap next_loc].
  destruct (decide (l = next_loc w)) as [->|Hne]; [lia|].
  rewrite lookup_insert_ne by done. intros Hl%Hwf. lia.
Qed.

Lemma getvals_ok names w :
  readable names w → ∃ vs, FactoryBase.getvals names w = Ok vs.
Proof.
  unfold FactoryBase.getvals. induction names as [|n names IH]; intros Hr.
  - by eexists.
  - destruct (Hr n) as [v Hv]; [by left|].
    destruct IH as [vs Hvs]; [intros m Hm; apply Hr; by right|].
    cbn [mapM]. rewrite Hv. cbn [mbind res_bind]. rewrite Hvs. by eexists.
Qed.

Lemma cval_is_str_eq (s : string) : FactoryBase.cval_is_str (F := F) (CStr s) s = true.
Proof. unfold FactoryBase.cval_is_str. by rewrite bool_decide_eq_true_2. Qed.

Lemma cval_is_str_ne (s s' : string) :
  s ≠ s' → FactoryBase.cval_is_str (F := F) (CStr s) s' = false.
Proof. intros. unfold FactoryBase.cval_is_str. by rewrite bool_decide_eq_false_2. Qed.

Lemma concatenate_rows (a b : tensor F) (E n1 n2 : nat) :
  tshape a = [E; n1] → tshape b = [E; n2] →
  ∃ t, Torch.concatenate a b 1 = Ok t ∧ rows_joined a b t E n1 n2.
Proof.
  destruct a as [sa fa], b as [sb fb]. simpl. intros -> ->.
  unfold Torch.concatenate. cbn [tshape Torch.cat_shape].
  rewrite (decide_True (P := E = E)) by done.
  rewrite (decide_True (P := @nil nat = [])) by done.
  eexists. split; [reflexivity|]. split; [done|].
  split; intros e i He Hi; cbn [tat]; unfold Torch.cat_at; cbn [tshape lookup list_lookup].
  - by replace (i <? n1) with true by (symmetry; apply Nat.ltb_lt; lia).
  - replace (n1 + i <? n1) with false by (symmetry; apply Nat.ltb_ge; lia).
    cbn [list_insert insert]. by replace (n1 + i - n1) with i by lia.
Qed.

End StoreFrames.

Lemma concatenate_ids (a b : tensor Z) (k1 k2 : nat) :
  tshape a = [k1] → tshape b = [k2] →
  ∃ ids, Torch.concatenate a b 0 = Ok ids ∧ ids_joined a b ids k1 k2.
Proof.
  destruct a as [sa fa], b as [sb fb]. simpl. intros -> ->.
  unfold Torch.concatenate. cbn [tshape Torch.cat_shape].
  rewrite (decide_True (P := @nil nat = [])) by done.
  eexists. split; [reflexivity|]. split; [done|].
  split; intros i Hi; cbn [tat]; unfold Torch.cat_at; cbn [tshape lookup list_lookup].
  - by replace (i <? k1) with true by (symmetry; apply Nat.ltb_lt; lia).
  - replace (k1 + i <? k1) with false by (symmetry; apply Nat.ltb_ge; lia).
    cbn [list_insert insert]. by replace (k1 + i - k1) with i by lia.
Qed.


Section DispatchSpec.
Context {F : Type} `{Scalar F}.
Implicit Types (w : world F).

(** With the geometric Jacobian, the two [_tf] attributes become aliases of
    the two fingertip-midpoint Jacobians; every input of the torque laws is
    then readable. *)
Lemma geometric_aliases w :
  wf_store w → readable dispatch_inputs w →
  ∃ w2,
    (w1 ← alias_attr "fingertip_midpoint_jacobian_tf" "fingertip_midpoint_jacobian" w;
     alias_attr "fingertip_midpoint_jacobian_tf_2" "fingertip_midpoint_jacobian_2" w1)
    = Ok w2 ∧
    wf_store w2 ∧ cfg_ctrl w2 = cfg_ctrl w ∧ gym_log w2 = gym_log w ∧
    readable torque_args w2 ∧ readable torque_args_2 w2.
Proof.
  intros Hwf Hr.
  destruct (Hr "fingertip_midpoint_jacobian") as [j1 Hj1]; [unfold dispatch_inputs; mem|].
  destruct (Hr "fingertip_midpoint_jacobian_2") as [j2 Hj2]; [unfold dispatch_inputs; mem|].
  destruct (getval_attr _ _ _ Hj1) as (r1 & Ha1 & Hread1).
  destruct (getval_attr _ _ _ Hj2) as (r2 & Ha2 & Hread2).
  unfold alias_attr, getattr. rewrite Ha1. cbn [mbind res_bind].
  cbn [attrs setattr set_attrs]. rewrite lookup_insert_ne by done. rewrite Ha2.
  cbn [mbind res_bind]. eexists. split; [reflexivity|].
  split; [exact Hwf|]. split; [reflexivity|]. split; [reflexivity|].
  split; intros n Hn; [unfold torque_args in Hn | unfold torque_args_2 in Hn];
    repeat (apply elem_of_cons in Hn as [-> | Hn]);
    try (by apply elem_of_nil in Hn);
    first
      [ rewrite !getval_setattr_ne by done; apply Hr; unfold dispatch_inputs; mem
      | rewrite getval_setattr_ne by done; rewrite getval_setattr_eq, Hread1; by eexists
      | rewrite getval_setattr_eq;
        change (is_Ok (read (heap w) r2)); rewrite Hread2; by eexists ].
Qed.

Lemma torque_args_2_not_dof_torque n : n ∈ torque_args_2 → n ≠ "dof_torque".
Proof.
  unfold torque_args_2. intros Hn.
  repeat (apply elem_of_cons in Hn as [-> | Hn]); try done.
  by apply elem_of_nil in Hn.
Qed.

(** C7. In manual mode (with the geometric Jacobian), whatever torques of
    shapes (E, n1) and (E, n2) the two arms' control laws return, the
    dispatcher issues exactly one indexed actuation write: its forces have
    shape (E, n1 + n2), with arm 1's torques in the columns i < n1 and arm
    2's in the columns n1 + j, and its actor ids are arm 1's ids followed by
    arm 2's, with the count of both. *)
Theorem manual_dispatch_concatenates_arm_torques
    (self : FactoryBase.instance F)
    (compute_dof_torque compute_dof_torque_2 compute_dof_pos_target
       : gmap string (cval F) → list (tensor F) → res (tensor F))
    (get_analytic_jacobian : tensor F → tensor F → nat → res (tensor F))
    w (E n1 n2 k1 k2 : nat) :
  cfg_ctrl w !! "jacobian_type" = Some (CStr "geometric") →
  cfg_ctrl w !! "motor_ctrl_mode" = Some (CStr "manual") →
  wf_store w →
  readable dispatch_inputs w →
  (∀ c a, ∃ t, compute_dof_torque c a = Ok t ∧ tshape t = [E; n1]) →
  (∀ c a, ∃ t, compute_dof_torque_2 c a = Ok t ∧ tshape t = [E; n2]) →
  tshape (FactoryBase.franka_actor_ids_sim self) = [k1] →
  tshape (FactoryBase.franka_actor_ids_sim_2 self) = [k2] →
  yields (FactoryBase.generate_ctrl_signals self compute_dof_torque compute_dof_torque_2
            compute_dof_pos_target get_analytic_jacobian w)
    (λ w', ∃ a1 a2 t1 t2 t ids,
       compute_dof_torque (cfg_ctrl w) a1 = Ok t1 ∧
       compute_dof_torque_2 (cfg_ctrl w) a2 = Ok t2 ∧
       rows_joined t1 t2 t E n1 n2 ∧
       ids_joined (FactoryBase.franka_actor_ids_sim self)
         (FactoryBase.franka_actor_ids_sim_2 self) ids k1 k2 ∧
       gym_log w'
       = gym_log w ++ [set_dof_actuation_force_tensor_indexed t ids (k1 + k2)]).
Proof.
  intros Hjt Hmode Hwf Hr Hlaw1 Hlaw2 Hk1 Hk2.
  destruct (geometric_aliases w Hwf Hr) as (w2 & Hal & Hwf2 & Hc2 & Hg2 & Hr1 & Hr2).
  unfold FactoryBase.generate_ctrl_signals, FactoryBase.cfg_item.
  rewrite Hjt. cbn [mbind res_bind]. rewrite cval_is_str_eq.
  rewrite Hal. cbn [mbind res_bind]. rewrite Hc2, Hmode. cbn [mbind res_bind].
  rewrite cval_is_str_ne by done. rewrite cval_is_str_eq.
  (* _set_dof_torque *)
  unfold FactoryBase._set_dof_torque.
  destruct (getvals_ok _ _ Hr1) as [a1 Ha1]. unfold torque_args in Ha1.
  rewrite Ha1. cbn [mbind res_bind].
  destruct (Hlaw1 (cfg_ctrl w2) a1) as (t1 & Ht1 & St1). rewrite Ht1.
  cbn [mbind res_bind].
  (* _set_dof_torque_2 *)
  assert (wf_store (setnew "dof_torque" t1 w2)) as Hwf3 by (by apply wf_setnew).
  assert (readable torque_args_2 (setnew "dof_torque" t1 w2)) as Hr3.
  { intros n Hn. rewrite getval_setnew_ne; [by apply Hr2 | done | | by apply Hr2].
    by apply torque_args_2_not_dof_torque. }
  unfold FactoryBase._set_dof_torque_2.
  destruct (getvals_ok _ _ Hr3) as [a2 Ha2]. unfold torque_args_2 in Ha2.
  rewrite Ha2. cbn [mbind res_bind].
  destruct (Hlaw2 (cfg_ctrl (setnew "dof_torque" t1 w2)) a2) as (t2 & Ht2 & St2).
  rewrite Ht2. cbn [mbind res_bind].
  (* torch.cat *)
  rewrite (getval_setnew_ne "dof_torque" "dof_torque_2");
    [ | exact Hwf3 | done | rewrite getval_setnew_eq; by eexists ].
  rewrite !getval_setnew_eq. cbn [mbind res_bind].
  destruct (concatenate_rows t1 t2 E n1 n2 St1 St2) as (t & Ht & Hrows).
  rewrite Ht. cbn [mbind res_bind].
  (* _wrap_tensor *)
  unfold FactoryBase._wrap_tensor.
  destruct (concatenate_ids _ _ k1 k2 Hk1 Hk2) as (ids & Hids & Hj).
  rewrite Hids. cbn [mbind res_bind]. rewrite getval_setnew_eq.
  cbn [mbind res_bind yields].
  exists a1, a2, t1, t2, t, ids.
  split; [by rewrite <- Hc2|]. split; [rewrite <- Hc2; exact Ht2|].
  split; [done|]. split; [done|].
  destruct Hj as [Sids _]. rewrite Sids. cbn [lookup list_lookup default from_option].
  unfold log_call, setnew, alloc, setattr, set_attrs. cbn [gym_log].
  by rewrite Hg2.
Qed.

End DispatchSpec.

(** ** The dispatch at a small example *)

Lemma alist_find_const {V} (n : string) (l : list string) (v : V) :
  n ∈ l → alist_find n ((λ k, (k, v)) <$> l) = Some v.
Proof.
  induction l as [|k l IH]; [by intros ?%elem_of_nil|].
  intros Hn. cbn [fmap list_fmap alist_find fst snd].
  destruct (String.eqb_spec k n) as [->|Hne]; [done|].
  apply IH. apply elem_of_cons in Hn as [->|Hn]; done.
Qed.

Lemma ex_dispatch_readable : readable dispatch_inputs ex_dispatch_world.
Proof.
  intros n Hn. exists (Torch.full [1; 1] 0%R).
  unfold getval, getattr. cbn [attrs ex_dispatch_world].
  rewrite (ins_all_lookup n _ _ (TRef 0 [])) by (by apply alist_find_const).
  cbn [mbind res_bind]. unfold read. cbn [tr_loc tr_ops heap ex_dispatch_world].
  by rewrite lookup_insert_eq.
Qed.

Lemma ex_dispatch_wf : wf_store ex_dispatch_world.
Proof.
  intros l [x Hl]. cbn [heap next_loc ex_dispatch_world] in *.
  destruct l as [|l]; [lia|]. by rewrite lookup_insert_ne, lookup_empty in Hl.
Qed.

(** C7 at the small example: both laws return a row of 9 torques, arm 1
    all ones and arm 2 all twos. *)
Lemma manual_dispatch_concatenates_arm_torques_witness :
  yields (FactoryBase.generate_ctrl_signals (ex_self "joint_space_id")
            (λ _ _, Ok (Torch.full [1; 9] 1%R)) (λ _ _, Ok (Torch.full [1; 9] 2%R))
            (λ _ _, Raise RuntimeError) (λ _ _ _, Raise RuntimeError)
            ex_dispatch_world)
    (λ w', ∃ (a1 a2 : list (tensor R)) t1 t2 t ids,
       Ok (Torch.full [1; 9] 1%R) = Ok t1 ∧
       Ok (Torch.full [1; 9] 2%R) = Ok t2 ∧
       rows_joined t1 t2 t 1 9 9 ∧
       ids_joined (FactoryBase.franka_actor_ids_sim (ex_self "joint_space_id"))
         (FactoryBase.franka_actor_ids_sim_2 (ex_self "joint_space_id")) ids 1 1 ∧
       gym_log w'
       = gym_log ex_dispatch_world
         ++ [set_dof_actuation_force_tensor_indexed t ids (1 + 1)]).
Proof.
  apply (manual_dispatch_concatenates_arm_torques (ex_self "joint_space_id")
           (λ _ _, Ok (Torch.full [1; 9] 1%R)) (λ _ _, Ok (Torch.full [1; 9] 2%R))
           (λ _ _, Raise RuntimeError) (λ _ _ _, Raise RuntimeError)
           ex_dispatch_world 1 9 9 1 1).
  - cbn [cfg_ctrl ex_dispatch_world]. rewrite lookup_insert_ne by done.
    apply lookup_insert_eq.
  - apply lookup_insert_eq.
  - apply ex_dispatch_wf.
  - apply ex_dispatch_readable.
  - intros c a. by eexists.
  - intros c a. by eexists.
  - reflexivity.
  - reflexivity.
Defined.


(** ** The rotation targets of [_apply_actions_as_ctrl_targets] *)

Section RotationRows.
Context {F : Type} `{Scalar F}.

(** An operation on a matrix and a column, broadcast along the rows. *)
Lemma map2_col {A B C} (f : A → B → C) (a : tensor A) (b : tensor B) (E n : nat) :
  tshape a = [E; n] → tshape b = [E; 1] →
  ∃ c, Torch.map2 f a b = Ok c ∧ tshape c = [E; n] ∧
       ∀ e k, e < E → k < n → tat c [e; k] = f (tat a [e; k]) (tat b [e; 0]).
Proof.
  intros Ha Hb. unfold Torch.map2. rewrite Ha, Hb, bshape_col_r, bind_Ok.
  eexists. split; [reflexivity|]. split; [reflexivity|]. intros e k He Hk.
  cbn [tat]. rewrite bsrc_in_range by (by apply in_range_2). by rewrite bsrc_col.
Qed.

Lemma norm_last_rows (t : tensor F) (E n : nat) :
  tshape t = [E; n] →
  ∃ a, Torch.norm_last t = Ok a ∧ tshape a = [E] ∧
       ∀ e, tat a [e] = fnorm2 ((λ j, tat t [e; j]) <$> seq 0 n).
Proof.
  intros Ht. unfold Torch.norm_last. rewrite Ht. cbn [reverse rev_append].
  eexists. split; [reflexivity|]. split; [reflexivity|]. intros e. reflexivity.
Qed.

Lemma normalize_rows (x : tensor F) (E n : nat) :
  tshape x = [E; n] →
  ∃ y, TorchUtils.normalize x = Ok y ∧ tshape y = [E; n] ∧
       ∀ e k, e < E → k < n → tat y [e; k] = normalize_at n (λ i, tat x [e; i]) k.
Proof.
  intros Hx. unfold TorchUtils.normalize.
  destruct (norm_last_rows x E n Hx) as (a & -> & Sa & Va). rewrite bind_Ok.
  destruct (map2_col fdiv x
              (Torch.unsqueeze_last (Torch.map1 (λ v, fclamp_min v feps) a)) E n)
    as (y & Hy & Sy & Vy); [done | by cbn [tshape Torch.unsqueeze_last Torch.map1]; rewrite Sa |].
  exists y. split; [exact Hy|]. split; [exact Sy|]. intros e k He Hk.
  rewrite Vy by done. unfold normalize_at.
  cbn [tat Torch.unsqueeze_last Torch.map1 tshape]. rewrite Sa. cbn [length take].
  by rewrite Va.
Qed.

Lemma quat_from_angle_axis_at_ext (angle : F) (axis axis' : nat → F) (k : nat) :
  (∀ i, i < 3 → axis i = axis' i) →
  quat_from_angle_axis_at angle axis k = quat_from_angle_axis_at angle axis' k.
Proof.
  intros Hext. unfold quat_from_angle_axis_at, normalize_at. cbv zeta.
  cbn [fmap list_fmap seq].
  change (0 <? 3) with true. change (1 <? 3) with true. change (2 <? 3) with true.
  change (3 <? 3) with false. cbv iota.
  rewrite !(Hext 0), !(Hext 1), !(Hext 2) by lia.
  destruct (Nat.ltb_spec k 3); [|done]. by rewrite (Hext k).
Qed.

Lemma quat_from_angle_axis_rows (angle axis : tensor F) (E : nat) :
  tshape angle = [E] → tshape axis = [E; 3] →
  ∃ q, TorchUtils.quat_from_angle_axis angle axis = Ok q ∧ tshape q = [E; 4] ∧
       ∀ e k, e < E → k < 4 →
         tat q [e; k]
         = quat_from_angle_axis_at (tat angle [e]) (λ i, tat axis [e; i]) k.
Proof.
  intros Ha Hx. unfold TorchUtils.quat_from_angle_axis. cbv zeta.
  destruct (normalize_rows axis E 3 Hx) as (n & -> & Sn & Vn). rewrite bind_Ok.
  set (theta := Torch.unsqueeze_last (Torch.div_scalar angle ftwo)).
  assert (tshape theta = [E; 1]) as St
    by (subst theta; cbn [tshape Torch.unsqueeze_last Torch.div_scalar Torch.map1];
        by rewrite Ha).
  assert (∀ e j, tat theta [e; j] = fdiv (tat angle [e]) ftwo) as Vt.
  { intros e j. subst theta.
    cbn [tat tshape Torch.unsqueeze_last Torch.div_scalar Torch.map1].
    rewrite Ha. reflexivity. }
  destruct (map2_col fmul n (Torch.map1 fsin theta) E 3) as (xyz & Hxyz & Sxyz & Vxyz);
    [done | done |].
  unfold Torch.mul. rewrite Hxyz, bind_Ok. rewrite Sxyz. cbn [length Nat.sub].
  destruct (concatenate_rows xyz (Torch.map1 fcos theta) E 3 1 Sxyz St)
    as (q0 & -> & Sq0 & Vl & Vr).
  rewrite bind_Ok. unfold TorchUtils.quat_unit.
  destruct (normalize_rows q0 E (3 + 1) Sq0) as (q & Hq & Sq & Vq).
  exists q. split; [exact Hq|]. split; [exact Sq|]. intros e k He Hk.
  rewrite Vq by (cbn; lia). unfold quat_from_angle_axis_at. cbv zeta.
  assert (∀ i, i < 4 →
            tat q0 [e; i]
            = if i <? 3
              then fmul (normalize_at 3 (λ i0, tat axis [e; i0]) i)
                        (fsin (fdiv (tat angle [e]) ftwo))
              else fcos (fdiv (tat angle [e]) ftwo)) as Vq0.
  { intros i Hi. destruct (Nat.ltb_spec i 3) as [Hlt|Hge].
    - rewrite Vl, Vxyz, Vn by done. cbn [tat Torch.map1]. by rewrite Vt.
    - assert (i = 3 + 0) as -> by lia. rewrite Vr by lia.
      cbn [tat Torch.map1]. by rewrite Vt. }
  unfold normalize_at. cbn [Nat.add]. rewrite Vq0 by done. f_equal. f_equal. f_equal.
  apply list_fmap_ext. intros ? i Hi. apply Vq0.
  apply list_elem_of_lookup_2, elem_of_seq in Hi. lia.
Qed.

Lemma where_rows (c : tensor bool) (a b : tensor F) (sh : list nat) :
  tshape c = sh → tshape a = sh → tshape b = sh →
  ∃ r, Torch.where_ c a b = Ok r ∧ tshape r = sh ∧
       ∀ idx, in_range idx sh → tat r idx = if tat c idx then tat a idx else tat b idx.
Proof.
  destruct c as [sc fc], a as [sa fa], b as [sb fb]. simpl. intros -> -> ->.
  unfold Torch.where_. rewrite (map2_same pair) by done. rewrite bind_Ok.
  rewrite map2_same by done. eexists. split; [reflexivity|]. cbn [tshape tat].
  split; [done|]. intros idx Hr. by rewrite !bsrc_in_range.
Qed.

(** The incremental rotation, row by row. *)
Lemma rot_actions_quat_rows (self : FactoryBase.instance F) (ra : tensor F) (E : nat) :
  tshape ra = [E; 3] → FactoryBase.num_envs self = E →
  ∃ q, FactoryTask.rot_actions_quat self ra = Ok q ∧ tshape q = [E; 4] ∧
       ∀ e k, e < E → k < 4 →
         tat q [e; k]
         = rot_actions_quat_at
             (FactoryBase.clamp_rot (FactoryBase.cfg_task_rl self))
             (FactoryBase.clamp_rot_thresh (FactoryBase.cfg_task_rl self))
             (λ i, tat ra [e; i]) k.
Proof.
  intros Hr HE. unfold FactoryTask.rot_actions_quat.
  destruct (norm_last_rows ra E 3 Hr) as (angle & -> & Sa & Va). rewrite bind_Ok.
  destruct (map2_col fdiv ra (Torch.unsqueeze_last angle) E 3) as (axis & Hax & Sax & Vax);
    [done | by cbn [tshape Torch.unsqueeze_last]; rewrite Sa |].
  unfold Torch.div. rewrite Hax, bind_Ok.
  destruct (quat_from_angle_axis_rows angle axis E Sa Sax) as (q & -> & Sq & Vq).
  rewrite bind_Ok.
  assert (∀ e k, e < E → k < 4 →
            tat q [e; k]
            = quat_from_angle_axis_at (fnorm2 ((λ i, tat ra [e; i]) <$> seq 0 3))
                (λ i, fdiv (tat ra [e; i]) (fnorm2 ((λ i, tat ra [e; i]) <$> seq 0 3))) k)
    as Vq'.
  { intros e k He Hk. rewrite Vq by done. rewrite Va.
    apply quat_from_angle_axis_at_ext. intros i Hi. rewrite Vax by done.
    cbn [tat Torch.unsqueeze_last tshape]. rewrite Sa. cbn [length take].
    by rewrite Va. }
  unfold rot_actions_quat_at.
  destruct (FactoryBase.clamp_rot (FactoryBase.cfg_task_rl self)).
  - unfold Torch.repeat_cols. cbn [tshape Torch.unsqueeze_last]. rewrite Sa. cbn [app].
    rewrite bind_Ok. unfold FactoryTask.identity_quats, Torch.repeat_rows, Torch.of_list.
    cbn [tshape length]. rewrite HE, bind_Ok.
    match goal with
    | |- ∃ _, Torch.where_ ?c ?a ?b = _ ∧ _ =>
        destruct (where_rows c a b [E; 4]) as (r & -> & Sr & Vr); [done..|]
    end.
    exists r. split; [done|]. split; [done|]. intros e k He Hk.
    rewrite Vr by (by apply in_range_2).
    unfold Torch.gt_scalar, Torch.map1. cbn [tat]. rewrite Nat.mod_1_r.
    unfold Torch.unsqueeze_last. cbn [tat]. rewrite Sa. cbn [length take].
    rewrite Va. cbv zeta.
    destruct (fgtb _ _); [by apply Vq'|]. cbn [drop nth]. reflexivity.
  - exists q. split; [done|]. split; [done|]. intros e k He Hk. cbv zeta. by apply Vq'.
Qed.

Lemma quat_mul_rows (a b : tensor F) (E : nat) :
  tshape a = [E; 4] → tshape b = [E; 4] →
  ∃ t, TorchUtils.quat_mul a b = Ok t ∧ tshape t = [E; 4] ∧
       ∀ e k, k < 4 →
         tat t [e; k] = quat_mul_at (λ i, tat a [e; i]) (λ i, tat b [e; i]) k.
Proof.
  intros Ha Hb. unfold TorchUtils.quat_mul.
  rewrite decide_True by congruence.
  rewrite decide_True by (unfold TorchUtils.last_dim; by rewrite Ha).
  eexists. split; [reflexivity|]. split; [exact Ha|]. intros e k Hk.
  cbn [tat]. unfold TorchUtils.comp, quat_mul_at. cbv zeta.
  cbn [length Nat.sub list_insert insert last].
  destruct k as [|[|[|[|k]]]]; try lia; reflexivity.
Qed.

Lemma scaled_rows (do_scale : bool) (scale : list F) (x : tensor F) (E : nat) :
  tshape x = [E; 3] → (do_scale = true → length scale = 3) →
  ∃ y, FactoryTask.scaled do_scale scale x = Ok y ∧ tshape y = [E; 3].
Proof.
  intros Hx Hs. unfold FactoryTask.scaled. destruct do_scale; [|by eexists].
  unfold Torch.diag, Torch.of_list. cbn [tshape]. rewrite bind_Ok.
  unfold Torch.matmul. cbn [tshape]. rewrite Hx, Hs by done.
  rewrite decide_True by done. by eexists.
Qed.

Lemma action_columns (actions : tensor F) (E lo : nat) :
  tshape actions = [E; 24] → lo + 3 ≤ 24 →
  ∃ a, Torch.getitem actions [IAll; ISlice lo (lo + 3)] = Ok a ∧ tshape a = [E; 3] ∧
       ∀ e k, tat a [e; k] = tat actions [e; lo + k].
Proof.
  intros Ha Hlo.
  rewrite (getitem_ok actions _ [E; 3]).
  - eexists. split; [reflexivity|]. split; [reflexivity|]. intros e k. cbn [tat].
    rewrite Ha. cbn [Torch.ix_src]. by rewrite Nat.min_l by lia.
  - rewrite Ha. cbn [Torch.ix_shape]. rewrite !fmap_Ok.
    rewrite !Nat.min_l by lia. by replace (lo + 3 - lo) with 3 by lia.
Qed.

End RotationRows.


(** ** [_apply_actions_as_ctrl_targets], statement by statement *)

Section TargetsSpec.
Context {F : Type} `{Scalar F}.
Implicit Types (w : world F).

Lemma keeps_others_refl names w : wf_store w → keeps_others names w w.
Proof. by repeat split. Qed.

Lemma keeps_others_setnew names dst (t : tensor F) w w' :
  keeps_others names w w' → dst ∈ names → keeps_others names w (setnew dst t w').
Proof.
  intros (Hwf & Hc & Hg & Hp & Hk) Hd. split; [by apply wf_setnew|].
  split; [done|]. split; [done|]. split; [done|]. intros n v Hn Hv.
  rewrite getval_setnew_ne; [by apply Hk | done | | ].
  - intros ->. done.
  - exists v. by apply Hk.
Qed.

Lemma keeps_others_mono names names' w w' :
  (∀ n, n ∈ names → n ∈ names') → keeps_others names w w' → keeps_others names' w w'.
Proof.
  intros Hsub (Hwf & Hc & Hg & Hp & Hk). repeat split; try done.
  intros n v Hn. apply Hk. intros Hin. apply Hn, Hsub, Hin.
Qed.

Lemma add_ok (a b : tensor F) sh :
  tshape a = sh → tshape b = sh → ∃ s, Torch.add a b = Ok s ∧ tshape s = sh.
Proof.
  intros Ha Hb. unfold Torch.add. rewrite map2_same by congruence. by eexists.
Qed.

(** The wrench targets, set under force control only. *)
Lemma wrench_targets_spec (self : FactoryBase.instance F) (actions : tensor F)
    (do_scale b : bool) (E : nat) (names : list string) w0 w :
  tshape actions = [E; 24] →
  "ctrl_target_fingertip_contact_wrench" ∈ names →
  "second_ctrl_target_fingertip_contact_wrench" ∈ names →
  (do_scale = true →
   length (FactoryBase.force_action_scale (FactoryBase.cfg_task_rl self)) = 3 ∧
   length (FactoryBase.torque_action_scale (FactoryBase.cfg_task_rl self)) = 3) →
  keeps_others names w0 w →
  yields
    (if b then
       force_actions ← Torch.getitem actions [IAll; ISlice 6 9];
       second_force_actions ← Torch.getitem actions [IAll; ISlice 18 21];
       force_actions ←
         FactoryTask.scaled do_scale
           (FactoryBase.force_action_scale (FactoryBase.cfg_task_rl self)) force_actions;
       second_force_actions ←
         FactoryTask.scaled do_scale
           (FactoryBase.force_action_scale (FactoryBase.cfg_task_rl self))
           second_force_actions;
       torque_actions ← Torch.getitem actions [IAll; ISlice 9 12];
       second_torque_actions ← Torch.getitem actions [IAll; ISlice 21 24];
       torque_actions ←
         FactoryTask.scaled do_scale
           (FactoryBase.torque_action_scale (FactoryBase.cfg_task_rl self)) torque_actions;
       second_torque_actions ←
         FactoryTask.scaled do_scale
           (FactoryBase.torque_action_scale (FactoryBase.cfg_task_rl self))
           second_torque_actions;
       t ← Torch.concatenate force_actions torque_actions 1;
       t' ← Torch.concatenate second_force_actions second_torque_actions 1;
       Ok (setnew "second_ctrl_target_fingertip_contact_wrench" t'
             (setnew "ctrl_target_fingertip_contact_wrench" t w))
     else Ok w)
    (keeps_others names w0).
Proof.
  intros Hact Hn1 Hn2 Hsc Hk. destruct b; [|done].
  destruct (action_columns actions E 6 Hact) as (f1 & Hf1 & Sf1 & _); [lia|].
  destruct (action_columns actions E 18 Hact) as (f2 & Hf2 & Sf2 & _); [lia|].
  destruct (action_columns actions E 9 Hact) as (t1 & Ht1 & St1 & _); [lia|].
  destruct (action_columns actions E 21 Hact) as (t2 & Ht2 & St2 & _); [lia|].
  cbn [Nat.add] in Hf1, Hf2, Ht1, Ht2.
  rewrite Hf1, bind_Ok, Hf2, bind_Ok.
  destruct (scaled_rows do_scale
              (FactoryBase.force_action_scale (FactoryBase.cfg_task_rl self)) f1 E Sf1)
    as (f1' & -> & Sf1'); [intros Hd; by destruct (Hsc Hd)|]. rewrite bind_Ok.
  destruct (scaled_rows do_scale
              (FactoryBase.force_action_scale (FactoryBase.cfg_task_rl self)) f2 E Sf2)
    as (f2' & -> & Sf2'); [intros Hd; by destruct (Hsc Hd)|]. rewrite bind_Ok.
  rewrite Ht1, bind_Ok, Ht2, bind_Ok.
  destruct (scaled_rows do_scale
              (FactoryBase.torque_action_scale (FactoryBase.cfg_task_rl self)) t1 E St1)
    as (t1' & -> & St1'); [intros Hd; by destruct (Hsc Hd)|]. rewrite bind_Ok.
  destruct (scaled_rows do_scale
              (FactoryBase.torque_action_scale (FactoryBase.cfg_task_rl self)) t2 E St2)
    as (t2' & -> & St2'); [intros Hd; by destruct (Hsc Hd)|]. rewrite bind_Ok.
  destruct (concatenate_rows f1' t1' E 3 3 Sf1' St1') as (c1 & -> & _). rewrite bind_Ok.
  destruct (concatenate_rows f2' t2' E 3 3 Sf2' St2') as (c2 & -> & _). rewrite bind_Ok.
  cbn [yields]. by do 2 (apply keeps_others_setnew; [|done]).
Qed.

Lemma getval_kept names n (v : tensor F) w w' :
  keeps_others names w w' → bool_decide (n ∈ names) = false → getval n w = Ok v →
  getval n w' = Ok v.
Proof.
  intros (_ & _ & _ & _ & Hk) Hn. apply Hk. by apply (bool_decide_eq_false_1 _).
Qed.

(** The targets of both arms: what the method reads, what it stores, and
    that it returns. *)
Lemma ctrl_targets_spec (self : FactoryBase.instance F) (actions : tensor F) (g : F)
    (do_scale : bool) (E : nat) w :
  action_inputs self actions do_scale w E →
  yields (FactoryTask.ctrl_targets_of_actions self actions g do_scale w)
    (λ w',
       keeps_others target_names w w' ∧
       (∃ pa cur tgt,
          position_target self actions do_scale w w' E 0 "fingertip_midpoint_pos"
            "ctrl_target_fingertip_midpoint_pos" pa cur tgt) ∧
       (∃ pa cur tgt,
          position_target self actions do_scale w w' E 12 "second_fingertip_midpoint_pos"
            "second_ctrl_target_fingertip_midpoint_pos" pa cur tgt) ∧
       (∃ ra q cur tgt,
          rotation_target self actions do_scale w w' E 3 "fingertip_midpoint_quat"
            "ctrl_target_fingertip_midpoint_quat" ra q cur tgt) ∧
       (∃ ra q cur tgt,
          rotation_target self actions do_scale w w' E 15 "second_fingertip_midpoint_quat"
            "second_ctrl_target_fingertip_midpoint_quat" ra q cur tgt)).
Proof.
  intros [Hact HE Hsc (p & Gp & Sp) (p2 & Gp2 & Sp2) (c & Gc & Sc) (c2 & Gc2 & Sc2)
            (fv & fb & Hfv & Hfb) Hwf].
  cbv zeta in Hsc.
  destruct (action_columns actions E 0 Hact) as (a0 & Ha0 & Sa0 & _); [lia|].
  destruct (action_columns actions E 12 Hact) as (a12 & Ha12 & Sa12 & _); [lia|].
  destruct (action_columns actions E 3 Hact) as (a3 & Ha3 & Sa3 & _); [lia|].
  destruct (action_columns actions E 15 Hact) as (a15 & Ha15 & Sa15 & _); [lia|].
  destruct (scaled_rows do_scale
              (FactoryBase.pos_action_scale (FactoryBase.cfg_task_rl self)) a0 E Sa0)
    as (pa & Hpa & Spa); [intros Hd; by destruct (Hsc Hd) as (? & ? & ? & ?)|].
  destruct (scaled_rows do_scale
              (FactoryBase.pos_action_scale (FactoryBase.cfg_task_rl self)) a12 E Sa12)
    as (pa2 & Hpa2 & Spa2); [intros Hd; by destruct (Hsc Hd) as (? & ? & ? & ?)|].
  destruct (scaled_rows do_scale
              (FactoryBase.rot_action_scale (FactoryBase.cfg_task_rl self)) a3 E Sa3)
    as (ra & Hra & Sra); [intros Hd; by destruct (Hsc Hd) as (? & ? & ? & ?)|].
  destruct (scaled_rows do_scale
              (FactoryBase.rot_action_scale (FactoryBase.cfg_task_rl self)) a15 E Sa15)
    as (ra2 & Hra2 & Sra2); [intros Hd; by destruct (Hsc Hd) as (? & ? & ? & ?)|].
  destruct (add_ok p pa [E; 3] Sp Spa) as (tp & Htp & Stp).
  destruct (add_ok p2 pa2 [E; 3] Sp2 Spa2) as (tp2 & Htp2 & Stp2).
  destruct (rot_actions_quat_rows self ra E Sra HE) as (q & Hq & Sq & _).
  destruct (rot_actions_quat_rows self ra2 E Sra2 HE) as (q2 & Hq2 & Sq2 & _).
  destruct (quat_mul_rows q c E Sq Sc) as (tq & Htq & Stq & _).
  destruct (quat_mul_rows q2 c2 E Sq2 Sc2) as (tq2 & Htq2 & Stq2 & _).
  set (w1 := setnew "ctrl_target_fingertip_midpoint_pos" tp w).
  set (w2 := setnew "second_ctrl_target_fingertip_midpoint_pos" tp2 w1).
  set (w3 := setnew "ctrl_target_fingertip_midpoint_quat" tq w2).
  set (w4 := setnew "second_ctrl_target_fingertip_midpoint_quat" tq2 w3).
  assert (K1 : keeps_others target_names w w1).
  { apply keeps_others_setnew; [by apply keeps_others_refl | unfold target_names; mem]. }
  assert (K2 : keeps_others target_names w w2).
  { apply keeps_others_setnew; [done | unfold target_names; mem]. }
  assert (K3 : keeps_others target_names w w3).
  { apply keeps_others_setnew; [done | unfold target_names; mem]. }
  assert (K4 : keeps_others target_names w w4).
  { apply keeps_others_setnew; [done | unfold target_names; mem]. }
  pose proof (getval_kept _ "second_fingertip_midpoint_pos" _ _ _ K1 eq_refl Gp2) as Gp2'.
  pose proof (getval_kept _ "fingertip_midpoint_quat" _ _ _ K2 eq_refl Gc) as Gc'.
  pose proof (getval_kept _ "second_fingertip_midpoint_quat" _ _ _ K3 eq_refl Gc2) as Gc2'.
  cbn [Nat.add] in Ha0, Ha12, Ha3, Ha15.
  unfold FactoryTask.ctrl_targets_of_actions. cbv zeta.
  rewrite Ha0, bind_Ok, Hpa, bind_Ok, Gp, bind_Ok, Htp, bind_Ok. fold w1.
  rewrite Ha12, bind_Ok, Hpa2, bind_Ok, Gp2', bind_Ok, Htp2, bind_Ok. fold w2.
  rewrite Ha3, bind_Ok, Hra, bind_Ok, Ha15, bind_Ok, Hra2, bind_Ok.
  rewrite Hq, bind_Ok, Gc', bind_Ok, Htq, bind_Ok. fold w3.
  rewrite Hq2, bind_Ok, Gc2', bind_Ok, Htq2, bind_Ok. fold w4.
  assert (Hcfg : FactoryBase.cfg_item "do_force_ctrl" w4 = Ok fv).
  { unfold FactoryBase.cfg_item. destruct K4 as (_ & -> & _). by rewrite Hfv. }
  rewrite Hcfg, bind_Ok, Hfb, bind_Ok.
  apply yields_bind.
  assert (Hsc' : do_scale = true →
            length (FactoryBase.force_action_scale (FactoryBase.cfg_task_rl self)) = 3 ∧
            length (FactoryBase.torque_action_scale (FactoryBase.cfg_task_rl self)) = 3).
  { intros Hd. by destruct (Hsc Hd) as (? & ? & ? & ?). }
  assert (W1 : wf_store w1) by apply K1.
  assert (W2 : wf_store w2) by apply K2.
  assert (W3 : wf_store w3) by apply K3.
  assert (W4 : wf_store w4) by apply K4.
  pose (rest1 := ["second_ctrl_target_fingertip_midpoint_pos";
                  "ctrl_target_fingertip_midpoint_quat";
                  "second_ctrl_target_fingertip_midpoint_quat";
                  "ctrl_target_fingertip_contact_wrench";
                  "second_ctrl_target_fingertip_contact_wrench";
                  "ctrl_target_gripper_dof_pos"; "second_ctrl_target_gripper_dof_pos"]).
  pose (rest2 := ["ctrl_target_fingertip_midpoint_quat";
                  "second_ctrl_target_fingertip_midpoint_quat";
                  "ctrl_target_fingertip_contact_wrench";
                  "second_ctrl_target_fingertip_contact_wrench";
                  "ctrl_target_gripper_dof_pos"; "second_ctrl_target_gripper_dof_pos"]).
  pose (rest3 := ["second_ctrl_target_fingertip_midpoint_quat";
                  "ctrl_target_fingertip_contact_wrench";
                  "second_ctrl_target_fingertip_contact_wrench";
                  "ctrl_target_gripper_dof_pos"; "second_ctrl_target_gripper_dof_pos"]).
  pose (rest4 := ["ctrl_target_fingertip_contact_wrench";
                  "second_ctrl_target_fingertip_contact_wrench";
                  "ctrl_target_gripper_dof_pos"; "second_ctrl_target_gripper_dof_pos"]).
  assert (L1 : keeps_others rest1 w1 w4).
  { do 3 (apply keeps_others_setnew; [|unfold rest1; mem]). by apply keeps_others_refl. }
  assert (L2 : keeps_others rest2 w2 w4).
  { do 2 (apply keeps_others_setnew; [|unfold rest2; mem]). by apply keeps_others_refl. }
  assert (L3 : keeps_others rest3 w3 w4).
  { apply keeps_others_setnew; [|unfold rest3; mem]. by apply keeps_others_refl. }
  assert (L4 : keeps_others rest4 w4 w4) by by apply keeps_others_refl.
  pose proof (wrench_targets_spec self actions do_scale fb E target_names w w4 Hact
                ltac:(unfold target_names; mem) ltac:(unfold target_names; mem) Hsc' K4)
    as Y0.
  pose proof (wrench_targets_spec self actions do_scale fb E rest1 w1 w4 Hact
                ltac:(unfold rest1; mem) ltac:(unfold rest1; mem) Hsc' L1) as Y1.
  pose proof (wrench_targets_spec self actions do_scale fb E rest2 w2 w4 Hact
                ltac:(unfold rest2; mem) ltac:(unfold rest2; mem) Hsc' L2) as Y2.
  pose proof (wrench_targets_spec self actions do_scale fb E rest3 w3 w4 Hact
                ltac:(unfold rest3; mem) ltac:(unfold rest3; mem) Hsc' L3) as Y3.
  pose proof (wrench_targets_spec self actions do_scale fb E rest4 w4 w4 Hact
                ltac:(unfold rest4; mem) ltac:(unfold rest4; mem) Hsc' L4) as Y4.
  pose proof (yields_and _ _ _ Y0 (yields_and _ _ _ Y1 (yields_and _ _ _ Y2
                (yields_and _ _ _ Y3 Y4)))) as Y.
  eapply yields_mono; [|exact Y]. clear Y Y0 Y1 Y2 Y3 Y4.
  intros w5 (M0 & M1 & M2 & M3 & M4). cbn [yields].
  set (w6 := setnew "ctrl_target_gripper_dof_pos" _ w5).
  set (w7 := setnew "second_ctrl_target_gripper_dof_pos" _ w6).
  assert (N0 : keeps_others target_names w w7).
  { do 2 (apply keeps_others_setnew; [|unfold target_names; mem]). done. }
  assert (N1 : keeps_others rest1 w1 w7).
  { do 2 (apply keeps_others_setnew; [|unfold rest1; mem]). done. }
  assert (N2 : keeps_others rest2 w2 w7).
  { do 2 (apply keeps_others_setnew; [|unfold rest2; mem]). done. }
  assert (N3 : keeps_others rest3 w3 w7).
  { do 2 (apply keeps_others_setnew; [|unfold rest3; mem]). done. }
  assert (N4 : keeps_others rest4 w4 w7).
  { do 2 (apply keeps_others_setnew; [|unfold rest4; mem]). done. }
  split; [done|].
  split; [|split; [|split]].
  - exists pa, p, tp. unfold position_target. cbn [Nat.add]. rewrite Ha0, bind_Ok.
    repeat split; try done.
    apply (getval_kept _ "ctrl_target_fingertip_midpoint_pos" _ _ _ N1 eq_refl). apply getval_setnew_eq.
  - exists pa2, p2, tp2. unfold position_target. cbn [Nat.add]. rewrite Ha12, bind_Ok.
    repeat split; try done.
    apply (getval_kept _ "second_ctrl_target_fingertip_midpoint_pos" _ _ _ N2 eq_refl). apply getval_setnew_eq.
  - exists ra, q, c, tq. unfold rotation_target. cbn [Nat.add]. rewrite Ha3, bind_Ok.
    repeat split; try done.
    apply (getval_kept _ "ctrl_target_fingertip_midpoint_quat" _ _ _ N3 eq_refl). apply getval_setnew_eq.
  - exists ra2, q2, c2, tq2. unfold rotation_target. cbn [Nat.add]. rewrite Ha15, bind_Ok.
    repeat split; try done.
    apply (getval_kept _ "second_ctrl_target_fingertip_midpoint_quat" _ _ _ N4 eq_refl). apply getval_setnew_eq.
Qed.

End TargetsSpec.

(** ** Rotation targets in single precision *)

Lemma is_nan_eq x : Binary32.is_nan x = true → x = S754_nan.
Proof. by destruct x. Qed.

Lemma div_zero_zero x y :
  is_zero x = true → is_zero y = true → Binary32.div x y = S754_nan.
Proof. by destruct x, y. Qed.

Lemma div_nan_r x : Binary32.div x S754_nan = S754_nan.
Proof. by destruct x. Qed.

Lemma div_nan_l y : Binary32.div S754_nan y = S754_nan.
Proof. reflexivity. Qed.

Lemma mul_nan_l y : Binary32.mul S754_nan y = S754_nan.
Proof. reflexivity. Qed.

Lemma clamp_min_nan m : Binary32.clamp_min S754_nan m = S754_nan.
Proof. reflexivity. Qed.

Lemma add_nan_r x : Binary32.add x S754_nan = S754_nan.
Proof. by destruct x. Qed.

(** The norm reduction that sums from left to right meets both conditions
    on a norm reduction. *)
Lemma seq_norm_of_zeros : norm_of_zeros Binary32.seq_norm.
Proof.
  intros l Hl. unfold Binary32.seq_norm.
  assert (Hf : ∀ acc, is_zero acc = true →
            is_zero (foldl (λ acc x, Binary32.add acc (Binary32.mul x x)) acc l) = true).
  { induction Hl as [|x l Hx _ IH]; intros acc Ha; [done|]. cbn [foldl]. apply IH.
    destruct acc, x; try discriminate. by destruct s, s0. }
  specialize (Hf Binary32.zero eq_refl).
  by destruct (foldl _ _ _).
Qed.

Lemma seq_norm_of_nan : norm_of_nan Binary32.seq_norm.
Proof.
  intros l Hl. unfold Binary32.seq_norm.
  assert (Hf : ∀ acc, Binary32.is_nan acc = true ∨ Exists (λ x, Binary32.is_nan x = true) l →
            Binary32.is_nan
              (foldl (λ acc x, Binary32.add acc (Binary32.mul x x)) acc l) = true).
  { clear Hl. induction l as [|x l IH]; intros acc [Ha|He]; cbn [foldl].
    - done.
    - inversion He.
    - apply IH. left. by apply is_nan_eq in Ha as ->.
    - apply IH. apply Exists_cons in He as [Hx|He]; [left|by right].
      apply is_nan_eq in Hx as ->. by rewrite add_nan_r. }
  by rewrite (is_nan_eq _ (Hf _ (or_intror Hl))).
Qed.

Section SinglePrecision.
Variables (sin cos : spec_float → spec_float) (norm : list spec_float → spec_float).

Lemma rot_actions_quat_at_identity thresh (r : nat → spec_float) k :
  Binary32.gtb (norm [r 0; r 1; r 2]) thresh = false →
  rot_actions_quat_at (H := Binary32.scalar sin cos norm) true thresh r k
  = nth k [Binary32.zero; Binary32.zero; Binary32.zero; Binary32.one] Binary32.zero.
Proof.
  intros Hg. unfold rot_actions_quat_at. cbv zeta.
  cbn [fmap list_fmap seq fnorm2 fgtb Binary32.scalar]. by rewrite Hg.
Qed.

Lemma rot_actions_quat_at_nan thresh (r : nat → spec_float) k :
  norm_of_zeros norm → norm_of_nan norm →
  (∀ i, i < 3 → is_zero (r i) = true) →
  Binary32.is_nan (rot_actions_quat_at (H := Binary32.scalar sin cos norm) false thresh r k) = true.
Proof.
  intros Hz Hn Hr.
  unfold rot_actions_quat_at, quat_from_angle_axis_at. cbv zeta.
  unfold normalize_at.
  cbn [fmap list_fmap seq fnorm2 fdiv fmul fclamp_min Binary32.scalar Nat.ltb Nat.leb].
  assert (Ha : is_zero (norm [r 0; r 1; r 2]) = true).
  { apply Hz. repeat constructor; apply Hr; lia. }
  rewrite (div_zero_zero _ _ (Hr 0 ltac:(lia)) Ha), (div_zero_zero _ _ (Hr 1 ltac:(lia)) Ha),
    (div_zero_zero _ _ (Hr 2 ltac:(lia)) Ha).
  repeat match goal with
         | |- context [norm (S754_nan :: ?l)] =>
             rewrite (is_nan_eq (norm (S754_nan :: l))) by (apply Hn; by left)
         | _ => progress rewrite ?div_nan_l, ?mul_nan_l, ?clamp_min_nan
         end.
  by rewrite div_nan_r.
Qed.

Lemma quat_mul_at_nan (a b : nat → spec_float) k :
  (∀ i, i < 4 → Binary32.is_nan (a i) = true) →
  Binary32.is_nan (quat_mul_at (H := Binary32.scalar sin cos norm) a b k) = true.
Proof.
  intros Ha. unfold quat_mul_at. cbv zeta.
  cbn [fadd fsub fmul fhalf Binary32.scalar].
  rewrite (is_nan_eq _ (Ha 0 ltac:(lia))), (is_nan_eq _ (Ha 1 ltac:(lia))),
    (is_nan_eq _ (Ha 2 ltac:(lia))), (is_nan_eq _ (Ha 3 ltac:(lia))).
  by destruct k as [|[|[|k]]]; vm_compute.
Qed.

(** The rotation target of one arm, row by row. *)
Lemma rotation_target_clamped_or_nan (self : FactoryBase.instance spec_float)
    (actions : tensor spec_float) (do_scale : bool) (w w' : world spec_float)
    (E lo : nat) (cur_name tgt_name : string) (ra q cur tgt : tensor spec_float) :
  FactoryBase.num_envs self = E →
  (∃ t, getval cur_name w = Ok t ∧ tshape t = [E; 4]) →
  rotation_target (H := Binary32.scalar sin cos norm) self actions do_scale w w' E lo cur_name tgt_name
    ra q cur tgt →
  clamped_or_nan sin cos norm self actions do_scale w w' E lo cur_name tgt_name.
Proof.
  intros HE (t & Gt & St) R. unfold clamped_or_nan. cbv zeta.
  exists ra, q, cur, tgt. split; [done|].
  destruct R as (_ & Sra & Hq & Sq & Gc & Hm & _ & _).
  assert (t = cur) as -> by congruence.
  destruct (rot_actions_quat_rows (H := Binary32.scalar sin cos norm) self ra E Sra HE) as (q' & Hq' & _ & Vq).
  assert (q' = q) as -> by congruence.
  destruct (quat_mul_rows (H := Binary32.scalar sin cos norm) q cur E Sq St) as (tgt' & Hm' & _ & Vm).
  assert (tgt' = tgt) as -> by congruence.
  intros e He. split.
  - intros Hc Hg. unfold identity_row. rewrite !Vq by lia. rewrite Hc.
    by rewrite !rot_actions_quat_at_identity by done.
  - intros Hc Hz Hn Hr k Hk.
    assert (Hnan : ∀ i, i < 4 → Binary32.is_nan (tat q [e; i]) = true).
    { intros i Hi. rewrite Vq by lia. rewrite Hc.
      apply rot_actions_quat_at_nan; [done|done|]. intros j Hj. by apply Hr. }
    split; [by apply Hnan|]. rewrite Vm by lia. by apply quat_mul_at_nan.
Qed.

(** C4 (amended). In single precision, with any sine, cosine and norm
    reduction, [_apply_actions_as_ctrl_targets] given its inputs returns
    with the target orientation of each arm set to the [quat_mul] product
    of the incremental rotation and the arm's current fingertip-midpoint
    orientation, where, for both arms: under [clamp_rot], every environment
    whose rotation-action norm is not above [clamp_rot_thresh] has the
    identity quaternion as incremental rotation; without [clamp_rot],
    every environment whose rotation action is zero has NaN in all four
    components of the incremental rotation and of the target orientation
    (for a norm reduction that gives a zero on zeros and a NaN on a NaN). *)
Theorem small_rotation_is_clamped_or_nan (self : FactoryBase.instance spec_float)
    (actions : tensor spec_float) (g : spec_float) (do_scale : bool)
    (w : world spec_float) (E : nat) :
  action_inputs self actions do_scale w E →
  yields (FactoryTask.ctrl_targets_of_actions (H := Binary32.scalar sin cos norm) self actions g do_scale w)
    (λ w',
       clamped_or_nan sin cos norm self actions do_scale w w' E 3
         "fingertip_midpoint_quat" "ctrl_target_fingertip_midpoint_quat" ∧
       clamped_or_nan sin cos norm self actions do_scale w w' E 15
         "second_fingertip_midpoint_quat" "second_ctrl_target_fingertip_midpoint_quat").
Proof.
  intros Hin.
  eapply yields_mono; [|apply (ctrl_targets_spec (H := Binary32.scalar sin cos norm) self actions g do_scale E w Hin)].
  intros w' (_ & _ & _ & (ra & q & cur & tgt & R1) & (ra2 & q2 & cur2 & tgt2 & R2)).
  split.
  - eapply rotation_target_clamped_or_nan; [apply Hin|apply Hin|exact R1].
  - eapply rotation_target_clamped_or_nan; [apply Hin|apply Hin|exact R2].
Qed.

End SinglePrecision.

Lemma ex32_action_inputs clamp_rot :
  action_inputs (ex32_self clamp_rot) ex32_actions true
    ex32_targets_world 1.
Proof.
  split.
  - reflexivity.
  - reflexivity.
  - intros _. cbv zeta. by repeat split.
  - exists ex32_pos. split; [by vm_compute|reflexivity].
  - exists ex32_pos. split; [by vm_compute|reflexivity].
  - exists ex32_quat. split; [by vm_compute|reflexivity].
  - exists ex32_quat. split; [by vm_compute|reflexivity].
  - exists (CBool true), true. split; [by vm_compute|reflexivity].
  - do 4 apply wf_setnew. intros l [x Hx]. cbn [heap] in Hx. by rewrite lookup_empty in Hx.
Qed.

Lemma small_rotation_is_clamped_or_nan_witness :
  action_inputs (ex32_self true) ex32_actions true
    ex32_targets_world 1 ∧
  norm_of_zeros Binary32.seq_norm ∧ norm_of_nan Binary32.seq_norm ∧
  yields
    (FactoryTask.ctrl_targets_of_actions (H := binary32_scalar) (ex32_self true)
       ex32_actions Binary32.zero true ex32_targets_world)
    (λ w',
       clamped_or_nan sin_near_zero cos_near_zero Binary32.seq_norm (ex32_self true)
         ex32_actions true ex32_targets_world w' 1 3
         "fingertip_midpoint_quat" "ctrl_target_fingertip_midpoint_quat" ∧
       clamped_or_nan sin_near_zero cos_near_zero Binary32.seq_norm (ex32_self true)
         ex32_actions true ex32_targets_world w' 1 15
         "second_fingertip_midpoint_quat" "second_ctrl_target_fingertip_midpoint_quat").
Proof.
  split; [apply ex32_action_inputs|].
  split; [apply seq_norm_of_zeros|]. split; [apply seq_norm_of_nan|].
  apply (small_rotation_is_clamped_or_nan sin_near_zero cos_near_zero Binary32.seq_norm
           (ex32_self true) ex32_actions Binary32.zero true ex32_targets_world 1).
  apply ex32_action_inputs.
Defined.

(** C4, counterexample. One environment, both arms at the orientation
    (0.6, 0, 0, 0.8), actions with a zero rotation sub-vector for both
    arms, [clamp_rot] unset: the method returns, and all four components
    of the target orientation of either arm are NaN. *)
Lemma zero_rotation_is_nan_without_clamp :
  yields
    (w' ← FactoryTask.ctrl_targets_of_actions (H := binary32_scalar) (ex32_self false)
            ex32_actions Binary32.zero true ex32_targets_world;
     t ← getval "ctrl_target_fingertip_midpoint_quat" w';
     t' ← getval "second_ctrl_target_fingertip_midpoint_quat" w';
     Ok ((λ k, tat t [0; k]) <$> [0; 1; 2; 3], (λ k, tat t' [0; k]) <$> [0; 1; 2; 3]))
    (λ qs, qs = (replicate 4 S754_nan, replicate 4 S754_nan)).
Proof. vm_compute. reflexivity. Qed.
